(** * Text-placement image analyzer: a shallow embedding and its properties

    The development follows the analyzer's source: the colour and contrast
    formulas, the shape generator, the exhaustive rectangle search,
    [analyzeImageCore], the greedy word wrap [wrapTextCanvas] and the
    scrim / font-fit logic of [renderTextWithDynamicSizing].

    Modelling conventions.
    - Quantities that are integers by the input contract (grid dimensions,
      target area, border exclusion, image dimensions, loop counters, byte
      samples) are [Z].
    - Every other JavaScript number is a [num]: an exact rational extended
      with [Infinity], [-Infinity] and [NaN].  The source uses [Infinity] as
      a sentinel and obtains [NaN] from [parseInt]; rounding of IEEE doubles
      is not modelled, and neither is the sign of zero.  Statements about a
      discrete outcome of a quotient (a floor, a comparison) are therefore
      made where the exact value and the double agree - integers below 2^53,
      divisions that come out whole - or with the one unit of slack that a
      rounded quotient can cost; the rectangle search is embedded a second
      time over an arbitrary arithmetic ([searchShapesWith]), so that what is
      proved of its order does not depend on exactness.
    - Strings are [string]s of 8-bit code units.
    - A [TypeError] raised by reading a property of [undefined] is the
      [Throw] outcome; the canvas is an explicit state with a log of the
      drawing calls. *)

From Stdlib Require Import ZArith QArith Qround Qreduction Qminmax Qcanon.
From Stdlib Require Import List String Ascii Bool Lia Lqa DecimalString.
From Stdlib Require DecimalPos.
Import ListNotations.

Open Scope Z_scope.

(* ------------------------------------------------------------------ *)
(** ** JavaScript numbers *)

Module Num.

Inductive num : Type :=
| Fin (q : Q)
| PInf
| NInf
| NaN.

Definition Zn (z : Z) : num := Fin (inject_Z z).

Definition Qltb (x y : Q) : bool :=
  match (x ?= y)%Q with Lt => true | _ => false end.

Definition Qleb (x y : Q) : bool :=
  match (x ?= y)%Q with Gt => false | _ => true end.

Definition neg (a : num) : num :=
  match a with
  | Fin q => Fin (Qred (- q))
  | PInf => NInf
  | NInf => PInf
  | NaN => NaN
  end.

Definition add (a b : num) : num :=
  match a, b with
  | NaN, _ | _, NaN => NaN
  | Fin x, Fin y => Fin (Qred (x + y))
  | PInf, NInf | NInf, PInf => NaN
  | PInf, _ | _, PInf => PInf
  | NInf, _ | _, NInf => NInf
  end.

Definition sub (a b : num) : num := add a (neg b).

(** Sign of an infinite product or quotient: [s] is the finite operand. *)
Definition signed (s : Q) (pos : num) : num :=
  match (s ?= 0)%Q with
  | Gt => pos
  | Lt => neg pos
  | Eq => NaN
  end.

Definition mul (a b : num) : num :=
  match a, b with
  | NaN, _ | _, NaN => NaN
  | Fin x, Fin y => Fin (Qred (x * y))
  | Fin x, PInf | PInf, Fin x => signed x PInf
  | Fin x, NInf | NInf, Fin x => signed x NInf
  | PInf, PInf | NInf, NInf => PInf
  | PInf, NInf | NInf, PInf => NInf
  end.

Definition div (a b : num) : num :=
  match a, b with
  | NaN, _ | _, NaN => NaN
  | Fin x, Fin y =>
      if Qeq_bool y 0 then signed x PInf else Fin (Qred (x / y))
  | Fin _, PInf | Fin _, NInf => Fin 0
  | PInf, Fin y => if Qltb y 0 then NInf else PInf
  | NInf, Fin y => if Qltb y 0 then PInf else NInf
  | _, _ => NaN
  end.

(** [a < b]; every comparison with [NaN] is false. *)
Definition ltb (a b : num) : bool :=
  match a, b with
  | NaN, _ | _, NaN => false
  | Fin x, Fin y => Qltb x y
  | _, NInf => false
  | NInf, _ => true
  | PInf, _ => false
  | Fin _, PInf => true
  end.

Definition leb (a b : num) : bool :=
  match a, b with
  | NaN, _ | _, NaN => false
  | Fin x, Fin y => Qleb x y
  | NInf, _ => true
  | _, PInf => true
  | _, NInf => false
  | PInf, _ => false
  end.

Definition gtb (a b : num) : bool := ltb b a.
Definition geb (a b : num) : bool := leb b a.

(** [Math.max] and [Math.min]: [NaN] as soon as one argument is [NaN]. *)
Definition max (a b : num) : num :=
  match a, b with
  | NaN, _ | _, NaN => NaN
  | _, _ => if ltb a b then b else a
  end.

Definition min (a b : num) : num :=
  match a, b with
  | NaN, _ | _, NaN => NaN
  | _, _ => if ltb b a then b else a
  end.

Definition floor (a : num) : num :=
  match a with Fin q => Zn (Qfloor q) | _ => a end.

(** [Math.round]: the nearest integer, halves rounded up. *)
Definition round (a : num) : num :=
  match a with Fin q => Zn (Qfloor (q + (1 # 2))) | _ => a end.

(** The integer read off a floored value.  It is only used on cell
    boundaries inside the grid loops, where the count of columns and rows is
    at least one and the value is finite. *)
Definition floorZ (a : num) : Z :=
  match a with Fin q => Qfloor q | _ => 0 end.

(** [String(n)] for the integer values the templates interpolate, below
    1e21: from there on the source prints an exponent, which no statement
    here relies on. *)
Definition to_string (a : num) : string :=
  match a with
  | Fin q => NilZero.string_of_int (Z.to_int (Qfloor q))
  | PInf => "Infinity"
  | NInf => "-Infinity"
  | NaN => "NaN"
  end.

End Num.

Import Num.

Declare Scope num_scope.
Delimit Scope num_scope with num.
Bind Scope num_scope with num.
Infix "+" := Num.add : num_scope.
Infix "-" := Num.sub : num_scope.
Infix "*" := Num.mul : num_scope.
Infix "/" := Num.div : num_scope.
Infix "<?" := Num.ltb : num_scope.
Infix "<=?" := Num.leb : num_scope.
Infix ">?" := Num.gtb : num_scope.
Infix ">=?" := Num.geb : num_scope.

(** Decimal literal helper: [dec n d] is the rational [n / d]. *)
Definition dec (n : Z) (d : positive) : num := Fin (Qred (n # d)).

(* ------------------------------------------------------------------ *)
(** ** Outcomes: a value or a thrown [TypeError] *)

Inductive outcome (A : Type) : Type :=
| Ret (a : A)
| Throw.
Arguments Ret {A} a.
Arguments Throw {A}.

Definition bind {A B : Type} (m : outcome A) (k : A -> outcome B) : outcome B :=
  match m with
  | Ret a => k a
  | Throw => Throw
  end.

Notation "x <- m ;; k" := (bind m (fun x => k))
  (at level 61, m at next level, right associativity).

(** A [for] loop over a list of counter values threading a state. *)
Fixpoint forM {A S : Type} (xs : list A) (s : S) (body : A -> S -> outcome S)
  : outcome S :=
  match xs with
  | [] => Ret s
  | x :: rest => s' <- body x s ;; forM rest s' body
  end.

(** [Zseq lo n] is [lo, lo+1, ..., lo+n-1]. *)
Fixpoint Zseq (lo : Z) (n : nat) : list Z :=
  match n with
  | O => []
  | S k => lo :: Zseq (lo + 1) k
  end.

(** Counter values of [for (i = lo; i < hi; i++)]. *)
Definition upto (lo hi : Z) : list Z := Zseq lo (Z.to_nat (hi - lo)).

(** Counter values of [for (i = lo; i <= hi; i++)]. *)
Definition through (lo hi : Z) : list Z := Zseq lo (Z.to_nat (hi - lo + 1)).

(* ------------------------------------------------------------------ *)
(** ** Interfaces *)

Record Color : Type := mkColor { cr : num; cg : num; cb : num }.

Record CellStat : Type := mkCellStat { avgColor : Color; busyness : num }.

Record GridConfig : Type := mkGrid { rows : Z; cols : Z }.

Record ShapeToFind : Type := mkShape { sname : string; srows : Z; scols : Z }.

Record FoundRectInfo : Type := mkFound {
  fx : num; fy : num; fwidth : num; fheight : num;
  favgColor : Color;
  rStart : Z; cStart : Z;
  avgBusyness : num;
  shape : ShapeToFind
}.

Record Rect : Type := mkRect { rx : num; ry : num; rwidth : num; rheight : num }.

Record AnalysisResult : Type := mkResult {
  rect : Rect;
  textColor : string;
  fontSize : num;
  avgBackgroundColor : Color;
  aspectRatioName : string;
  actualCells : GridConfig;
  rectBusyness : num;
  textContrastRatio : num
}.

Record AnalysisDataForHover : Type := mkHover {
  stats : list CellStat;
  hGridConfig : GridConfig;
  cellWidthPx : num;
  cellHeightPx : num;
  canvasWidth : Z;
  canvasHeight : Z
}.

Record ImageData : Type := mkImage { data : list Z; imgWidth : Z; imgHeight : Z }.

Record ImageAnalysisCoreParams : Type := mkParams {
  imageData : ImageData;
  gridConfig : GridConfig;
  targetAreaValue : Z;
  useAverageCellColorForText : bool;
  borderExclusionCells : Z
}.

Record ImageAnalysisCoreResult : Type := mkCore {
  analysisResultData : option AnalysisResult;
  analysisDataForHover : option AnalysisDataForHover
}.

(* ------------------------------------------------------------------ *)
(** ** Colour and contrast *)

Definition getLuminance (r g b : num) : num :=
  (dec 299 1000 * r + dec 587 1000 * g + dec 114 1000 * b)%num.

Definition calculateContrastRatio (color1 color2 : Color) : num :=
  let lum1 := getLuminance (cr color1) (cg color1) (cb color1) in
  let lum2 := getLuminance (cr color2) (cg color2) (cb color2) in
  let lighterLum := Num.max lum1 lum2 in
  let darkerLum := Num.min lum1 lum2 in
  ((lighterLum + dec 5 100 * Zn 255) / (darkerLum + dec 5 100 * Zn 255))%num.

(* ------------------------------------------------------------------ *)
(** ** Shape candidate generator *)

(** [Math.round(Math.sqrt(q))] for [q >= 0], in exact arithmetic: the
    integer [k] with [(2k-1)^2 <= 4q < (2k+1)^2]. *)
Definition round_sqrt (q : Q) : Z := (Z.sqrt (Qfloor (4 * q)) + 1) / 2.

(** The string a template gives for an integer. *)
Definition Zstr (z : Z) : string := NilZero.string_of_int (Z.to_int z).

(** The [Map<string, ShapeToFind>], in insertion order. *)
Definition ShapeMap : Type := list (string * ShapeToFind).

Definition has (shapes : ShapeMap) (key : string) : bool :=
  existsb (fun kv => String.eqb (fst kv) key) shapes.

Definition values (shapes : ShapeMap) : list ShapeToFind := map snd shapes.

Definition shapeKey (r c : Z) : string := (Zstr r ++ "x" ++ Zstr c)%string.

Definition addShape (targetArea maxRows maxCols : Z)
    (shapes : ShapeMap) (namePrefix : string) (r c : Z) : ShapeMap :=
  if (r <=? 0) || (c <=? 0) || (r >? maxRows) || (c >? maxCols)
     || Qltb (inject_Z (r * c)) (inject_Z targetArea * (8 # 10))
  then shapes
  else
    let key := shapeKey r c in
    if negb (has shapes key) then
      let name := namePrefix in
      let name :=
        if Qleb (inject_Z (Z.abs (r - c)))
                (Qmax 1 (inject_Z (Z.min r c) * (25 # 100)))
        then "square"%string
        else if Qltb (inject_Z r * (125 # 100)) (inject_Z c) then "landscape"%string
        else if Qltb (inject_Z c * (125 # 100)) (inject_Z r) then "portrait"%string
        else "near-square"%string in
      shapes ++ [(key, mkShape name r c)]
    else shapes.

Definition generateShapesToTest (targetArea maxRows maxCols : Z)
  : list ShapeToFind :=
  let add := addShape targetArea maxRows maxCols in
  let shapes : ShapeMap := [] in
  let r_s := Z.max 1 (round_sqrt (inject_Z targetArea)) in
  let c_s := Z.max 1 (Qceiling (inject_Z targetArea / inject_Z r_s)) in
  let shapes := add shapes "square_attempt1"%string r_s c_s in
  let shapes := add shapes "square_attempt2"%string c_s r_s in
  let r_ls := Z.max 1 (round_sqrt (inject_Z targetArea / (18 # 10))) in
  let c_ls := Z.max 1 (Qceiling (inject_Z targetArea / inject_Z r_ls)) in
  let c_ls :=
    if (r_ls * c_ls <? targetArea) && (c_ls <? maxCols) then c_ls + 1 else c_ls in
  let shapes := add shapes "landscape_attempt"%string r_ls c_ls in
  let c_pt := Z.max 1 (round_sqrt (inject_Z targetArea / (18 # 10))) in
  let r_pt := Z.max 1 (Qceiling (inject_Z targetArea / inject_Z c_pt)) in
  let r_pt :=
    if (r_pt * c_pt <? targetArea) && (r_pt <? maxRows) then r_pt + 1 else r_pt in
  let shapes := add shapes "portrait_attempt"%string r_pt c_pt in
  let shapes :=
    if targetArea <=? maxCols then
      add shapes "extreme_ls"%string 1
        (Z.min maxCols (Z.max targetArea (Qceiling (inject_Z targetArea / 1))))
    else shapes in
  let shapes :=
    if targetArea <=? maxRows then
      add shapes "extreme_pt"%string
        (Z.min maxRows (Z.max targetArea (Qceiling (inject_Z targetArea / 1)))) 1
    else shapes in
  let shapes := add shapes "square_large1"%string (r_s + 1) c_s in
  let shapes := add shapes "square_large2"%string r_s (c_s + 1) in
  values shapes.

(* ------------------------------------------------------------------ *)
(** ** Rectangle search *)

(** [cellStats[i]] followed by a property read: a [TypeError] when the
    element is [undefined]. *)
Definition statAt (cellStats : list CellStat) (i : Z) : outcome CellStat :=
  if i <? 0 then Throw
  else match nth_error cellStats (Z.to_nat i) with
       | Some s => Ret s
       | None => Throw
       end.

Record RectSums : Type := mkSums {
  currentRectBusynessSum : num;
  pixelCount : Z;
  rectSumR : num; rectSumG : num; rectSumB : num
}.

Definition sumsInit : RectSums := mkSums (Zn 0) 0 (Zn 0) (Zn 0) (Zn 0).

(** The two offset loops of one candidate position. *)
Definition sumRect (shapeToFind : ShapeToFind) (cellStats : list CellStat)
    (currentGridConfig : GridConfig) (rStart cStart : Z) : outcome RectSums :=
  forM (upto 0 (srows shapeToFind)) sumsInit (fun rOffset acc =>
    forM (upto 0 (scols shapeToFind)) acc (fun cOffset acc =>
      let cellIndex :=
        (rStart + rOffset) * cols currentGridConfig + (cStart + cOffset) in
      st <- statAt cellStats cellIndex ;;
      Ret (mkSums (currentRectBusynessSum acc + busyness st)%num
                  (pixelCount acc + 1)
                  (rectSumR acc + cr (avgColor st))%num
                  (rectSumG acc + cg (avgColor st))%num
                  (rectSumB acc + cb (avgColor st))%num))).

(** The mutable pair [bestRect], [minAvgBusyness]. *)
Definition SearchState : Type := (option FoundRectInfo * num)%type.

Definition tryPosition (shapeToFind : ShapeToFind) (cellStats : list CellStat)
    (currentGridConfig : GridConfig) (cellWidthPx cellHeightPx : num)
    (rStart cStart : Z) (st : SearchState) : outcome SearchState :=
  sums <- sumRect shapeToFind cellStats currentGridConfig rStart cStart ;;
  if pixelCount sums =? 0 then Ret st
  else
    let n := Zn (pixelCount sums) in
    let avgBusynessForRect := (currentRectBusynessSum sums / n)%num in
    if (avgBusynessForRect <? snd st)%num then
      Ret (Some (mkFound
                   (Num.floor (Zn cStart * cellWidthPx))
                   (Num.floor (Zn rStart * cellHeightPx))
                   (Num.floor (Zn (scols shapeToFind) * cellWidthPx))
                   (Num.floor (Zn (srows shapeToFind) * cellHeightPx))
                   (mkColor (rectSumR sums / n) (rectSumG sums / n)
                            (rectSumB sums / n))
                   rStart cStart avgBusynessForRect shapeToFind),
           avgBusynessForRect)
    else Ret st.

Definition findBestRectForGivenShape (shapeToFind : ShapeToFind)
    (cellStats : list CellStat) (currentGridConfig : GridConfig)
    (cellWidthPx cellHeightPx : num) (borderExclusion : Z)
  : outcome (option FoundRectInfo) :=
  if (srows shapeToFind + 2 * borderExclusion >? rows currentGridConfig)
     || (scols shapeToFind + 2 * borderExclusion >? cols currentGridConfig)
  then Ret None
  else
    let maxRStart := rows currentGridConfig - srows shapeToFind - borderExclusion in
    let maxCStart := cols currentGridConfig - scols shapeToFind - borderExclusion in
    st <- forM (through borderExclusion maxRStart) (None, PInf) (fun rStart st =>
            forM (through borderExclusion maxCStart) st (fun cStart st =>
              tryPosition shapeToFind cellStats currentGridConfig
                          cellWidthPx cellHeightPx rStart cStart st)) ;;
    Ret (fst st).

(** The loop of [analyzeImageCore] over the generated shapes. *)
Definition keepBetter (overallBestRect : option FoundRectInfo)
    (rectInfoForShape : option FoundRectInfo) : option FoundRectInfo :=
  match rectInfoForShape with
  | Some r =>
      match overallBestRect with
      | None => Some r
      | Some best =>
          if (avgBusyness r <? avgBusyness best)%num then Some r else Some best
      end
  | None => overallBestRect
  end.

Definition searchShapes (shapesToTest : list ShapeToFind)
    (cellStats : list CellStat) (gridConfig : GridConfig)
    (cellWidthPx cellHeightPx : num) (borderExclusionCells : Z)
  : outcome (option FoundRectInfo) :=
  forM shapesToTest None (fun shape overallBestRect =>
    rectInfoForShape <-
      findBestRectForGivenShape shape cellStats gridConfig
                                cellWidthPx cellHeightPx borderExclusionCells ;;
    Ret (keepBetter overallBestRect rectInfoForShape)).

(** *** The search over any arithmetic

    The search uses the arithmetic of its numbers in three places: the sums
    over the covered cells, the quotients by their count and the floored
    products of the pixel rectangle.  Which rectangle it keeps depends on
    them through the comparison [<] alone, and the comparison of two doubles
    is exact.  The definitions below are the same functions over any
    addition, multiplication, division and floor on [num]: those of the exact
    rationals above, or the rounding ones of the doubles of the source, whose
    values are rationals, infinities and [NaN] as well. *)

Section AnyArithmetic.

Variables (add mul div : num -> num -> num) (floor : num -> num).

Definition sumRectWith (shapeToFind : ShapeToFind) (cellStats : list CellStat)
    (currentGridConfig : GridConfig) (rStart cStart : Z) : outcome RectSums :=
  forM (upto 0 (srows shapeToFind)) sumsInit (fun rOffset acc =>
    forM (upto 0 (scols shapeToFind)) acc (fun cOffset acc =>
      let cellIndex :=
        (rStart + rOffset) * cols currentGridConfig + (cStart + cOffset) in
      st <- statAt cellStats cellIndex ;;
      Ret (mkSums (add (currentRectBusynessSum acc) (busyness st))
                  (pixelCount acc + 1)
                  (add (rectSumR acc) (cr (avgColor st)))
                  (add (rectSumG acc) (cg (avgColor st)))
                  (add (rectSumB acc) (cb (avgColor st)))))).

Definition tryPositionWith (shapeToFind : ShapeToFind)
    (cellStats : list CellStat) (currentGridConfig : GridConfig)
    (cellWidthPx cellHeightPx : num) (rStart cStart : Z) (st : SearchState)
  : outcome SearchState :=
  sums <- sumRectWith shapeToFind cellStats currentGridConfig rStart cStart ;;
  if pixelCount sums =? 0 then Ret st
  else
    let n := Zn (pixelCount sums) in
    let avgBusynessForRect := div (currentRectBusynessSum sums) n in
    if (avgBusynessForRect <? snd st)%num then
      Ret (Some (mkFound
                   (floor (mul (Zn cStart) cellWidthPx))
                   (floor (mul (Zn rStart) cellHeightPx))
                   (floor (mul (Zn (scols shapeToFind)) cellWidthPx))
                   (floor (mul (Zn (srows shapeToFind)) cellHeightPx))
                   (mkColor (div (rectSumR sums) n) (div (rectSumG sums) n)
                            (div (rectSumB sums) n))
                   rStart cStart avgBusynessForRect shapeToFind),
           avgBusynessForRect)
    else Ret st.

Definition findBestRectForGivenShapeWith (shapeToFind : ShapeToFind)
    (cellStats : list CellStat) (currentGridConfig : GridConfig)
    (cellWidthPx cellHeightPx : num) (borderExclusion : Z)
  : outcome (option FoundRectInfo) :=
  if (srows shapeToFind + 2 * borderExclusion >? rows currentGridConfig)
     || (scols shapeToFind + 2 * borderExclusion >? cols currentGridConfig)
  then Ret None
  else
    let maxRStart := rows currentGridConfig - srows shapeToFind - borderExclusion in
    let maxCStart := cols currentGridConfig - scols shapeToFind - borderExclusion in
    st <- forM (through borderExclusion maxRStart) (None, PInf) (fun rStart st =>
            forM (through borderExclusion maxCStart) st (fun cStart st =>
              tryPositionWith shapeToFind cellStats currentGridConfig
                              cellWidthPx cellHeightPx rStart cStart st)) ;;
    Ret (fst st).

Definition searchShapesWith (shapesToTest : list ShapeToFind)
    (cellStats : list CellStat) (gridConfig : GridConfig)
    (cellWidthPx cellHeightPx : num) (borderExclusionCells : Z)
  : outcome (option FoundRectInfo) :=
  forM shapesToTest None (fun shape overallBestRect =>
    rectInfoForShape <-
      findBestRectForGivenShapeWith shape cellStats gridConfig
                                    cellWidthPx cellHeightPx borderExclusionCells ;;
    Ret (keepBetter overallBestRect rectInfoForShape)).

End AnyArithmetic.

(* ------------------------------------------------------------------ *)
(** ** Strings: the JavaScript operations the source uses *)

Definition is_digit (c : ascii) : bool :=
  let n := nat_of_ascii c in (48 <=? n)%nat && (n <=? 57)%nat.

(** White space of [trim], [parseInt] and the regular-expression class
    [\s], within the 8-bit range. *)
Definition is_space (c : ascii) : bool :=
  let n := nat_of_ascii c in
  ((9 <=? n)%nat && (n <=? 13)%nat) || (n =? 32)%nat || (n =? 160)%nat.

(** The longest prefix whose characters satisfy [p], and the rest. *)
Fixpoint span (p : ascii -> bool) (s : string) : string * string :=
  match s with
  | EmptyString => (EmptyString, EmptyString)
  | String c rest =>
      if p c then let (a, b) := span p rest in (String c a, b)
      else (EmptyString, s)
  end.

(** [expect lit s]: the rest of [s] after the literal [lit]. *)
Fixpoint expect (lit s : string) : option string :=
  match lit, s with
  | EmptyString, _ => Some s
  | String a lit', String b s' =>
      if Ascii.eqb a b then expect lit' s' else None
  | String _ _, EmptyString => None
  end.

(** One or more digits (the group [(\d+)]). *)
Definition digits1 (s : string) : option (string * string) :=
  let (d, rest) := span is_digit s in
  match d with
  | EmptyString => None
  | _ => Some (d, rest)
  end.

(** [/rgb\((\d+),\s*(\d+),\s*(\d+)\)/] anchored at the start of [s]. *)
Definition matchRgbAt (s : string) : option (string * string * string) :=
  match expect "rgb(" s with
  | None => None
  | Some s1 =>
  match digits1 s1 with
  | None => None
  | Some (d1, s2) =>
  match expect "," s2 with
  | None => None
  | Some s3 =>
  match digits1 (snd (span is_space s3)) with
  | None => None
  | Some (d2, s4) =>
  match expect "," s4 with
  | None => None
  | Some s5 =>
  match digits1 (snd (span is_space s5)) with
  | None => None
  | Some (d3, s6) =>
  match expect ")" s6 with
  | None => None
  | Some _ => Some (d1, d2, d3)
  end end end end end end end.

(** [s.match(/rgb\((\d+),\s*(\d+),\s*(\d+)\)/)]: the first position at
    which the pattern matches. *)
Fixpoint matchRgb (s : string) : option (string * string * string) :=
  match matchRgbAt s with
  | Some m => Some m
  | None =>
      match s with
      | EmptyString => None
      | String _ rest => matchRgb rest
      end
  end.

Definition digitValue (c : ascii) : option Z :=
  let n := Z.of_nat (nat_of_ascii c) in
  if (48 <=? n) && (n <=? 57) then Some (n - 48)
  else if (97 <=? n) && (n <=? 122) then Some (n - 87)
  else if (65 <=? n) && (n <=? 90) then Some (n - 55)
  else None.

(** The digits of radix [radix] at the start of [s], accumulated from
    [acc]; [seen] tells whether a digit was read. *)
Fixpoint readDigits (radix : Z) (s : string) (acc : Z) (seen : bool)
  : option Z :=
  match s with
  | EmptyString => if seen then Some acc else None
  | String c rest =>
      match digitValue c with
      | Some d =>
          if d <? radix then readDigits radix rest (acc * radix + d) true
          else if seen then Some acc else None
      | None => if seen then Some acc else None
      end
  end.

(** [parseInt(s)] without a radix argument, as an exact integer: the source
    agrees up to 2^53 and rounds above; the statements about it stay below. *)
Definition parseInt (s : string) : num :=
  let s1 := snd (span is_space s) in
  let '(sign, s2) :=
    match s1 with
    | String "-"%char r => (-1, r)
    | String "+"%char r => (1, r)
    | _ => (1, s1)
    end in
  let '(radix, s3) :=
    match s2 with
    | String "0"%char (String "x"%char r) => (16, r)
    | String "0"%char (String "X"%char r) => (16, r)
    | _ => (10, s2)
    end in
  match readDigits radix s3 0 false with
  | Some v => Zn (sign * v)
  | None => NaN
  end.

(** [s.substring(a, b)] for [a <= b]. *)
Definition jsSubstring (a b : nat) (s : string) : string :=
  String.substring a (b - a) s.

(** [s || d] on strings: the empty string is falsy. *)
Definition orElse (s d : string) : string :=
  match s with EmptyString => d | _ => s end.

(** [!s.trim()]: nothing but white space. *)
Fixpoint isBlank (s : string) : bool :=
  match s with
  | EmptyString => true
  | String c rest => is_space c && isBlank rest
  end.

(** [s.split(' ')]: never the empty list. *)
Fixpoint split (s : string) : list string :=
  match s with
  | EmptyString => [EmptyString]
  | String c rest =>
      if Ascii.eqb c " "%char then EmptyString :: split rest
      else match split rest with
           | w :: ws => String c w :: ws
           | [] => [String c EmptyString]
           end
  end.

(** [lines.join(' ')]. *)
Fixpoint join (ls : list string) : string :=
  match ls with
  | [] => EmptyString
  | [l] => l
  | l :: rest => (l ++ " " ++ join rest)%string
  end.

(* ------------------------------------------------------------------ *)
(** ** Grid statistics and [analyzeImageCore] *)

(** [data[i]] used as a number: [undefined] becomes [NaN]. *)
Definition sample (d : list Z) (i : Z) : num :=
  if i <? 0 then NaN
  else match nth_error d (Z.to_nat i) with
       | Some v => Zn v
       | None => NaN
       end.

Record CellAcc : Type := mkAcc {
  sumR : num; sumG : num; sumB : num;
  luminances : list num;
  pCount : Z
}.

Definition reduce (f : num -> num -> num) (xs : list num) (init : num) : num :=
  fold_left f xs init.

(** The body of the two grid loops: the statistics of cell [(r, c)].
    [look i] is [data[i]] and [imgWidth] the width of the image. *)
Definition cellStat (look : Z -> num) (imgWidth : Z)
    (cellWidthPx cellHeightPx : num) (r c : Z) : CellStat :=
  let cellX := floorZ (Num.floor (Zn c * cellWidthPx)) in
  let cellY := floorZ (Num.floor (Zn r * cellHeightPx)) in
  let cCellWidth := floorZ (Num.floor (Zn (c + 1) * cellWidthPx)) - cellX in
  let cCellHeight := floorZ (Num.floor (Zn (r + 1) * cellHeightPx)) - cellY in
  let acc :=
    fold_left (fun acc y =>
      fold_left (fun acc x =>
        let i := (y * imgWidth + x) * 4 in
        mkAcc (sumR acc + look i)%num
              (sumG acc + look (i + 1)%Z)%num
              (sumB acc + look (i + 2)%Z)%num
              (luminances acc ++
                 [getLuminance (look i) (look (i + 1)) (look (i + 2))])
              (pCount acc + 1))
        (upto cellX (cellX + cCellWidth)) acc)
      (upto cellY (cellY + cCellHeight))
      (mkAcc (Zn 0) (Zn 0) (Zn 0) [] 0) in
  if pCount acc =? 0 then mkCellStat (mkColor (Zn 0) (Zn 0) (Zn 0)) PInf
  else
    let n := Zn (pCount acc) in
    let avgR := (sumR acc / n)%num in
    let avgG := (sumG acc / n)%num in
    let avgB := (sumB acc / n)%num in
    let avgL := (reduce (fun a l => a + l) (luminances acc) (Zn 0) / n)%num in
    let busy :=
      (reduce (fun a l => a + (l - avgL) * (l - avgL)) (luminances acc) (Zn 0)
       / n)%num in
    mkCellStat (mkColor avgR avgG avgB) busy.

(** The two grid loops, pushing one [CellStat] per cell in row-major order. *)
Definition gridStats (look : Z -> num) (imgWidth : Z) (gridConfig : GridConfig)
    (cellWidthPx cellHeightPx : num) : list CellStat :=
  fold_left (fun currentCellStats r =>
    fold_left (fun currentCellStats c =>
      currentCellStats ++ [cellStat look imgWidth cellWidthPx cellHeightPx r c])
      (upto 0 (cols gridConfig)) currentCellStats)
    (upto 0 (rows gridConfig)) [].

Definition computeCellStats (img : ImageData) (gridConfig : GridConfig)
    (cellWidthPx cellHeightPx : num) : list CellStat :=
  gridStats (sample (data img)) (imgWidth img) gridConfig cellWidthPx cellHeightPx.

Definition blackOrWhite (rectBgColor : Color) : string :=
  if (getLuminance (cr rectBgColor) (cg rectBgColor) (cb rectBgColor) >? Zn 128)%num
  then "black"%string else "white"%string.

(** The scan for the covered cell of highest contrast. *)
Definition bestContrastCell (best : FoundRectInfo) (cellStats : list CellStat)
    (gridConfig : GridConfig) : outcome (option Color * num) :=
  forM (upto 0 (srows (shape best))) (None, Zn 0) (fun rOffset st =>
    forM (upto 0 (scols (shape best))) st (fun cOffset st =>
      let cellIndex :=
        (rStart best + rOffset) * cols gridConfig + (cStart best + cOffset) in
      cell <- statAt cellStats cellIndex ;;
      let cellAvgColor := avgColor cell in
      let contrast := calculateContrastRatio cellAvgColor (favgColor best) in
      if (contrast >? snd st)%num then Ret (Some cellAvgColor, contrast)
      else Ret st)).

Definition chooseTextColor (useAverageCellColorForText : bool)
    (best : FoundRectInfo) (cellStats : list CellStat) (gridConfig : GridConfig)
  : outcome string :=
  let rectBgColor := favgColor best in
  if useAverageCellColorForText then
    st <- bestContrastCell best cellStats gridConfig ;;
    match fst st with
    | Some bestContrastCellColor =>
        if (snd st >? dec 25 10)%num then
          Ret ("rgb(" ++ Num.to_string (Num.round (cr bestContrastCellColor))
               ++ ", " ++ Num.to_string (Num.round (cg bestContrastCellColor))
               ++ ", " ++ Num.to_string (Num.round (cb bestContrastCellColor))
               ++ ")")%string
        else Ret (blackOrWhite rectBgColor)
    | None => Ret (blackOrWhite rectBgColor)
    end
  else Ret (blackOrWhite rectBgColor).

Definition textColorObject (chosenTextColor : string) : Color :=
  if String.eqb chosenTextColor "black" then mkColor (Zn 0) (Zn 0) (Zn 0)
  else if String.eqb chosenTextColor "white" then mkColor (Zn 255) (Zn 255) (Zn 255)
  else match matchRgb chosenTextColor with
       | Some (m1, m2, m3) => mkColor (parseInt m1) (parseInt m2) (parseInt m3)
       | None => mkColor (Zn 0) (Zn 0) (Zn 0)
       end.

Definition noShapesMessage : string :=
  "Could not generate valid shapes. Try reducing border exclusion or increasing grid/target area.".

(** [analyzeImageCore] from the point where the cell statistics are known:
    shape generation, search, text colour and font size. *)
Definition placeText (params : ImageAnalysisCoreParams)
    (cellWidthPx cellHeightPx : num) (currentCellStats : list CellStat)
  : outcome (ImageAnalysisCoreResult * list string) :=
  let img := imageData params in
  let gridConfig := gridConfig params in
  let borderExclusionCells := borderExclusionCells params in
  let analysisDataForHover :=
    mkHover currentCellStats gridConfig cellWidthPx cellHeightPx
            (imgWidth img) (imgHeight img) in
  let effectiveMaxRows := rows gridConfig - 2 * borderExclusionCells in
  let effectiveMaxCols := cols gridConfig - 2 * borderExclusionCells in
  let shapesToTest :=
    generateShapesToTest (targetAreaValue params) effectiveMaxRows effectiveMaxCols in
  if (List.length shapesToTest =? 0)%nat then
    Ret (mkCore None (Some analysisDataForHover), [noShapesMessage])
  else
    overallBestRect <-
      searchShapes shapesToTest currentCellStats gridConfig
                   cellWidthPx cellHeightPx borderExclusionCells ;;
    match overallBestRect with
    | None => Ret (mkCore None (Some analysisDataForHover), [])
    | Some best =>
        let rectBgColor := favgColor best in
        chosenTextColor <-
          chooseTextColor (useAverageCellColorForText params) best
                          currentCellStats gridConfig ;;
        let textContrastRatio :=
          calculateContrastRatio (textColorObject chosenTextColor) rectBgColor in
        let singleCellHeightInRect :=
          (fheight best / Zn (srows (shape best)))%num in
        let fontSize :=
          Num.max (Zn 12)
            (Num.min (singleCellHeightInRect * dec 6 10)
               (Num.min (fheight best * dec 3 10) (fwidth best * dec 2 10)))%num in
        Ret (mkCore
               (Some (mkResult
                        (mkRect (fx best) (fy best) (fwidth best) (fheight best))
                        chosenTextColor fontSize rectBgColor
                        (sname (shape best))
                        (mkGrid (srows (shape best)) (scols (shape best)))
                        (avgBusyness best) textContrastRatio))
               (Some analysisDataForHover),
             [])
    end.

(** [analyzeImageCore]: the result and the messages passed to [showError]. *)
Definition analyzeImageCore (params : ImageAnalysisCoreParams)
  : outcome (ImageAnalysisCoreResult * list string) :=
  let img := imageData params in
  let gridConfig := gridConfig params in
  if (imgWidth img =? 0) || (imgHeight img =? 0) then
    Ret (mkCore None None, [])
  else
    let cellWidthPx := (Zn (imgWidth img) / Zn (cols gridConfig))%num in
    let cellHeightPx := (Zn (imgHeight img) / Zn (rows gridConfig))%num in
    placeText params cellWidthPx cellHeightPx
              (computeCellStats img gridConfig cellWidthPx cellHeightPx).

(* ------------------------------------------------------------------ *)
(** ** Text rendering helper *)

Definition TEXT_PADDING : num := Zn 10.
Definition LINE_HEIGHT_MULTIPLIER : num := dec 12 10.
Definition MIN_RENDER_FONT_SIZE : num := Zn 8.
Definition CONTRAST_THRESHOLD_FOR_SCRIM : num := dec 40 10.
Definition BUSYNESS_THRESHOLD_FOR_SCRIM : num := Zn 500.

Definition nonEmpty (s : string) : bool :=
  match s with EmptyString => false | _ => true end.

(** The [for] loop of [wrapTextCanvas] over [words[1..]]; the result is
    [lines] and [currentLine] when the loop is left. *)
Fixpoint wrapLoop (measure : string -> num) (maxWidth : num)
    (words : list string) (lines : list string) (currentLine : string)
  : list string * string :=
  match words with
  | [] => (lines, currentLine)
  | word :: rest =>
      let testLine :=
        (currentLine ++ (if nonEmpty currentLine then " " else "") ++ word)%string in
      if (measure testLine <? maxWidth)%num then
        wrapLoop measure maxWidth rest lines testLine
      else
        let lines := if nonEmpty currentLine then lines ++ [currentLine] else lines in
        let currentLine := word in
        if (measure currentLine >? maxWidth)%num && (List.length lines =? 0)%nat
        then (lines ++ [currentLine], EmptyString)
        else wrapLoop measure maxWidth rest lines currentLine
  end.

(** [measure s] is [ctx.measureText(s).width] under the current font. *)
Definition wrapTextCanvas (measure : string -> num) (text : string)
    (maxWidth : num) : list string :=
  if isBlank text || (maxWidth <=? Zn 0)%num then []
  else
    match split text with
    | [] => []
    | first :: rest =>
        if (measure first >? maxWidth)%num then [first]
        else
          let (lines, currentLine) := wrapLoop measure maxWidth rest [] first in
          if nonEmpty currentLine then lines ++ [currentLine] else lines
    end.

(** The canvas context: the properties the function assigns and the log of
    its drawing calls.  The font is always [`${size}px Arial`] and is kept as
    its size; the scrim style [`rgba(${base}, ${opacity})`] is kept as its
    two interpolated parts. *)
Inductive FillStyle : Type :=
| Rgba (base : string) (opacity : num)
| Plain (color : string).

Inductive Font : Type :=
| ArialPx (size : num)
| OtherFont (spec : string).

Inductive DrawCall : Type :=
| FillRect (style : FillStyle) (x y w h : num)
| FillText (style : FillStyle) (font : Font) (align baseline : string)
           (text : string) (x y : num).

Record Canvas : Type := mkCanvas {
  fillStyle : FillStyle;
  font : Font;
  textAlign : string;
  textBaseline : string;
  calls : list DrawCall
}.

Definition setFillStyle (s : FillStyle) (ctx : Canvas) : Canvas :=
  mkCanvas s (font ctx) (textAlign ctx) (textBaseline ctx) (calls ctx).
Definition setFont (f : Font) (ctx : Canvas) : Canvas :=
  mkCanvas (fillStyle ctx) f (textAlign ctx) (textBaseline ctx) (calls ctx).
Definition setTextAlign (a : string) (ctx : Canvas) : Canvas :=
  mkCanvas (fillStyle ctx) (font ctx) a (textBaseline ctx) (calls ctx).
Definition setTextBaseline (b : string) (ctx : Canvas) : Canvas :=
  mkCanvas (fillStyle ctx) (font ctx) (textAlign ctx) b (calls ctx).
Definition fillRect (x y w h : num) (ctx : Canvas) : Canvas :=
  mkCanvas (fillStyle ctx) (font ctx) (textAlign ctx) (textBaseline ctx)
           (calls ctx ++ [FillRect (fillStyle ctx) x y w h]).
Definition fillText (t : string) (x y : num) (ctx : Canvas) : Canvas :=
  mkCanvas (fillStyle ctx) (font ctx) (textAlign ctx) (textBaseline ctx)
           (calls ctx ++
              [FillText (fillStyle ctx) (font ctx) (textAlign ctx)
                        (textBaseline ctx) t x y]).

Definition needsScrim (r : AnalysisResult) : bool :=
  (textContrastRatio r <? CONTRAST_THRESHOLD_FOR_SCRIM)%num
  || (rectBusyness r >? BUSYNESS_THRESHOLD_FOR_SCRIM)%num.

Definition textIsDark (textColor : string) : bool :=
  String.eqb textColor "black"
  || (getLuminance
        (parseInt (orElse (jsSubstring 4 7 textColor) "0"))
        (parseInt (orElse (jsSubstring 9 12 textColor) "0"))
        (parseInt (orElse (jsSubstring 14 17 textColor) "0"))
      <? Zn 128)%num.

Definition scrimBaseColor (textColor : string) : string :=
  if textIsDark textColor then "255,255,255"%string else "0,0,0"%string.

Definition scrimOpacity (textContrastRatio : num) : num :=
  if (textContrastRatio <? dec 25 10)%num then dec 7 10
  else if (textContrastRatio <? dec 35 10)%num then dec 6 10
  else dec 5 10.

(** The [if (needsScrim)] block. *)
Definition drawScrim (r : AnalysisResult) (ctx : Canvas) : Canvas :=
  if needsScrim r then
    let ctx := setFillStyle
                 (Rgba (scrimBaseColor (textColor r))
                       (scrimOpacity (textContrastRatio r))) ctx in
    fillRect (rx (rect r)) (ry (rect r)) (rwidth (rect r)) (rheight (rect r)) ctx
  else ctx.

(** The variables the font-fit loop assigns. *)
Record FitState : Type := mkFit {
  ctxOf : Canvas;
  renderFontSize : num;
  wrappedLines : list string;
  textBlockHeight : num
}.

(** One pass of the loop body at [currentSize]: the new state and whether
    the loop is left by [break]. *)
Definition fitStep (measureText : Font -> string -> num) (textToRender : string)
    (availableRectWidth availableRectHeight : num) (currentSize : num)
    (st : FitState) : FitState * bool :=
  let ctx := setFont (ArialPx currentSize) (ctxOf st) in
  let measure := measureText (font ctx) in
  let lines := wrapTextCanvas measure textToRender availableRectWidth in
  let currentBlockHeight :=
    (Zn (Z.of_nat (List.length lines)) * (currentSize * LINE_HEIGHT_MULTIPLIER))%num in
  let linesFitWidth :=
    forallb (fun line => negb (measure line >? availableRectWidth)%num) lines in
  if (currentBlockHeight <=? availableRectHeight)%num && linesFitWidth then
    (mkFit ctx currentSize lines currentBlockHeight, true)
  else
    (mkFit ctx (renderFontSize st) (wrappedLines st) (textBlockHeight st), false).

(** [for (currentSize = ...; currentSize >= MIN_RENDER_FONT_SIZE;
    currentSize--)], run for at most [fuel] evaluations of the loop test.
    [None]: the loop is still running when the fuel is spent. *)
Fixpoint fitLoop (fuel : nat) (measureText : Font -> string -> num)
    (textToRender : string) (availableRectWidth availableRectHeight : num)
    (currentSize : num) (st : FitState) : option FitState :=
  match fuel with
  | O => None
  | S k =>
      if (currentSize >=? MIN_RENDER_FONT_SIZE)%num then
        let (st', broke) :=
          fitStep measureText textToRender availableRectWidth
                  availableRectHeight currentSize st in
        if broke then Some st'
        else fitLoop k measureText textToRender availableRectWidth
                     availableRectHeight (currentSize - Zn 1)%num st'
      else Some st
  end.

(** Evaluations of the loop test the loop can need from [start]: a finite
    size is decremented below 8 after [floor start - 6] tests at most; at
    [Infinity] every pass is the same, so one pass decides whether the loop
    ever ends. *)
Definition fitFuel (start : num) : nat :=
  match start with
  | Fin q => Z.to_nat (Z.max 1 (Qfloor q - 6))
  | _ => 1
  end.

(** The drawing of the wrapped lines. *)
Definition drawLines (r : AnalysisResult) (targetCanvasWidth targetCanvasHeight : num)
    (availableRectHeight : num) (st : FitState) : Canvas :=
  let rect := rect r in
  let ctx := ctxOf st in
  if (0 <? List.length (wrappedLines st))%nat then
    let rectCenterX := (rx rect + rwidth rect / Zn 2)%num in
    let rectCenterY := (ry rect + rheight rect / Zn 2)%num in
    let hAlign :=
      if (rectCenterX <? targetCanvasWidth * dec 35 100)%num then "left"%string
      else if (rectCenterX >? targetCanvasWidth * dec 65 100)%num then "right"%string
      else "center"%string in
    let vAlign :=
      if (rectCenterY <? targetCanvasHeight * dec 35 100)%num then "top"%string
      else if (rectCenterY >? targetCanvasHeight * dec 65 100)%num then "bottom"%string
      else "middle"%string in
    let ctx := setTextAlign hAlign ctx in
    let ctx := setTextBaseline "top" ctx in
    let textDrawX :=
      if String.eqb hAlign "left" then (rx rect + TEXT_PADDING)%num
      else if String.eqb hAlign "right" then (rx rect + rwidth rect - TEXT_PADDING)%num
      else (rx rect + rwidth rect / Zn 2)%num in
    let blockStartY :=
      if String.eqb vAlign "top" then (ry rect + TEXT_PADDING)%num
      else if String.eqb vAlign "bottom" then
        (ry rect + rheight rect - TEXT_PADDING - textBlockHeight st)%num
      else (ry rect + TEXT_PADDING
            + (availableRectHeight - textBlockHeight st) / Zn 2)%num in
    let lineHeight := (renderFontSize st * LINE_HEIGHT_MULTIPLIER)%num in
    fst (fold_left (fun (acc : Canvas * Z) line =>
           let (ctx, i) := acc in
           (fillText line textDrawX (blockStartY + Zn i * lineHeight)%num ctx,
            i + 1))
         (wrappedLines st) (ctx, 0))
  else ctx.

(** The first font size the loop tries, and the padded interior. *)
Definition startFontSize (r : AnalysisResult) : num :=
  let size :=
    Num.min (fontSize r)
      (Num.min (rheight (rect r) - Zn 2 * TEXT_PADDING)
               ((rwidth (rect r) - Zn 2 * TEXT_PADDING) / Zn 2))%num in
  Num.max size MIN_RENDER_FONT_SIZE.

Definition availableRectWidth (r : AnalysisResult) : num :=
  (rwidth (rect r) - Zn 2 * TEXT_PADDING)%num.

Definition availableRectHeight (r : AnalysisResult) : num :=
  (rheight (rect r) - Zn 2 * TEXT_PADDING)%num.

(** [renderTextWithDynamicSizing]; [measureText f s] is the width
    [ctx.measureText(s)] reports under the font [f].  [None]: the call does
    not return. *)
Definition renderTextWithDynamicSizing (measureText : Font -> string -> num)
    (ctx : Canvas) (textToRender : string) (currentAnalysisResult : AnalysisResult)
    (targetCanvasWidth targetCanvasHeight : num) : option Canvas :=
  let r := currentAnalysisResult in
  let ctx := drawScrim r ctx in
  let ctx := setFillStyle (Plain (textColor r)) ctx in
  let size := startFontSize r in
  let st0 := mkFit ctx size [] (Zn 0) in
  let fitted :=
    if (availableRectWidth r >? Zn 0)%num && (availableRectHeight r >? Zn 0)%num then
      fitLoop (fitFuel size) measureText textToRender (availableRectWidth r)
              (availableRectHeight r) size st0
    else Some st0 in
  match fitted with
  | Some st =>
      Some (drawLines r targetCanvasWidth targetCanvasHeight
                      (availableRectHeight r) st)
  | None => None
  end.

(* ------------------------------------------------------------------ *)
(** ** The page component: canvas size, inputs, hover *)

Definition MAX_CANVAS_WIDTH : num := Zn 800.
Definition MAX_CANVAS_HEIGHT : num := Zn 600.

(** [triggerAnalysis]: the size the image is drawn and analysed at, from
    the width and the height of the uploaded image.  The drawing effect of
    the normal mode computes the same two values. *)
Definition drawSize (width height : num) : num * num :=
  let drawWidth := width in
  let drawHeight := height in
  let '(drawWidth, drawHeight) :=
    if (drawWidth >? MAX_CANVAS_WIDTH)%num then
      let r := (MAX_CANVAS_WIDTH / drawWidth)%num in
      (MAX_CANVAS_WIDTH, (drawHeight * r)%num)
    else (drawWidth, drawHeight) in
  if (drawHeight >? MAX_CANVAS_HEIGHT)%num then
    let r := (MAX_CANVAS_HEIGHT / drawHeight)%num in
    ((drawWidth * r)%num, MAX_CANVAS_HEIGHT)
  else (drawWidth, drawHeight).

(** The value a canvas keeps when [canvas.width] or [canvas.height] is
    assigned: the attribute is an unsigned long, so the number is truncated
    to a whole number modulo 2^32, and [NaN] and the infinities become 0. *)
Definition canvasDimension (n : num) : num :=
  match n with
  | Fin q => Zn ((if Qltb q 0 then Qceiling q else Qfloor q) mod 2 ^ 32)
  | _ => Zn 0
  end.

(** The size of the canvas once [triggerAnalysis] has assigned the draw
    size to it: the size the image is drawn and read back at. *)
Definition canvasSize (width height : num) : num * num :=
  let '(drawWidth, drawHeight) := drawSize width height in
  (canvasDimension drawWidth, canvasDimension drawHeight).

(** [a || d] on numbers: [0] and [NaN] are falsy. *)
Definition orNum (a d : num) : num :=
  match a with
  | NaN => d
  | Fin q => if Qeq_bool q 0 then d else a
  | _ => a
  end.

(** The value an [onChange] handler of the four number inputs stores:
    [Math.max(least, parseInt(e.target.value) || least)]. *)
Definition numberInput (least : Z) (value : string) : num :=
  Num.max (Zn least) (orNum (parseInt value) (Zn least)).

(** [handleCanvasMouseMove] outside fullscreen and with hover data: the
    new [hoveredCell] for a pointer at [(x, y)] relative to a canvas of
    [canvasW] by [canvasH]. *)
Definition handleCanvasMouseMove (x y canvasW canvasH : num)
    (hover : AnalysisDataForHover) : option (num * num) :=
  let scaledX := (x * (Zn (canvasWidth hover) / canvasW))%num in
  let scaledY := (y * (Zn (canvasHeight hover) / canvasH))%num in
  let c := Num.floor (scaledX / cellWidthPx hover) in
  let r_coord := Num.floor (scaledY / cellHeightPx hover) in
  if (r_coord >=? Zn 0)%num && (r_coord <? Zn (rows (hGridConfig hover)))%num
     && (c >=? Zn 0)%num && (c <? Zn (cols (hGridConfig hover)))%num
  then Some (r_coord, c)
  else None.

(* ------------------------------------------------------------------ *)
(** * Vocabulary of the statements *)

(** What [addShape] checks before it stores a shape. *)
Definition shapeOk (targetArea maxRows maxCols : Z) (s : ShapeToFind) : Prop :=
  1 <= srows s <= maxRows /\ 1 <= scols s <= maxCols
  /\ (inject_Z targetArea * (8 # 10) <= inject_Z (srows s * scols s))%Q.

Definition dims (s : ShapeToFind) : Z * Z := (srows s, scols s).

Definition keyed (kv : string * ShapeToFind) : Prop :=
  fst kv = shapeKey (srows (snd kv)) (scols (snd kv)).

Definition mapOk (targetArea maxRows maxCols : Z) (m : ShapeMap) : Prop :=
  Forall keyed m /\ Forall (shapeOk targetArea maxRows maxCols) (values m)
  /\ NoDup (map fst m).

(** The top-left positions [findBestRectForGivenShape] scans for a shape,
    in scan order: rows outermost, columns innermost. *)
Definition positions (s : ShapeToFind) (g : GridConfig) (borderExclusion : Z)
  : list (Z * Z) :=
  if (srows s + 2 * borderExclusion >? rows g)
     || (scols s + 2 * borderExclusion >? cols g)
  then []
  else
    flat_map (fun r =>
                map (fun c => (r, c))
                    (through borderExclusion (cols g - scols s - borderExclusion)))
             (through borderExclusion (rows g - srows s - borderExclusion)).

(** Every (shape, position) pair the search scans, in the order it scans
    them: shapes in list order, then positions. *)
Definition testedPairs (shapes : list ShapeToFind) (g : GridConfig)
    (borderExclusion : Z) : list (ShapeToFind * (Z * Z)) :=
  flat_map (fun s => map (fun p => (s, p)) (positions s g borderExclusion)) shapes.

(** The average busyness the search computes for a pair; [Ret None] when
    the rectangle covers no cell and the position is skipped. *)
Definition candidateAvg (cellStats : list CellStat) (g : GridConfig)
    (sp : ShapeToFind * (Z * Z)) : outcome (option num) :=
  sums <- sumRect (fst sp) cellStats g (fst (snd sp)) (snd (snd sp)) ;;
  if pixelCount sums =? 0 then Ret None
  else Ret (Some (currentRectBusynessSum sums / Zn (pixelCount sums))%num).

(** A scanned pair with outcome [o] does not beat the value [m]: its average
    is not below [m], and with [strict] it is not equal to [m] either. *)
Definition loses (strict : bool) (m : num) (o : outcome (option num)) : Prop :=
  match o with
  | Ret (Some v) => (if strict then (v <=? m)%num else (v <? m)%num) = false
  | Ret None => True
  | Throw => False
  end.

(** [best] is the first pair of the scan that attains the least average. *)
Definition firstMinimum (cellStats : list CellStat) (g : GridConfig)
    (tested : list (ShapeToFind * (Z * Z))) (best : FoundRectInfo) : Prop :=
  exists before after,
    tested = before ++ (shape best, (rStart best, cStart best)) :: after
    /\ candidateAvg cellStats g (shape best, (rStart best, cStart best))
       = Ret (Some (avgBusyness best))
    /\ Forall (fun sp => loses true (avgBusyness best) (candidateAvg cellStats g sp))
              before
    /\ Forall (fun sp => loses false (avgBusyness best) (candidateAvg cellStats g sp))
              after.

(** The least average seen so far: [Infinity] before any rectangle is kept. *)
Definition curMin (kept : option FoundRectInfo) : num :=
  match kept with
  | None => PInf
  | Some best => avgBusyness best
  end.

(** Invariant of the scan after the pairs [done]: nothing kept means no
    pair was below [Infinity]; a kept rectangle is the first minimum. *)
Definition searchInv (cellStats : list CellStat) (g : GridConfig)
    (done : list (ShapeToFind * (Z * Z))) (kept : option FoundRectInfo) : Prop :=
  match kept with
  | None => Forall (fun sp => loses false PInf (candidateAvg cellStats g sp)) done
  | Some best =>
      (avgBusyness best <? PInf)%num = true /\ firstMinimum cellStats g done best
  end.

(** Invariant of the loops of [findBestRectForGivenShape] for the shape [s]. *)
Definition shapeInv (cellStats : list CellStat) (g : GridConfig)
    (s : ShapeToFind) (done : list (Z * Z)) (st : SearchState) : Prop :=
  searchInv cellStats g (map (fun p => (s, p)) done) (fst st)
  /\ snd st = curMin (fst st)
  /\ match fst st with Some best => shape best = s | None => True end.

(** The statistics cover the grid: one entry per cell. *)
Definition coversGrid (g : GridConfig) (cellStats : list CellStat) : Prop :=
  Z.of_nat (List.length cellStats) = Z.max 0 (rows g) * Z.max 0 (cols g).

(** A buffer of [n] RGBA pixels of one colour, and what [data[i]] reads
    from it. *)
Fixpoint pixels (n : nat) (r g b a : Z) : list Z :=
  match n with
  | O => []
  | S k => r :: g :: b :: a :: pixels k r g b a
  end.

Definition uniformImage (w h r g b a : Z) : ImageData :=
  mkImage (pixels (Z.to_nat (w * h)) r g b a) w h.

Definition uniformLook (n : Z) (r g b a : Z) (i : Z) : num :=
  if (0 <=? i) && (i <? 4 * n) then
    match i mod 4 with
    | 0 => Zn r
    | 1 => Zn g
    | 2 => Zn b
    | _ => Zn a
    end
  else NaN.

(** Words: the non-empty pieces between single spaces. *)
Fixpoint spaceFree (s : string) : bool :=
  match s with
  | EmptyString => true
  | String c rest => negb (Ascii.eqb c " "%char) && spaceFree rest
  end.

Definition wordsOf (s : string) : list string := filter nonEmpty (split s).

(** The word that ends the wrapping early, if any: the first word, or the
    first word after leading empty words, when it is wider than [maxWidth]. *)
Fixpoint overlongHead (measure : string -> num) (maxWidth : num)
    (words : list string) : option string :=
  match words with
  | [] => None
  | w :: rest =>
      if (measure w >? maxWidth)%num then Some w
      else if nonEmpty w then None
      else overlongHead measure maxWidth rest
  end.

(** Whitespace normalisation as the specification words it: runs of white
    space collapse to one space and the ends are trimmed. *)
Fixpoint splitBy (p : ascii -> bool) (s : string) : list string :=
  match s with
  | EmptyString => [EmptyString]
  | String c rest =>
      if p c then EmptyString :: splitBy p rest
      else match splitBy p rest with
           | w :: ws => String c w :: ws
           | [] => [String c EmptyString]
           end
  end.

Definition whitespaceNormalized (text : string) : string :=
  join (filter nonEmpty (splitBy is_space text)).

(** The drawing calls of each kind in a log. *)
Definition rectCalls (cs : list DrawCall) : list DrawCall :=
  filter (fun c => match c with FillRect _ _ _ _ _ => true | _ => false end) cs.

Definition textCalls (cs : list DrawCall) : list DrawCall :=
  filter (fun c => match c with FillText _ _ _ _ _ _ _ => true | _ => false end) cs.

(** The size the font-fit loop holds after [k] decrements. *)
Definition sizeAt (start : num) (k : nat) : num :=
  Nat.iter k (fun s => (s - Zn 1)%num) start.

(** The test that ends the font-fit loop at [currentSize]. *)
Definition blockFits (measureText : Font -> string -> num) (textToRender : string)
    (availableRectWidth availableRectHeight currentSize : num) : bool :=
  let measure := measureText (ArialPx currentSize) in
  let lines := wrapTextCanvas measure textToRender availableRectWidth in
  ((Zn (Z.of_nat (List.length lines)) * (currentSize * LINE_HEIGHT_MULTIPLIER))
   <=? availableRectHeight)%num
  && forallb (fun line => negb (measure line >? availableRectWidth)%num) lines.

(** The sizes the font-fit loop can test from [start], and whether none of
    those in range fits. *)
Definition triedSizes (start : num) : list num :=
  map (sizeAt start) (seq 0 (fitFuel start)).

Definition noSizeFits (measureText : Font -> string -> num) (textToRender : string)
    (availableRectWidth availableRectHeight start : num) : bool :=
  forallb (fun s =>
             negb (s >=? MIN_RENDER_FONT_SIZE)%num
             || negb (blockFits measureText textToRender availableRectWidth
                                availableRectHeight s))
          (triedSizes start).

(** The footprint of a found rectangle stays inside the grid minus its
    border. *)
Definition insideBorder (g : GridConfig) (borderExclusion : Z)
    (best : FoundRectInfo) : Prop :=
  borderExclusion <= rStart best
  /\ rStart best + srows (shape best) <= rows g - borderExclusion
  /\ borderExclusion <= cStart best
  /\ cStart best + scols (shape best) <= cols g - borderExclusion.

(** ** Sample inputs of the statements *)

(** A 2x2 grid of busyness 5, 1, 1, 7 over a 20x20 image, searched with
    the shapes of target area 1. *)
Definition demoGrid : GridConfig := mkGrid 2 2.

Definition demoStats : list CellStat :=
  map (fun v => mkCellStat (mkColor (Zn 0) (Zn 0) (Zn 0)) (Zn v)) [5; 1; 1; 7].

Definition demoShapes : list ShapeToFind := generateShapesToTest 1 2 2.

Definition demoBest : FoundRectInfo :=
  mkFound (Fin 10) (Fin 0) (Fin 10) (Fin 10)
          (mkColor (Fin 0) (Fin 0) (Fin 0)) 0 1 (Fin 1) (mkShape "square" 1 1).

(** A text measure: every character is half the font size wide. *)
Definition halfEm (f : Font) (s : string) : num :=
  match f with
  | ArialPx size => (size * dec 5 10 * Zn (Z.of_nat (String.length s)))%num
  | OtherFont _ => Zn 0
  end.

(** A text measure that ignores the font: one unit per character. *)
Definition charCount (s : string) : num := Zn (Z.of_nat (String.length s)).

Definition freshCanvas : Canvas :=
  mkCanvas (Plain "#000000") (OtherFont "10px sans-serif") "start" "alphabetic" [].

(** A result whose rectangle is 60 wide and 40 high at the origin. *)
Definition smallRectResult : AnalysisResult :=
  mkResult (mkRect (Zn 0) (Zn 0) (Zn 60) (Zn 40)) "white" (Zn 12)
           (mkColor (Zn 0) (Zn 0) (Zn 0)) "square" (mkGrid 3 4) (Zn 0) (Zn 21).

Definition sampleText : string := "Your Awesome Text Here".

(** A 4x3 image, one pixel per cell of a 3x4 grid: one light cyan pixel
    among dark grey ones. *)
Definition cyanImage : ImageData :=
  mkImage ([99; 255; 255; 255] ++ pixels 11 50 50 50 255) 4 3.

Definition cyanParams : ImageAnalysisCoreParams :=
  mkParams cyanImage (mkGrid 3 4) 12 true 0.

(** A grid without rows over a 2x2 image. *)
Definition noRowsParams : ImageAnalysisCoreParams :=
  mkParams (uniformImage 2 2 0 0 0 255) (mkGrid 0 10) 12 false 0.

(* ------------------------------------------------------------------ *)
(** * Vocabulary of the further properties *)

(** A number in lowest terms, as every arithmetic operation returns it. *)
Definition canonical (a : num) : Prop :=
  match a with
  | Fin q => Qred q = q
  | _ => True
  end.

(** A finite number within the bounds [lo] and [hi]. *)
Definition within (lo hi : Q) (a : num) : Prop :=
  match a with
  | Fin q => (lo <= q)%Q /\ (q <= hi)%Q
  | _ => False
  end.

(** A finite number that is not negative. *)
Definition nonneg (a : num) : Prop :=
  match a with
  | Fin q => (0 <= q)%Q
  | _ => False
  end.

Definition colourNonneg (c : Color) : Prop :=
  nonneg (cr c) /\ nonneg (cg c) /\ nonneg (cb c).

Definition colourInBytes (c : Color) : Prop :=
  within 0 255 (cr c) /\ within 0 255 (cg c) /\ within 0 255 (cb c).

(** The aspect a shape's name stands for. *)
Definition namedByAspect (s : ShapeToFind) : Prop :=
  (sname s = "square"%string
   /\ (inject_Z (Z.abs (srows s - scols s))
       <= Qmax 1 (inject_Z (Z.min (srows s) (scols s)) * (25 # 100)))%Q)
  \/ (sname s = "landscape"%string
      /\ (inject_Z (srows s) * (125 # 100) < inject_Z (scols s))%Q)
  \/ (sname s = "portrait"%string
      /\ (inject_Z (scols s) * (125 # 100) < inject_Z (srows s))%Q).

(** The pixel boundary [Math.floor(i * (size / n))] of grid line [i], for
    cells of width [size / n]. *)
Definition cellEdge (size n i : Z) : Z :=
  floorZ (Num.floor (Zn i * (Zn size / Zn n))).

(** The pixels [(y, x)] the two pixel loops of cell [(r, c)] visit, in the
    order they visit them. *)
Definition cellPixels (cellWidthPx cellHeightPx : num) (r c : Z) : list (Z * Z) :=
  let cellX := floorZ (Num.floor (Zn c * cellWidthPx)) in
  let cellY := floorZ (Num.floor (Zn r * cellHeightPx)) in
  let cCellWidth := floorZ (Num.floor (Zn (c + 1) * cellWidthPx)) - cellX in
  let cCellHeight := floorZ (Num.floor (Zn (r + 1) * cellHeightPx)) - cellY in
  flat_map (fun y => map (fun x => (y, x)) (upto cellX (cellX + cCellWidth)))
           (upto cellY (cellY + cCellHeight)).

(** The body of the pixel loops, for the pixel [p = (y, x)]. *)
Definition addPixel (look : Z -> num) (imgWidth : Z) (acc : CellAcc)
    (p : Z * Z) : CellAcc :=
  let i := (fst p * imgWidth + snd p) * 4 in
  mkAcc (sumR acc + look i)%num
        (sumG acc + look (i + 1)%Z)%num
        (sumB acc + look (i + 2)%Z)%num
        (luminances acc ++
           [getLuminance (look i) (look (i + 1)) (look (i + 2))])
        (pCount acc + 1).

(** What a cell's statistics are once its pixels are accumulated. *)
Definition finishCell (acc : CellAcc) : CellStat :=
  if pCount acc =? 0 then mkCellStat (mkColor (Zn 0) (Zn 0) (Zn 0)) PInf
  else
    let n := Zn (pCount acc) in
    let avgL := (reduce (fun a l => a + l) (luminances acc) (Zn 0) / n)%num in
    mkCellStat
      (mkColor (sumR acc / n) (sumG acc / n) (sumB acc / n))%num
      (reduce (fun a l => a + (l - avgL) * (l - avgL)) (luminances acc) (Zn 0)
       / n)%num.

(** An [ImageData] as the canvas provides it: four bytes per pixel. *)
Definition wellFormed (img : ImageData) : Prop :=
  0 <= imgWidth img /\ 0 <= imgHeight img
  /\ Z.of_nat (List.length (data img)) = 4 * (imgWidth img * imgHeight img)
  /\ Forall (fun v => 0 <= v <= 255) (data img).

(** The sentinel of a cell without pixels. *)
Definition emptyCellStat : CellStat :=
  mkCellStat (mkColor (Zn 0) (Zn 0) (Zn 0)) PInf.

(** A cell with pixels: colour channels within the byte range and a finite
    busyness that is not negative. *)
Definition properCellStat (st : CellStat) : Prop :=
  colourInBytes (avgColor st) /\ nonneg (busyness st).

(** The indices into the statistics of the cells a rectangle covers, in the
    order of the two offset loops. *)
Definition coveredCells (s : ShapeToFind) (g : GridConfig) (rStart cStart : Z)
  : list Z :=
  flat_map (fun rOffset =>
              map (fun cOffset => (rStart + rOffset) * cols g + (cStart + cOffset))
                  (upto 0 (scols s)))
           (upto 0 (srows s)).

(** The body of the offset loops once the cell is read. *)
Definition addStat (acc : RectSums) (st : CellStat) : RectSums :=
  mkSums (currentRectBusynessSum acc + busyness st)%num
         (pixelCount acc + 1)
         (rectSumR acc + cr (avgColor st))%num
         (rectSumG acc + cg (avgColor st))%num
         (rectSumB acc + cb (avgColor st))%num.

(** The record [findBestRectForGivenShape] builds for a position. *)
Definition foundAt (s : ShapeToFind) (cellWidthPx cellHeightPx : num)
    (rStart cStart : Z) (sums : RectSums) : FoundRectInfo :=
  let n := Zn (pixelCount sums) in
  mkFound (Num.floor (Zn cStart * cellWidthPx))
          (Num.floor (Zn rStart * cellHeightPx))
          (Num.floor (Zn (scols s) * cellWidthPx))
          (Num.floor (Zn (srows s) * cellHeightPx))
          (mkColor (rectSumR sums / n) (rectSumG sums / n) (rectSumB sums / n))%num
          rStart cStart (currentRectBusynessSum sums / n)%num s.

(** A kept rectangle is the record built at its own position from the
    statistics of the cells it covers. *)
Definition builtFromCells (cellStats : list CellStat) (g : GridConfig)
    (cw ch : num) (best : FoundRectInfo) : Prop :=
  exists sts,
    Forall2 (fun i st => statAt cellStats i = Ret st)
            (coveredCells (shape best) g (rStart best) (cStart best)) sts
    /\ sts <> []
    /\ best = foundAt (shape best) cw ch (rStart best) (cStart best)
                      (fold_left addStat sts sumsInit).

(** What the search keeps while it runs: nothing, or such a record. *)
Definition keptBuilt (cellStats : list CellStat) (g : GridConfig)
    (cw ch : num) (kept : option FoundRectInfo) : Prop :=
  match kept with
  | None => True
  | Some best => builtFromCells cellStats g cw ch best
  end.

(** Statistics as [computeCellStats] yields them for a proper image. *)
Definition properStats (cellStats : list CellStat) : Prop :=
  Forall (fun st => st = emptyCellStat \/ properCellStat st) cellStats.




(** The alignment, the anchor and the top of the text block as the drawing
    branch computes them. *)
Definition hAlignOf (r : AnalysisResult) (targetCanvasWidth : num) : string :=
  let rectCenterX := (rx (rect r) + rwidth (rect r) / Zn 2)%num in
  if (rectCenterX <? targetCanvasWidth * dec 35 100)%num then "left"%string
  else if (rectCenterX >? targetCanvasWidth * dec 65 100)%num then "right"%string
  else "center"%string.

Definition vAlignOf (r : AnalysisResult) (targetCanvasHeight : num) : string :=
  let rectCenterY := (ry (rect r) + rheight (rect r) / Zn 2)%num in
  if (rectCenterY <? targetCanvasHeight * dec 35 100)%num then "top"%string
  else if (rectCenterY >? targetCanvasHeight * dec 65 100)%num then "bottom"%string
  else "middle"%string.

Definition textDrawXOf (r : AnalysisResult) (targetCanvasWidth : num) : num :=
  if String.eqb (hAlignOf r targetCanvasWidth) "left"
  then (rx (rect r) + TEXT_PADDING)%num
  else if String.eqb (hAlignOf r targetCanvasWidth) "right"
  then (rx (rect r) + rwidth (rect r) - TEXT_PADDING)%num
  else (rx (rect r) + rwidth (rect r) / Zn 2)%num.

Definition blockStartYOf (r : AnalysisResult) (targetCanvasHeight : num)
    (textBlockHeight : num) : num :=
  if String.eqb (vAlignOf r targetCanvasHeight) "top"
  then (ry (rect r) + TEXT_PADDING)%num
  else if String.eqb (vAlignOf r targetCanvasHeight) "bottom"
  then (ry (rect r) + rheight (rect r) - TEXT_PADDING - textBlockHeight)%num
  else (ry (rect r) + TEXT_PADDING
        + (availableRectHeight r - textBlockHeight) / Zn 2)%num.

(** A result whose rectangle is 130 wide and 70 high, with room for the
    sample text at font size 18. *)
Definition roomyResult : AnalysisResult :=
  mkResult (mkRect (Zn 10) (Zn 20) (Zn 130) (Zn 70)) "white" (Zn 20)
           (mkColor (Zn 0) (Zn 0) (Zn 0)) "square" (mkGrid 3 4) (Zn 0) (Zn 21).



(** ** Vocabulary of the search over any arithmetic *)

(** [cellStats[i]], when the index holds a statistic. *)
Definition cellAt (cellStats : list CellStat) (i : Z) : option CellStat :=
  if i <? 0 then None else nth_error cellStats (Z.to_nat i).

Fixpoint allCells (cells : list (option CellStat)) : option (list CellStat) :=
  match cells with
  | [] => Some []
  | Some cell :: rest =>
      match allCells rest with
      | Some l => Some (cell :: l)
      | None => None
      end
  | None :: _ => None
  end.

(** The statistics of the cells the rectangle of a (shape, position) pair
    covers, row by row; [None] when one of them is missing. *)
Definition coveredStats (cellStats : list CellStat) (g : GridConfig)
    (sp : ShapeToFind * (Z * Z)) : option (list CellStat) :=
  allCells (map (cellAt cellStats)
                (coveredCells (fst sp) g (fst (snd sp)) (snd (snd sp)))).

(** The average busyness of a list of cells under an addition and a
    division: the busyness values added up from 0 in the order of the list,
    divided by the number of cells. *)
Definition meanBusyness (add div : num -> num -> num) (cells : list CellStat)
  : num :=
  div (fold_left (fun sum cell => add sum (busyness cell)) cells (Zn 0))
      (Zn (Z.of_nat (List.length cells))).

(** The pair [sp] does not beat the average [m]: it covers no cell, or the
    average busyness of its cells is not below [m] - with [strict], not equal
    to [m] either. *)
Definition notBetter (strict : bool) (add div : num -> num -> num)
    (cellStats : list CellStat) (g : GridConfig) (m : num)
    (sp : ShapeToFind * (Z * Z)) : Prop :=
  exists cells,
    coveredStats cellStats g sp = Some cells
    /\ (cells = []
        \/ (if strict then (meanBusyness add div cells <=? m)%num
            else (meanBusyness add div cells <? m)%num) = false).

(** The invariants of the scan, over any way [avgOf] to average a pair. *)
Definition firstMinimumOf (avgOf : ShapeToFind * (Z * Z) -> outcome (option num))
    (tested : list (ShapeToFind * (Z * Z))) (best : FoundRectInfo) : Prop :=
  exists before after,
    tested = before ++ (shape best, (rStart best, cStart best)) :: after
    /\ avgOf (shape best, (rStart best, cStart best))
       = Ret (Some (avgBusyness best))
    /\ Forall (fun sp => loses true (avgBusyness best) (avgOf sp)) before
    /\ Forall (fun sp => loses false (avgBusyness best) (avgOf sp)) after.

Definition searchInvOf (avgOf : ShapeToFind * (Z * Z) -> outcome (option num))
    (done : list (ShapeToFind * (Z * Z))) (kept : option FoundRectInfo) : Prop :=
  match kept with
  | None => Forall (fun sp => loses false PInf (avgOf sp)) done
  | Some best =>
      (avgBusyness best <? PInf)%num = true /\ firstMinimumOf avgOf done best
  end.

Definition shapeInvOf (avgOf : ShapeToFind * (Z * Z) -> outcome (option num))
    (s : ShapeToFind) (done : list (Z * Z)) (st : SearchState) : Prop :=
  searchInvOf avgOf (map (fun p => (s, p)) done) (fst st)
  /\ snd st = curMin (fst st)
  /\ match fst st with Some best => shape best = s | None => True end.

(** The average the search computes for a pair under [add] and [div]. *)
Definition candidateAvgWith (add div : num -> num -> num)
    (cellStats : list CellStat) (g : GridConfig)
    (sp : ShapeToFind * (Z * Z)) : outcome (option num) :=
  sums <- sumRectWith add (fst sp) cellStats g (fst (snd sp)) (snd (snd sp)) ;;
  if pixelCount sums =? 0 then Ret None
  else Ret (Some (div (currentRectBusynessSum sums) (Zn (pixelCount sums)))).

(* ------------------------------------------------------------------ *)
(** * Properties *)

(** ** Order on numbers *)

Section NumOrder.

Lemma Qltb_lt (x y : Q) : Qltb x y = true <-> (x < y)%Q.
Proof.
  unfold Qltb. rewrite Qlt_alt.
  destruct (x ?= y)%Q; split; congruence.
Qed.

Lemma Qleb_le (x y : Q) : Qleb x y = true <-> (x <= y)%Q.
Proof.
  unfold Qleb. rewrite Qle_alt.
  destruct (x ?= y)%Q; split; congruence.
Qed.

Lemma Qltb_ge (x y : Q) : Qltb x y = false <-> (y <= x)%Q.
Proof.
  split; intro H.
  - apply Qnot_lt_le. intro L. apply Qltb_lt in L. congruence.
  - destruct (Qltb x y) eqn:E; [|reflexivity].
    apply Qltb_lt in E. exfalso. apply (Qlt_not_le _ _ E H).
Qed.

Lemma Qleb_gt (x y : Q) : Qleb x y = false <-> (y < x)%Q.
Proof.
  split; intro H.
  - apply Qnot_le_lt. intro L. apply Qleb_le in L. congruence.
  - destruct (Qleb x y) eqn:E; [|reflexivity].
    apply Qleb_le in E. exfalso. apply (Qlt_not_le _ _ H E).
Qed.

Lemma ltb_asym (a b : num) : (a <? b)%num = true -> (b <=? a)%num = false.
Proof.
  destruct a, b; simpl; try congruence.
  intro H. apply Qltb_lt in H. apply Qleb_gt. exact H.
Qed.

Lemma leb_ltb_trans (a v m : num) :
  (a <=? v)%num = true -> (v <? m)%num = true -> (a <? m)%num = true.
Proof.
  destruct a, v, m; simpl; try congruence.
  intros H1 H2. apply Qleb_le in H1. apply Qltb_lt in H2.
  apply Qltb_lt. eapply Qle_lt_trans; eassumption.
Qed.

Lemma ltb_leb (a b : num) : (a <? b)%num = true -> (a <=? b)%num = true.
Proof.
  destruct a, b; simpl; try congruence.
  intro H. apply Qltb_lt in H. apply Qleb_le. apply Qlt_le_weak. exact H.
Qed.

Lemma ltb_below_inf (a b : num) : (a <? b)%num = true -> (a <? PInf)%num = true.
Proof. destruct a, b; simpl; congruence. Qed.

Lemma not_below_inf (a m : num) :
  (a <? PInf)%num = false -> (m <? PInf)%num = true -> (a <=? m)%num = false.
Proof. destruct a, m; simpl; congruence. Qed.

Lemma leb_false_ltb_false (a m : num) :
  (a <=? m)%num = false -> (a <? m)%num = false.
Proof.
  intro H. destruct (a <? m)%num eqn:E; [|reflexivity].
  apply ltb_leb in E. congruence.
Qed.

End NumOrder.

(** ** Rounded square roots *)

(** [round_sqrt q] is the integer nearest to the square root of [q]: with
    [k] the result, [k - 1/2 <= sqrt q < k + 1/2], stated on the squares. *)
Lemma round_sqrt_spec (q : Q) :
  (0 <= q)%Q ->
  let k := round_sqrt q in
  0 <= k
  /\ (k = 0 \/ (inject_Z ((2 * k - 1) * (2 * k - 1)) <= 4 * q)%Q)
  /\ (4 * q < inject_Z ((2 * k + 1) * (2 * k + 1)))%Q.
Proof.
  intro Hq. cbv zeta. unfold round_sqrt.
  set (f := Qfloor (4 * q)). set (t := Z.sqrt f).
  assert (F0 : 0 <= f).
  { unfold f. change 0 with (Qfloor (inject_Z 0)). rewrite Qfloor_Z.
    rewrite <- (Qfloor_Z 0). apply Qfloor_resp_le. change (inject_Z 0) with 0%Q.
    lra. }
  pose proof (Z.sqrt_spec f F0) as S. cbv zeta in S. fold t in S.
  pose proof (Z.sqrt_nonneg f) as T0. fold t in T0.
  pose proof (Qfloor_le (4 * q)) as FL. fold f in FL.
  pose proof (Qlt_floor (4 * q)) as FU. fold f in FU.
  pose proof (Z.div_mod (t + 1) 2 ltac:(lia)) as D.
  pose proof (Z.mod_pos_bound (t + 1) 2 ltac:(lia)) as M.
  set (k := (t + 1) / 2) in *.
  assert (K0 : 0 <= k) by lia.
  split; [exact K0|]. split.
  - destruct (Z.eq_dec k 0) as [E|N]; [now left|right].
    assert (L : (2 * k - 1) * (2 * k - 1) <= f) by nia.
    apply Qle_trans with (inject_Z f); [|exact FL].
    rewrite <- Zle_Qle. exact L.
  - assert (U : f + 1 <= (2 * k + 1) * (2 * k + 1)) by nia.
    apply Qlt_le_trans with (inject_Z (f + 1)); [exact FU|].
    rewrite <- Zle_Qle. exact U.
Qed.

(** ** Lists and loops *)

Lemma NoDup_snoc {A : Type} (l : list A) (a : A) :
  NoDup l -> ~ In a l -> NoDup (l ++ [a]).
Proof.
  induction l as [|b l IH]; intros ND NI; simpl.
  - constructor; [intros []|constructor].
  - inversion ND as [|? ? NB ND']; subst.
    constructor.
    + rewrite in_app_iff. intros [H|[H|[]]]; [tauto|].
      subst. apply NI. now left.
    + apply IH; [assumption|]. intro H. apply NI. now right.
Qed.

Lemma Zseq_In (n : nat) (lo i : Z) :
  In i (Zseq lo n) <-> lo <= i < lo + Z.of_nat n.
Proof.
  revert lo. induction n as [|n IH]; intro lo; simpl Zseq.
  - simpl. lia.
  - simpl In. rewrite IH. lia.
Qed.

Lemma upto_In (lo hi i : Z) : In i (upto lo hi) <-> lo <= i < hi.
Proof. unfold upto. rewrite Zseq_In. lia. Qed.

Lemma through_In (lo hi i : Z) : In i (through lo hi) <-> lo <= i <= hi.
Proof. unfold through. rewrite Zseq_In. lia. Qed.

Lemma Zseq_length (n : nat) (lo : Z) : List.length (Zseq lo n) = n.
Proof. revert lo. induction n; intro lo; simpl; [|rewrite IHn]; reflexivity. Qed.

(** ** The shape generator *)

Section Shapes.

Variables targetArea maxRows maxCols : Z.

Lemma has_false_not_in (m : ShapeMap) (key : string) :
  has m key = false -> ~ In key (map fst m).
Proof.
  unfold has. induction m as [|[k s] m IH]; simpl; [tauto|].
  intros H [E|I].
  - subst. rewrite String.eqb_refl in H. discriminate.
  - apply orb_false_iff in H. tauto.
Qed.

Lemma addShape_ok (m : ShapeMap) (prefix : string) (r c : Z) :
  (mapOk targetArea maxRows maxCols) m -> (mapOk targetArea maxRows maxCols) (addShape targetArea maxRows maxCols m prefix r c).
Proof.
  intros (K & O & ND). unfold addShape.
  destruct (r <=? 0) eqn:R0; simpl; [repeat split; assumption|].
  destruct (c <=? 0) eqn:C0; simpl; [repeat split; assumption|].
  destruct (r >? maxRows) eqn:RM; simpl; [repeat split; assumption|].
  destruct (c >? maxCols) eqn:CM; simpl; [repeat split; assumption|].
  destruct (Qltb _ _) eqn:AR; [repeat split; assumption|].
  destruct (has m (shapeKey r c)) eqn:HK; simpl; [repeat split; assumption|].
  apply has_false_not_in in HK. apply Qltb_ge in AR.
  repeat split.
  - apply Forall_app. split; [assumption|]. constructor; [reflexivity|constructor].
  - unfold values. rewrite map_app. apply Forall_app. split; [assumption|].
    constructor; [|constructor]. unfold shapeOk; simpl. repeat split; try lia.
    exact AR.
  - rewrite map_app. simpl. apply NoDup_snoc; assumption.
Qed.

Lemma mapOk_nil : (mapOk targetArea maxRows maxCols) [].
Proof. repeat split; constructor. Qed.

Lemma mapOk_values (m : ShapeMap) :
  (mapOk targetArea maxRows maxCols) m -> Forall (shapeOk targetArea maxRows maxCols) (values m) /\ NoDup (map dims (values m)).
Proof.
  intros (K & O & ND). split; [assumption|].
  assert (E : map fst m = map (fun d => shapeKey (fst d) (snd d))
                              (map dims (values m))).
  { unfold values. rewrite !map_map. apply map_ext_in.
    intros kv I. rewrite Forall_forall in K. apply (K kv I). }
  rewrite E in ND. eapply NoDup_map_inv. exact ND.
Qed.

Lemma generateShapesToTest_ok :
  Forall (shapeOk targetArea maxRows maxCols) (generateShapesToTest targetArea maxRows maxCols)
  /\ NoDup (map dims (generateShapesToTest targetArea maxRows maxCols)).
Proof.
  unfold generateShapesToTest. apply mapOk_values.
  repeat first
    [ apply addShape_ok
    | match goal with |- (mapOk targetArea maxRows maxCols) (if ?b then _ else _) => destruct b end
    | apply mapOk_nil ].
Qed.

End Shapes.

(** ** The rectangle search *)

Lemma forM_app {A S : Type} (xs ys : list A) (s : S) (body : A -> S -> outcome S) :
  forM (xs ++ ys) s body = (s' <- forM xs s body ;; forM ys s' body).
Proof.
  revert s. induction xs as [|x xs IH]; intro s; simpl; [reflexivity|].
  destruct (body x s); simpl; [apply IH|reflexivity].
Qed.

Lemma forM_map {A B S : Type} (f : A -> B) (xs : list A) (s : S)
    (body : B -> S -> outcome S) :
  forM (map f xs) s body = forM xs s (fun a => body (f a)).
Proof.
  revert s. induction xs as [|x xs IH]; intro s; simpl; [reflexivity|].
  destruct (body (f x) s); simpl; [apply IH|reflexivity].
Qed.

(** Two nested counting loops scan the flattened list of pairs. *)
Lemma forM_nested {A B S : Type} (xs : list A) (ys : A -> list B)
    (body : A -> B -> S -> outcome S) (s : S) :
  forM xs s (fun a s => forM (ys a) s (body a))
  = forM (flat_map (fun a => map (fun b => (a, b)) (ys a)) xs) s
         (fun p s => body (fst p) (snd p) s).
Proof.
  revert s. induction xs as [|a xs IH]; intro s; simpl; [reflexivity|].
  rewrite forM_app, forM_map. simpl.
  destruct (forM (ys a) s (body a)); simpl; [apply IH|reflexivity].
Qed.

Section Losing.

Lemma loses_weaken (m : num) (o : outcome (option num)) :
  loses true m o -> loses false m o.
Proof.
  destruct o as [[v|]|]; simpl; auto. apply leb_false_ltb_false.
Qed.

Lemma loses_lower (strict : bool) (m m' : num) (o : outcome (option num)) :
  loses strict m o -> (m' <? m)%num = true -> loses true m' o.
Proof.
  intros L H. assert (W : loses false m o).
  { destruct strict; [apply loses_weaken|]; exact L. }
  destruct o as [[v|]|]; simpl in *; auto.
  destruct (v <=? m')%num eqn:E; [|reflexivity].
  rewrite (leb_ltb_trans _ _ _ E H) in W. discriminate.
Qed.

Lemma loses_below_inf (m : num) (o : outcome (option num)) :
  loses false PInf o -> (m <? PInf)%num = true -> loses true m o.
Proof.
  destruct o as [[v|]|]; simpl; auto. intros. now apply not_below_inf.
Qed.

Lemma ge_chain (v a m : num) :
  (v <? a)%num = false -> (a <? m)%num = false ->
  (a <? PInf)%num = true -> (m <? PInf)%num = true -> (v <? m)%num = false.
Proof.
  destruct v, a, m; simpl; try congruence.
  intros H1 H2 _ _. apply Qltb_ge in H1. apply Qltb_ge in H2.
  apply Qltb_ge. eapply Qle_trans; eassumption.
Qed.

Lemma loses_higher (strict : bool) (a m : num) (o : outcome (option num)) :
  loses strict a o -> (a <? m)%num = false ->
  (a <? PInf)%num = true -> (m <? PInf)%num = true -> loses false m o.
Proof.
  intros L H Ia Im. assert (W : loses false a o).
  { destruct strict; [apply loses_weaken|]; exact L. }
  destruct o as [[v|]|]; simpl in *; auto.
  eapply ge_chain; eassumption.
Qed.

End Losing.

Section Search.

Variables (cellStats : list CellStat) (g : GridConfig).

(** Scanning a further block of pairs, itself summarised by [res], keeps
    the invariant when the better of the two rectangles is kept. *)
Lemma searchInv_merge (done block : list (ShapeToFind * (Z * Z)))
    (kept res : option FoundRectInfo) :
  searchInv cellStats g done kept -> searchInv cellStats g block res -> searchInv cellStats g (done ++ block) (keepBetter kept res).
Proof.
  destruct kept as [b|], res as [r|]; simpl.
  - intros (Ib & before & after & E & V & SB & WA)
           (Ir & b1 & a1 & E1 & V1 & SB1 & WA1).
    destruct (avgBusyness r <? avgBusyness b)%num eqn:C.
    + split; [exact Ir|].
      exists (done ++ b1), a1. subst block. rewrite <- app_assoc.
      repeat split; try assumption.
      apply Forall_app. split; [|assumption].
      subst done. apply Forall_app. split.
      * eapply Forall_impl; [|exact SB]. intros sp L.
        exact (loses_lower _ _ _ _ L C).
      * constructor.
        -- rewrite V. simpl. apply ltb_asym. exact C.
        -- eapply Forall_impl; [|exact WA]. intros sp L.
           exact (loses_lower _ _ _ _ L C).
    + split; [exact Ib|].
      exists before, (after ++ block). subst done. rewrite <- app_assoc.
      repeat split; try assumption.
      apply Forall_app. split; [assumption|]. subst block.
      apply Forall_app. split.
      * eapply Forall_impl; [|exact SB1]. intros sp L.
        exact (loses_higher _ _ _ _ L C Ir Ib).
      * constructor.
        -- rewrite V1. simpl. exact C.
        -- eapply Forall_impl; [|exact WA1]. intros sp L.
           exact (loses_higher _ _ _ _ L C Ir Ib).
  - intros (Ib & before & after & E & V & SB & WA) N.
    split; [exact Ib|].
    exists before, (after ++ block). subst done. rewrite <- app_assoc.
    repeat split; try assumption.
    apply Forall_app. split; [assumption|].
    eapply Forall_impl; [|exact N]. intros sp L.
    apply loses_weaken. apply loses_below_inf; assumption.
  - intros N (Ir & b1 & a1 & E1 & V1 & SB1 & WA1).
    split; [exact Ir|].
    exists (done ++ b1), a1. subst block. rewrite <- app_assoc.
    repeat split; try assumption.
    apply Forall_app. split; [|assumption].
    eapply Forall_impl; [|exact N]. intros sp L.
    apply loses_below_inf; assumption.
  - intros N1 N2. apply Forall_app. split; assumption.
Qed.

Variables (cw ch : num).

(** One position: the state after [tryPosition] is the state before, merged
    with what this single pair contributes. *)
Lemma tryPosition_inv (s : ShapeToFind) (done : list (Z * Z))
    (r c : Z) (st st' : SearchState) :
  shapeInv cellStats g s done st ->
  tryPosition s cellStats g cw ch r c st = Ret st' ->
  shapeInv cellStats g s (done ++ [(r, c)]) st'.
Proof.
  intros (I & M & Sh) T. unfold tryPosition in T.
  destruct (sumRect s cellStats g r c) as [sums|] eqn:SR; simpl in T; [|discriminate].
  assert (AV : candidateAvg cellStats g (s, (r, c))
               = if pixelCount sums =? 0 then Ret None
                 else Ret (Some (currentRectBusynessSum sums
                                 / Zn (pixelCount sums))%num)).
  { unfold candidateAvg. simpl. rewrite SR. reflexivity. }
  unfold shapeInv. rewrite map_app. simpl map.
  assert (Skip : loses false (curMin (fst st)) (candidateAvg cellStats g (s, (r, c)))
                 -> searchInv cellStats g
                      (map (fun p => (s, p)) done ++ [(s, (r, c))]) (fst st)).
  { intro L. destruct (fst st) as [b|] eqn:K.
    - destruct I as (Ib & before & after & E & V & SB & WA). split; [exact Ib|].
      exists before, (after ++ [(s, (r, c))]). rewrite E, <- app_assoc.
      repeat split; try assumption.
      apply Forall_app. split; [assumption|]. constructor; [exact L|constructor].
    - simpl. apply Forall_app. split; [exact I|].
      constructor; [exact L|constructor]. }
  destruct (pixelCount sums =? 0) eqn:PC.
  - injection T as <-. split; [|split; assumption].
    apply Skip. rewrite AV. exact Logic.I.
  - set (v := (currentRectBusynessSum sums / Zn (pixelCount sums))%num) in *.
    destruct (v <? snd st)%num eqn:C; injection T as <-; cbn [fst snd].
    + split; [|split; reflexivity].
      assert (Iv : (v <? PInf)%num = true) by (eapply ltb_below_inf; exact C).
      match goal with |- searchInv _ _ _ (Some ?n) => set (new := n) end.
      assert (K : keepBetter (fst st) (Some new) = Some new).
      { rewrite M in C. destruct (fst st) as [b|]; simpl; [|reflexivity].
        simpl in C. rewrite C. reflexivity. }
      rewrite <- K. apply searchInv_merge; [assumption|].
      split; [exact Iv|].
      exists [], []. simpl. repeat split; try constructor. exact AV.
    + split; [|split; assumption].
      apply Skip. rewrite AV. simpl. rewrite <- M. exact C.
Qed.

Lemma positions_loop_inv (s : ShapeToFind) (ps done : list (Z * Z))
    (st st' : SearchState) :
  shapeInv cellStats g s done st ->
  forM ps st (fun p st => tryPosition s cellStats g cw ch (fst p) (snd p) st)
  = Ret st' ->
  shapeInv cellStats g s (done ++ ps) st'.
Proof.
  revert done st. induction ps as [|[r c] ps IH]; intros done st I F; simpl in F.
  - injection F as <-. rewrite app_nil_r. exact I.
  - destruct (tryPosition s cellStats g cw ch r c st) as [st1|] eqn:T;
      simpl in F; [|discriminate].
    replace (done ++ (r, c) :: ps) with ((done ++ [(r, c)]) ++ ps)
      by (rewrite <- app_assoc; reflexivity).
    eapply IH; [|exact F]. eapply tryPosition_inv; eassumption.
Qed.

Lemma findBestRectForGivenShape_inv (s : ShapeToFind) (b : Z)
    (res : option FoundRectInfo) :
  findBestRectForGivenShape s cellStats g cw ch b = Ret res ->
  searchInv cellStats g (map (fun p => (s, p)) (positions s g b)) res
  /\ match res with Some best => shape best = s | None => True end.
Proof.
  unfold findBestRectForGivenShape, positions.
  destruct (_ || _).
  - intro E. injection E as <-. simpl. split; constructor.
  - rewrite forM_nested. intro F.
    destruct (forM _ _ _) as [st'|] eqn:L; simpl in F; [|discriminate].
    injection F as <-.
    apply (positions_loop_inv s _ [] (None, PInf)) in L.
    + destruct L as (I & _ & Sh). split; assumption.
    + repeat split. simpl. constructor.
Qed.

Lemma shapes_loop_inv (b : Z) (shapes : list ShapeToFind)
    (done : list (ShapeToFind * (Z * Z))) (kept kept' : option FoundRectInfo) :
  searchInv cellStats g done kept ->
  forM shapes kept (fun shape overallBestRect =>
    rectInfoForShape <- findBestRectForGivenShape shape cellStats g cw ch b ;;
    Ret (keepBetter overallBestRect rectInfoForShape)) = Ret kept' ->
  searchInv cellStats g (done ++ testedPairs shapes g b) kept'.
Proof.
  revert done kept. induction shapes as [|s shapes IH]; intros done kept I F;
    simpl in F.
  - injection F as <-. unfold testedPairs. simpl. rewrite app_nil_r. exact I.
  - destruct (findBestRectForGivenShape s cellStats g cw ch b) as [res|] eqn:FB;
      simpl in F; [|discriminate].
    unfold testedPairs. simpl. rewrite app_assoc.
    eapply IH; [|exact F].
    apply searchInv_merge; [assumption|].
    apply (findBestRectForGivenShape_inv s b res FB).
Qed.

(** The search keeps the first pair of least average busyness. *)
Lemma searchShapes_firstMinimum (b : Z) (shapes : list ShapeToFind)
    (best : FoundRectInfo) :
  searchShapes shapes cellStats g cw ch b = Ret (Some best) ->
  firstMinimum cellStats g (testedPairs shapes g b) best.
Proof.
  intro F. apply (shapes_loop_inv b shapes [] None) in F.
  - simpl in F. tauto.
  - simpl. constructor.
Qed.

End Search.

(** ** The search over any arithmetic *)

Section OverAverage.

Variable avgOf : ShapeToFind * (Z * Z) -> outcome (option num).

(** Scanning a further block of pairs, itself summarised by [res], keeps
    the invariant when the better of the two rectangles is kept. *)
Lemma searchInvOf_merge (done block : list (ShapeToFind * (Z * Z)))
    (kept res : option FoundRectInfo) :
  searchInvOf avgOf done kept ->
  searchInvOf avgOf block res ->
  searchInvOf avgOf (done ++ block) (keepBetter kept res).
Proof.
  destruct kept as [b|], res as [r|]; simpl.
  - intros (Ib & before & after & E & V & SB & WA)
           (Ir & b1 & a1 & E1 & V1 & SB1 & WA1).
    destruct (avgBusyness r <? avgBusyness b)%num eqn:C.
    + split; [exact Ir|].
      exists (done ++ b1), a1. subst block. rewrite <- app_assoc.
      repeat split; try assumption.
      apply Forall_app. split; [|assumption].
      subst done. apply Forall_app. split.
      * eapply Forall_impl; [|exact SB]. intros sp L.
        exact (loses_lower _ _ _ _ L C).
      * constructor.
        -- rewrite V. simpl. apply ltb_asym. exact C.
        -- eapply Forall_impl; [|exact WA]. intros sp L.
           exact (loses_lower _ _ _ _ L C).
    + split; [exact Ib|].
      exists before, (after ++ block). subst done. rewrite <- app_assoc.
      repeat split; try assumption.
      apply Forall_app. split; [assumption|]. subst block.
      apply Forall_app. split.
      * eapply Forall_impl; [|exact SB1]. intros sp L.
        exact (loses_higher _ _ _ _ L C Ir Ib).
      * constructor.
        -- rewrite V1. simpl. exact C.
        -- eapply Forall_impl; [|exact WA1]. intros sp L.
           exact (loses_higher _ _ _ _ L C Ir Ib).
  - intros (Ib & before & after & E & V & SB & WA) N.
    split; [exact Ib|].
    exists before, (after ++ block). subst done. rewrite <- app_assoc.
    repeat split; try assumption.
    apply Forall_app. split; [assumption|].
    eapply Forall_impl; [|exact N]. intros sp L.
    apply loses_weaken. apply loses_below_inf; assumption.
  - intros N (Ir & b1 & a1 & E1 & V1 & SB1 & WA1).
    split; [exact Ir|].
    exists (done ++ b1), a1. subst block. rewrite <- app_assoc.
    repeat split; try assumption.
    apply Forall_app. split; [|assumption].
    eapply Forall_impl; [|exact N]. intros sp L.
    apply loses_below_inf; assumption.
  - intros N1 N2. apply Forall_app. split; assumption.
Qed.

End OverAverage.

Section WithArithmetic.

Variables (add mul div : num -> num -> num) (floor : num -> num).
Variables (cellStats : list CellStat) (g : GridConfig) (cw ch : num).


(** One position: the state after [tryPosition] is the state before, merged
    with what this single pair contributes. *)
Lemma tryPositionWith_inv (s : ShapeToFind) (done : list (Z * Z))
    (r c : Z) (st st' : SearchState) :
  shapeInvOf (candidateAvgWith add div cellStats g) s done st ->
  tryPositionWith add mul div floor s cellStats g cw ch r c st = Ret st' ->
  shapeInvOf (candidateAvgWith add div cellStats g) s (done ++ [(r, c)]) st'.
Proof.
  intros (I & M & Sh) T. unfold tryPositionWith in T.
  destruct (sumRectWith add s cellStats g r c) as [sums|] eqn:SR; simpl in T; [|discriminate].
  assert (AV : candidateAvgWith add div cellStats g (s, (r, c))
               = if pixelCount sums =? 0 then Ret None
                 else Ret (Some (div (currentRectBusynessSum sums)
                                     (Zn (pixelCount sums))))).
  { unfold candidateAvgWith. simpl. rewrite SR. reflexivity. }
  unfold shapeInvOf. rewrite map_app. simpl map.
  assert (Skip : loses false (curMin (fst st)) (candidateAvgWith add div cellStats g (s, (r, c)))
                 -> searchInvOf (candidateAvgWith add div cellStats g)
                      (map (fun p => (s, p)) done ++ [(s, (r, c))]) (fst st)).
  { intro L. destruct (fst st) as [b|] eqn:K.
    - destruct I as (Ib & before & after & E & V & SB & WA). split; [exact Ib|].
      exists before, (after ++ [(s, (r, c))]). rewrite E, <- app_assoc.
      repeat split; try assumption.
      apply Forall_app. split; [assumption|]. constructor; [exact L|constructor].
    - simpl. apply Forall_app. split; [exact I|].
      constructor; [exact L|constructor]. }
  destruct (pixelCount sums =? 0) eqn:PC.
  - injection T as <-. split; [|split; assumption].
    apply Skip. rewrite AV. exact Logic.I.
  - set (v := (div (currentRectBusynessSum sums) (Zn (pixelCount sums)))) in *.
    destruct (v <? snd st)%num eqn:C; injection T as <-; cbn [fst snd].
    + split; [|split; reflexivity].
      assert (Iv : (v <? PInf)%num = true) by (eapply ltb_below_inf; exact C).
      match goal with |- searchInvOf _ _ (Some ?n) => set (new := n) end.
      assert (K : keepBetter (fst st) (Some new) = Some new).
      { rewrite M in C. destruct (fst st) as [b|]; simpl; [|reflexivity].
        simpl in C. rewrite C. reflexivity. }
      rewrite <- K. apply searchInvOf_merge; [assumption|].
      split; [exact Iv|].
      exists [], []. simpl. repeat split; try constructor. exact AV.
    + split; [|split; assumption].
      apply Skip. rewrite AV. simpl. rewrite <- M. exact C.
Qed.

Lemma positions_loopWith_inv (s : ShapeToFind) (ps done : list (Z * Z))
    (st st' : SearchState) :
  shapeInvOf (candidateAvgWith add div cellStats g) s done st ->
  forM ps st (fun p st => tryPositionWith add mul div floor s cellStats g cw ch (fst p) (snd p) st)
  = Ret st' ->
  shapeInvOf (candidateAvgWith add div cellStats g) s (done ++ ps) st'.
Proof.
  revert done st. induction ps as [|[r c] ps IH]; intros done st I F; simpl in F.
  - injection F as <-. rewrite app_nil_r. exact I.
  - destruct (tryPositionWith add mul div floor s cellStats g cw ch r c st) as [st1|] eqn:T;
      simpl in F; [|discriminate].
    replace (done ++ (r, c) :: ps) with ((done ++ [(r, c)]) ++ ps)
      by (rewrite <- app_assoc; reflexivity).
    eapply IH; [|exact F]. eapply tryPositionWith_inv; eassumption.
Qed.

Lemma findBestRectForGivenShapeWith_inv (s : ShapeToFind) (b : Z)
    (res : option FoundRectInfo) :
  findBestRectForGivenShapeWith add mul div floor s cellStats g cw ch b = Ret res ->
  searchInvOf (candidateAvgWith add div cellStats g) (map (fun p => (s, p)) (positions s g b)) res
  /\ match res with Some best => shape best = s | None => True end.
Proof.
  unfold findBestRectForGivenShapeWith, positions.
  destruct (_ || _).
  - intro E. injection E as <-. simpl. split; constructor.
  - rewrite forM_nested. intro F.
    destruct (forM _ _ _) as [st'|] eqn:L; simpl in F; [|discriminate].
    injection F as <-.
    apply (positions_loopWith_inv s _ [] (None, PInf)) in L.
    + destruct L as (I & _ & Sh). split; assumption.
    + repeat split. simpl. constructor.
Qed.

Lemma shapes_loopWith_inv (b : Z) (shapes : list ShapeToFind)
    (done : list (ShapeToFind * (Z * Z))) (kept kept' : option FoundRectInfo) :
  searchInvOf (candidateAvgWith add div cellStats g) done kept ->
  forM shapes kept (fun shape overallBestRect =>
    rectInfoForShape <- findBestRectForGivenShapeWith add mul div floor shape cellStats g cw ch b ;;
    Ret (keepBetter overallBestRect rectInfoForShape)) = Ret kept' ->
  searchInvOf (candidateAvgWith add div cellStats g) (done ++ testedPairs shapes g b) kept'.
Proof.
  revert done kept. induction shapes as [|s shapes IH]; intros done kept I F;
    simpl in F.
  - injection F as <-. unfold testedPairs. simpl. rewrite app_nil_r. exact I.
  - destruct (findBestRectForGivenShapeWith add mul div floor s cellStats g cw ch b) as [res|] eqn:FB;
      simpl in F; [|discriminate].
    unfold testedPairs. simpl. rewrite app_assoc.
    eapply IH; [|exact F].
    apply searchInvOf_merge; [assumption|].
    apply (findBestRectForGivenShapeWith_inv s b res FB).
Qed.

(** The search keeps the first pair of least average busyness. *)
Lemma searchShapesWith_firstMinimum (b : Z) (shapes : list ShapeToFind)
    (best : FoundRectInfo) :
  searchShapesWith add mul div floor shapes cellStats g cw ch b = Ret (Some best) ->
  firstMinimumOf (candidateAvgWith add div cellStats g) (testedPairs shapes g b) best.
Proof.
  intro F. apply (shapes_loopWith_inv b shapes [] None) in F.
  - simpl in F. tauto.
  - simpl. constructor.
Qed.

End WithArithmetic.

(** *** The averages of the search are those of the covered cells *)

Lemma statAt_cellAt (cellStats : list CellStat) (i : Z) :
  statAt cellStats i
  = match cellAt cellStats i with Some st => Ret st | None => Throw end.
Proof.
  unfold statAt, cellAt. destruct (i <? 0); [reflexivity|].
  destruct (nth_error cellStats (Z.to_nat i)); reflexivity.
Qed.

Lemma coveredCells_pairs (s : ShapeToFind) (g : GridConfig) (r c : Z) :
  coveredCells s g r c
  = map (fun p => (r + fst p) * cols g + (c + snd p))
        (flat_map (fun a => map (fun b => (a, b)) (upto 0 (scols s)))
                  (upto 0 (srows s))).
Proof.
  unfold coveredCells.
  induction (upto 0 (srows s)) as [|ro ros IH]; [reflexivity|].
  cbn [flat_map]. rewrite map_app, map_map, IH. reflexivity.
Qed.

(** The offset loops read the covered cells in order, add their busyness
    up and count them. *)
Lemma sumLoopWith_cells (add : num -> num -> num) (cellStats : list CellStat)
    (idxs : list Z) (acc sums : RectSums) :
  forM idxs acc (fun i acc =>
    st <- statAt cellStats i ;;
    Ret (mkSums (add (currentRectBusynessSum acc) (busyness st))
                (pixelCount acc + 1)
                (add (rectSumR acc) (cr (avgColor st)))
                (add (rectSumG acc) (cg (avgColor st)))
                (add (rectSumB acc) (cb (avgColor st))))) = Ret sums ->
  exists cells,
    allCells (map (cellAt cellStats) idxs) = Some cells
    /\ currentRectBusynessSum sums
       = fold_left (fun sum cell => add sum (busyness cell)) cells
                   (currentRectBusynessSum acc)
    /\ pixelCount sums = pixelCount acc + Z.of_nat (List.length cells).
Proof.
  revert acc. induction idxs as [|i idxs IH]; intros acc F; cbn [forM] in F.
  - injection F as <-. exists []. repeat split. cbn [List.length]. lia.
  - rewrite statAt_cellAt in F. cbn [map allCells].
    destruct (cellAt cellStats i) as [st|]; cbn [bind] in F; [|discriminate].
    destruct (IH _ F) as (cells & A & B & C). rewrite A.
    exists (st :: cells). split; [reflexivity|]. split.
    + rewrite B. reflexivity.
    + rewrite C. cbn [pixelCount List.length]. lia.
Qed.

Lemma sumRectWith_cells (add : num -> num -> num) (s : ShapeToFind)
    (cellStats : list CellStat) (g : GridConfig) (r c : Z) (sums : RectSums) :
  sumRectWith add s cellStats g r c = Ret sums ->
  exists cells,
    coveredStats cellStats g (s, (r, c)) = Some cells
    /\ currentRectBusynessSum sums
       = fold_left (fun sum cell => add sum (busyness cell)) cells (Zn 0)
    /\ pixelCount sums = Z.of_nat (List.length cells).
Proof.
  unfold sumRectWith, coveredStats. cbn [fst snd].
  rewrite forM_nested, coveredCells_pairs. intro F.
  rewrite <- (forM_map (fun p => (r + fst p) * cols g + (c + snd p)) _ sumsInit
                (fun i acc =>
                   st <- statAt cellStats i ;;
                   Ret (mkSums (add (currentRectBusynessSum acc) (busyness st))
                               (pixelCount acc + 1)
                               (add (rectSumR acc) (cr (avgColor st)))
                               (add (rectSumG acc) (cg (avgColor st)))
                               (add (rectSumB acc) (cb (avgColor st))))))
    in F.
  destruct (sumLoopWith_cells add cellStats _ _ _ F) as (cells & A & B & C).
  exists cells. split; [exact A|]. split; [exact B|]. rewrite C. reflexivity.
Qed.

(** What the search computes for a pair is the average busyness of the
    cells the pair covers; a pair without cells has none. *)
Lemma candidateAvgWith_mean (add div : num -> num -> num)
    (cellStats : list CellStat) (g : GridConfig) (sp : ShapeToFind * (Z * Z))
    (o : option num) :
  candidateAvgWith add div cellStats g sp = Ret o ->
  exists cells,
    coveredStats cellStats g sp = Some cells
    /\ match o with
       | Some v => cells <> [] /\ v = meanBusyness add div cells
       | None => cells = []
       end.
Proof.
  destruct sp as [s [r c]]. unfold candidateAvgWith. cbn [fst snd].
  destruct (sumRectWith add s cellStats g r c) as [sums|] eqn:SR; cbn [bind];
    [|discriminate].
  destruct (sumRectWith_cells _ _ _ _ _ _ _ SR) as (cells & A & B & C).
  destruct (pixelCount sums =? 0) eqn:PC; intro E; injection E as <-;
    exists cells; (split; [exact A|]).
  - apply Z.eqb_eq in PC. destruct cells; [reflexivity|].
    cbn [List.length] in C. lia.
  - apply Z.eqb_neq in PC. split.
    + intros ->. cbn [List.length] in C. lia.
    + unfold meanBusyness. rewrite B, C. reflexivity.
Qed.

Lemma loses_notBetter (strict : bool) (add div : num -> num -> num)
    (cellStats : list CellStat) (g : GridConfig) (m : num)
    (sp : ShapeToFind * (Z * Z)) :
  loses strict m (candidateAvgWith add div cellStats g sp) ->
  notBetter strict add div cellStats g m sp.
Proof.
  destruct (candidateAvgWith add div cellStats g sp) as [o|] eqn:E;
    [|intros []].
  destruct (candidateAvgWith_mean _ _ _ _ _ _ E) as (cells & A & B).
  intro L. exists cells. split; [exact A|].
  destruct o as [v|]; [right|left; exact B].
  destruct B as (_ & ->). exact L.
Qed.

(** The search of the exact model is the one over the exact operations. *)
Lemma searchShapes_exact (shapes : list ShapeToFind)
    (cellStats : list CellStat) (g : GridConfig) (cw ch : num) (b : Z) :
  searchShapes shapes cellStats g cw ch b
  = searchShapesWith Num.add Num.mul Num.div Num.floor shapes cellStats g cw ch b.
Proof. reflexivity. Qed.

(** ** Where the search looks, and that it does not throw *)

Lemma positions_In (s : ShapeToFind) (g : GridConfig) (b r c : Z) :
  In (r, c) (positions s g b) ->
  b <= r /\ r + srows s <= rows g - b /\ b <= c /\ c + scols s <= cols g - b.
Proof.
  unfold positions. destruct (_ || _); [intros []|].
  rewrite in_flat_map. intros (r' & Hr & Hc).
  apply in_map_iff in Hc. destruct Hc as (c' & E & Hc).
  injection E as -> ->.
  apply through_In in Hr. apply through_In in Hc. lia.
Qed.

Lemma testedPairs_In (shapes : list ShapeToFind) (g : GridConfig) (b : Z)
    (s : ShapeToFind) (p : Z * Z) :
  In (s, p) (testedPairs shapes g b) -> In s shapes /\ In p (positions s g b).
Proof.
  unfold testedPairs. rewrite in_flat_map. intros (s' & Hs & Hp).
  apply in_map_iff in Hp. destruct Hp as (p' & E & Hp).
  injection E as -> ->. split; assumption.
Qed.

Lemma firstMinimum_In (cellStats : list CellStat) (g : GridConfig)
    (tested : list (ShapeToFind * (Z * Z))) (best : FoundRectInfo) :
  firstMinimum cellStats g tested best ->
  In (shape best, (rStart best, cStart best)) tested.
Proof.
  intros (before & after & E & _). rewrite E. apply in_or_app. right. now left.
Qed.

Lemma searchShapes_inside (cellStats : list CellStat) (g : GridConfig)
    (cw ch : num) (b : Z) (shapes : list ShapeToFind) (best : FoundRectInfo) :
  searchShapes shapes cellStats g cw ch b = Ret (Some best) ->
  insideBorder g b best.
Proof.
  intro F. apply searchShapes_firstMinimum in F. apply firstMinimum_In in F.
  apply testedPairs_In in F. destruct F as (_ & P).
  apply positions_In in P. exact P.
Qed.

Lemma findBestRectForGivenShape_inside (cellStats : list CellStat)
    (g : GridConfig) (cw ch : num) (b : Z) (s : ShapeToFind)
    (best : FoundRectInfo) :
  findBestRectForGivenShape s cellStats g cw ch b = Ret (Some best) ->
  shape best = s /\ insideBorder g b best.
Proof.
  intro F. apply findBestRectForGivenShape_inv in F.
  destruct F as ((_ & FM) & Sh). split; [exact Sh|].
  apply firstMinimum_In in FM. apply in_map_iff in FM.
  destruct FM as (p & E & P). rewrite Sh in E. injection E as ->.
  rewrite <- Sh in P. apply positions_In in P. exact P.
Qed.

Lemma forM_returns {A S : Type} (xs : list A) (body : A -> S -> outcome S) :
  (forall a s, In a xs -> exists s', body a s = Ret s') ->
  forall s, exists s', forM xs s body = Ret s'.
Proof.
  induction xs as [|a xs IH]; intros H s; simpl.
  - eexists. reflexivity.
  - destruct (H a s (or_introl eq_refl)) as (s1 & E). rewrite E. simpl.
    apply IH. intros a' s' I. apply H. now right.
Qed.

Section NoThrow.

Variables (cellStats : list CellStat) (g : GridConfig).
Hypothesis covered : coversGrid g cellStats.

Lemma statAt_returns (rr cc : Z) :
  0 <= rr < rows g -> 0 <= cc < cols g ->
  exists st, statAt cellStats (rr * cols g + cc) = Ret st.
Proof.
  intros Hr Hc. unfold statAt. unfold coversGrid in covered.
  assert (B : 0 <= rr * cols g + cc < Z.of_nat (List.length cellStats)) by nia.
  destruct (rr * cols g + cc <? 0) eqn:N; [lia|].
  destruct (nth_error cellStats (Z.to_nat (rr * cols g + cc))) as [st|] eqn:E.
  - eexists. reflexivity.
  - apply nth_error_None in E. lia.
Qed.

Lemma sumRect_returns (s : ShapeToFind) (r c : Z) :
  0 <= r -> r + srows s <= rows g -> 0 <= c -> c + scols s <= cols g ->
  exists sums, sumRect s cellStats g r c = Ret sums.
Proof.
  intros R0 R1 C0 C1. unfold sumRect. apply forM_returns.
  intros ro acc Hro. apply upto_In in Hro.
  apply forM_returns. intros co acc' Hco. apply upto_In in Hco.
  destruct (statAt_returns (r + ro) (c + co)) as (st & E); [lia|lia|].
  rewrite E. simpl. eexists. reflexivity.
Qed.

Variables (cw ch : num) (b : Z).
Hypothesis border_nonneg : 0 <= b.

Lemma findBestRectForGivenShape_returns (s : ShapeToFind) :
  exists res, findBestRectForGivenShape s cellStats g cw ch b = Ret res.
Proof.
  unfold findBestRectForGivenShape. destruct (_ || _); [eexists; reflexivity|].
  match goal with
  | |- exists res, (st <- ?loop ;; _) = _ =>
      assert (L : exists st', loop = Ret st')
  end.
  { apply forM_returns. intros r st Hr. apply through_In in Hr.
    apply forM_returns. intros c st' Hc. apply through_In in Hc.
    unfold tryPosition.
    destruct (sumRect_returns s r c) as (sums & E); try lia.
    rewrite E. simpl.
    destruct (pixelCount sums =? 0); [eexists; reflexivity|].
    destruct (_ <? _)%num; eexists; reflexivity. }
  destruct L as (st' & E). rewrite E. simpl. eexists. reflexivity.
Qed.

Lemma searchShapes_returns (shapes : list ShapeToFind) :
  exists res, searchShapes shapes cellStats g cw ch b = Ret res.
Proof.
  unfold searchShapes. apply forM_returns. intros s kept _.
  destruct (findBestRectForGivenShape_returns s) as (res & E).
  rewrite E. simpl. eexists. reflexivity.
Qed.

Lemma chooseTextColor_returns (useCell : bool) (best : FoundRectInfo) :
  insideBorder g b best ->
  exists color, chooseTextColor useCell best cellStats g = Ret color.
Proof.
  intros (R0 & R1 & C0 & C1). unfold chooseTextColor.
  destruct useCell; [|eexists; reflexivity].
  assert (L : exists st, bestContrastCell best cellStats g = Ret st).
  { unfold bestContrastCell. apply forM_returns.
    intros ro st Hro. apply upto_In in Hro.
    apply forM_returns. intros co st' Hco. apply upto_In in Hco.
    destruct (statAt_returns (rStart best + ro) (cStart best + co))
      as (cell & E); [lia|lia|].
    rewrite E. simpl.
    match goal with |- context [if ?t then _ else _] => destruct t end;
      eexists; reflexivity. }
  destruct L as ((bestCell & maxContrast) & E). rewrite E. simpl.
  destruct bestCell; [|eexists; reflexivity].
  match goal with |- context [if ?t then _ else _] => destruct t end;
    eexists; reflexivity.
Qed.

End NoThrow.

(** The grid loops push exactly one entry per cell, row by row. *)
Lemma fold_left_push {A B : Type} (f : A -> B) (xs : list A) (acc : list B) :
  fold_left (fun acc a => acc ++ [f a]) xs acc = acc ++ map f xs.
Proof.
  revert acc. induction xs as [|a xs IH]; intro acc; simpl.
  - now rewrite app_nil_r.
  - rewrite IH, <- app_assoc. reflexivity.
Qed.

Lemma fold_left_rows {A B C : Type} (F : A -> B -> C) (cs : list B)
    (rs : list A) (acc : list C) :
  fold_left (fun acc r => fold_left (fun acc c => acc ++ [F r c]) cs acc) rs acc
  = acc ++ flat_map (fun r => map (F r) cs) rs.
Proof.
  revert acc. induction rs as [|r rs IH]; intro acc.
  - simpl. now rewrite app_nil_r.
  - cbn [fold_left flat_map]. fold (@fold_left (list C) B).
    rewrite IH, (fold_left_push (F r)), <- app_assoc. reflexivity.
Qed.

Lemma gridStats_flat (look : Z -> num) (w : Z) (g : GridConfig) (cw ch : num) :
  gridStats look w g cw ch
  = flat_map (fun r => map (cellStat look w cw ch r) (upto 0 (cols g)))
             (upto 0 (rows g)).
Proof.
  unfold gridStats.
  apply (fold_left_rows (cellStat look w cw ch) (upto 0 (cols g))
                        (upto 0 (rows g)) []).
Qed.

Lemma gridStats_covers (look : Z -> num) (w : Z) (g : GridConfig) (cw ch : num) :
  coversGrid g (gridStats look w g cw ch).
Proof.
  unfold coversGrid. rewrite gridStats_flat.
  assert (L : forall rs : list Z,
             List.length (flat_map (fun r => map (cellStat look w cw ch r)
                                                 (upto 0 (cols g))) rs)
             = (List.length rs * Z.to_nat (cols g))%nat).
  { induction rs as [|r rs IH]; simpl; [reflexivity|].
    rewrite length_app, length_map, IH. unfold upto. rewrite Zseq_length.
    f_equal. f_equal. lia. }
  rewrite L. unfold upto. rewrite Zseq_length. nia.
Qed.

(** ** Uniform images *)

(** Decide the integer comparisons of the goal that linear arithmetic settles. *)
Ltac zbool :=
  repeat match goal with
  | |- context [Z.ltb ?a ?b] =>
      first [ replace (Z.ltb a b) with true by (symmetry; apply Z.ltb_lt; lia)
            | replace (Z.ltb a b) with false by (symmetry; apply Z.ltb_ge; lia) ]
  | |- context [Z.leb ?a ?b] =>
      first [ replace (Z.leb a b) with true by (symmetry; apply Z.leb_le; lia)
            | replace (Z.leb a b) with false by (symmetry; apply Z.leb_gt; lia) ]
  end.

Lemma sample_pixels (n : nat) (r g b a i : Z) :
  sample (pixels n r g b a) i = uniformLook (Z.of_nat n) r g b a i.
Proof.
  revert i. induction n as [|n IH]; intro i.
  - unfold sample, uniformLook. simpl pixels. change (4 * Z.of_nat 0) with 0.
    destruct (Z_lt_le_dec i 0); zbool; [reflexivity|].
    destruct (Z.to_nat i); reflexivity.
  - destruct (Z_lt_le_dec i 4) as [L|G].
    + unfold sample, uniformLook.
      destruct (Z_lt_le_dec i 0); zbool; [reflexivity|].
      assert (C : i = 0 \/ i = 1 \/ i = 2 \/ i = 3) by lia.
      destruct C as [->|[->|[->| ->]]]; reflexivity.
    + assert (E : sample (pixels (S n) r g b a) i = sample (pixels n r g b a) (i - 4)).
      { unfold sample. zbool.
        replace (Z.to_nat i) with (4 + Z.to_nat (i - 4))%nat by lia.
        reflexivity. }
      rewrite E, IH. unfold uniformLook.
      replace ((i - 4) mod 4) with (i mod 4).
      * destruct (Z_lt_le_dec i (4 * Z.of_nat (S n))); zbool; reflexivity.
      * replace (i - 4) with (i + (-1) * 4) by lia. now rewrite Z_mod_plus_full.
Qed.

Lemma fold_left_congr {A B : Type} (f h : A -> B -> A) (xs : list B) (a : A) :
  (forall a x, f a x = h a x) -> fold_left f xs a = fold_left h xs a.
Proof.
  intro E. revert a. induction xs as [|x xs IH]; intro a; simpl.
  - reflexivity.
  - rewrite E. apply IH.
Qed.

Lemma cellStat_ext (look look' : Z -> num) (w : Z) (cw ch : num) (r c : Z) :
  (forall i, look i = look' i) ->
  cellStat look w cw ch r c = cellStat look' w cw ch r c.
Proof.
  intro E. unfold cellStat.
  match goal with
  | |- context [fold_left ?f ?ys ?a0] =>
      match goal with
      | |- context [fold_left ?h ys a0] =>
          lazymatch f with h => fail | _ => idtac end;
          assert (F : fold_left f ys a0 = fold_left h ys a0)
      end
  end.
  { apply fold_left_congr. intros acc yy.
    apply fold_left_congr. intros acc' xx. now rewrite !E. }
  rewrite F. reflexivity.
Qed.

Lemma gridStats_ext (look look' : Z -> num) (w : Z) (g : GridConfig) (cw ch : num) :
  (forall i, look i = look' i) ->
  gridStats look w g cw ch = gridStats look' w g cw ch.
Proof.
  intro E. rewrite !gridStats_flat. apply flat_map_ext. intro r.
  apply map_ext. intro c. now apply cellStat_ext.
Qed.

(** The statistics of the uniform black 100x100 image on the 10x10 grid. *)
Lemma black_image_stats (alpha : Z) :
  computeCellStats (uniformImage 100 100 0 0 0 alpha) (mkGrid 10 10)
                   (Zn 100 / Zn 10)%num (Zn 100 / Zn 10)%num
  = repeat (mkCellStat (mkColor (Fin 0) (Fin 0) (Fin 0)) (Fin 0)) 100.
Proof.
  unfold computeCellStats, uniformImage. cbn [data imgWidth].
  rewrite (gridStats_ext _ (uniformLook 10000 0 0 0 alpha)).
  - vm_compute. reflexivity.
  - intro i. rewrite sample_pixels. f_equal.
Qed.

(** ** Words and lines *)

Lemma split_nonnil (s : string) : split s <> [].
Proof.
  destruct s as [|c s]; simpl; [discriminate|].
  destruct (Ascii.eqb c " "); [discriminate|].
  destruct (split s); discriminate.
Qed.

Lemma split_app_space (a b : string) :
  split (a ++ " " ++ b) = split a ++ split b.
Proof.
  induction a as [|c a IH]; [reflexivity|].
  change (split (String c (a ++ " " ++ b)) = split (String c a) ++ split b).
  cbn [split]. rewrite IH.
  destruct (Ascii.eqb c " "); [reflexivity|].
  destruct (split a) as [|w ws] eqn:E; [now apply split_nonnil in E|].
  reflexivity.
Qed.

Lemma split_spaceFree (s : string) : Forall (fun w => spaceFree w = true) (split s).
Proof.
  induction s as [|c s IH]; simpl.
  - constructor; [reflexivity|constructor].
  - destruct (Ascii.eqb c " ") eqn:E.
    + constructor; [reflexivity|exact IH].
    + destruct (split s) as [|w ws].
      * constructor; [simpl; now rewrite E|constructor].
      * inversion IH; subst. constructor; [simpl; now rewrite E|assumption].
Qed.

Lemma split_word (w : string) : spaceFree w = true -> split w = [w].
Proof.
  induction w as [|c w IH]; simpl; [reflexivity|].
  intro H. apply andb_true_iff in H. destruct H as (Hc & Hw).
  apply negb_true_iff in Hc. rewrite Hc, (IH Hw). reflexivity.
Qed.

Lemma wordsOf_word (w : string) :
  spaceFree w = true -> wordsOf w = if nonEmpty w then [w] else [].
Proof.
  intro H. unfold wordsOf. rewrite (split_word w H). simpl.
  destruct (nonEmpty w); reflexivity.
Qed.

Lemma wordsOf_empty : wordsOf "" = [].
Proof. reflexivity. Qed.

Lemma wordsOf_app_space (a b : string) :
  wordsOf (a ++ " " ++ b) = wordsOf a ++ wordsOf b.
Proof. unfold wordsOf. rewrite split_app_space. apply filter_app. Qed.

Lemma wordsOf_join (ls : list string) :
  wordsOf (join ls) = flat_map wordsOf ls.
Proof.
  induction ls as [|l ls IH]; [reflexivity|].
  destruct ls as [|l' ls].
  - simpl. now rewrite app_nil_r.
  - change (join (l :: l' :: ls)) with (l ++ " " ++ join (l' :: ls))%string.
    rewrite wordsOf_app_space, IH. reflexivity.
Qed.

Lemma flat_map_snoc {A B : Type} (f : A -> list B) (xs : list A) (a : A) :
  flat_map f (xs ++ [a]) = flat_map f xs ++ f a.
Proof. rewrite flat_map_app. simpl. now rewrite app_nil_r. Qed.

(** The line under test holds the words of the current line and the new
    word. *)
Lemma wordsOf_testLine (cur w : string) :
  wordsOf (cur ++ (if nonEmpty cur then " " else "") ++ w)
  = wordsOf cur ++ wordsOf w.
Proof.
  destruct cur as [|c cur]; [reflexivity|].
  cbn [nonEmpty]. apply wordsOf_app_space.
Qed.

Section Wrap.

Variables (measure : string -> num) (maxWidth : num).

Lemma overlong_not_under (w : string) :
  (measure w >? maxWidth)%num = true -> (measure w <? maxWidth)%num = false.
Proof.
  unfold Num.gtb. intro H. apply leb_false_ltb_false. now apply ltb_asym.
Qed.

(** Once a line is committed or the current line is non-empty - or while
    no leading word is too wide - the loop keeps every word. *)
Lemma wrapLoop_words (ws lines : list string) (cur : string)
    (lines' : list string) (cur' : string) :
  Forall (fun w => spaceFree w = true) ws ->
  lines <> [] \/ nonEmpty cur = true \/ overlongHead measure maxWidth ws = None ->
  wrapLoop measure maxWidth ws lines cur = (lines', cur') ->
  flat_map wordsOf lines' ++ wordsOf cur'
  = flat_map wordsOf lines ++ wordsOf cur ++ filter nonEmpty ws.
Proof.
  revert lines cur. induction ws as [|w ws IH]; intros lines cur SF P W.
  - simpl in W. injection W as <- <-. simpl. now rewrite app_nil_r.
  - inversion SF as [|? ? Hw SF']; subst.
    assert (FW : filter nonEmpty (w :: ws) = wordsOf w ++ filter nonEmpty ws).
    { rewrite (wordsOf_word w Hw). simpl. destruct (nonEmpty w); reflexivity. }
    assert (Head : lines = [] -> nonEmpty cur = false ->
                   (measure w >? maxWidth)%num = false
                   /\ (nonEmpty w = true \/ overlongHead measure maxWidth ws = None)).
    { intros L C. destruct P as [P|[P|P]]; [congruence|congruence|].
      simpl in P. destruct (measure w >? maxWidth)%num; [discriminate|].
      split; [reflexivity|]. destruct (nonEmpty w); [now left|now right]. }
    rewrite FW. cbn [wrapLoop] in W.
    destruct (measure _ <? maxWidth)%num eqn:Under.
    + apply IH in W; [|assumption|].
      * rewrite W, wordsOf_testLine, <- !app_assoc. reflexivity.
      * destruct lines as [|l lines]; [|left; discriminate].
        destruct cur as [|c cur]; [|right; left; reflexivity].
        destruct (Head eq_refl eq_refl) as (_ & [N|N]); [|now right; right].
        right; left. simpl. exact N.
    + destruct (nonEmpty cur) eqn:C.
      * replace (List.length (lines ++ [cur]) =? 0)%nat with false in W
          by (rewrite length_app; simpl; symmetry; apply Nat.eqb_neq; lia).
        rewrite andb_false_r in W.
        apply IH in W; [|assumption|].
        -- rewrite W, flat_map_snoc, <- !app_assoc. reflexivity.
        -- left. destruct lines; discriminate.
      * assert (CE : wordsOf cur = []) by (destruct cur; [reflexivity|discriminate]).
        rewrite CE. simpl app.
        destruct lines as [|l lines].
        -- destruct (Head eq_refl eq_refl) as (NotOver & N).
           rewrite NotOver in W. simpl in W.
           apply IH in W; [exact W|assumption|tauto].
        -- simpl List.length in W. simpl Nat.eqb in W. rewrite andb_false_r in W.
           apply IH in W; [exact W|assumption|]. left. discriminate.
Qed.

(** While nothing is committed and the current line is empty, a leading
    word that is too wide ends the loop with that word alone. *)
Lemma wrapLoop_overlong (ws : list string) (w : string) :
  overlongHead measure maxWidth ws = Some w ->
  wrapLoop measure maxWidth ws [] "" = ([w], ""%string).
Proof.
  induction ws as [|x ws IH]; simpl; [discriminate|].
  destruct (measure x >? maxWidth)%num eqn:Over.
  - intro E. injection E as ->. rewrite (overlong_not_under _ Over). reflexivity.
  - destruct (nonEmpty x) eqn:NE; [discriminate|].
    destruct x; [|discriminate]. intro E.
    destruct (measure "" <? maxWidth)%num; simpl; apply IH; exact E.
Qed.

(** What [wrapTextCanvas] returns for a text that is not blank and a
    positive width. *)
Lemma wrapTextCanvas_words (text : string) :
  isBlank text = false -> (Zn 0 <? maxWidth)%num = true ->
  match overlongHead measure maxWidth (split text) with
  | Some w => wrapTextCanvas measure text maxWidth = [w]
  | None =>
      wordsOf (join (wrapTextCanvas measure text maxWidth)) = wordsOf text
  end.
Proof.
  intros NB Pos. unfold wrapTextCanvas. rewrite NB, (ltb_asym _ _ Pos). simpl orb.
  cbv iota. unfold wordsOf at 2.
  pose proof (split_spaceFree text) as SF.
  destruct (split text) as [|first rest] eqn:S; [now apply split_nonnil in S|].
  inversion SF as [|? ? Hf SFr]; subst.
  simpl overlongHead.
  destruct (measure first >? maxWidth)%num eqn:Over; [reflexivity|].
  destruct (nonEmpty first) eqn:NE.
  - destruct (wrapLoop measure maxWidth rest [] first) as [lines cur] eqn:W.
    apply wrapLoop_words in W; [|assumption|tauto].
    rewrite wordsOf_join.
    assert (E : flat_map wordsOf (if nonEmpty cur then lines ++ [cur] else lines)
                = flat_map wordsOf lines ++ wordsOf cur).
    { destruct cur; simpl nonEmpty; cbv iota.
      - rewrite wordsOf_empty, app_nil_r. reflexivity.
      - apply flat_map_snoc. }
    rewrite E, W. simpl. rewrite NE, (wordsOf_word first Hf), NE. reflexivity.
  - destruct first; [|discriminate].
    destruct (overlongHead measure maxWidth rest) as [w|] eqn:OH.
    + rewrite (wrapLoop_overlong rest w OH). reflexivity.
    + destruct (wrapLoop measure maxWidth rest [] "") as [lines cur] eqn:W.
      apply wrapLoop_words in W; [|assumption|tauto].
      rewrite wordsOf_join.
      assert (E : flat_map wordsOf (if nonEmpty cur then lines ++ [cur] else lines)
                  = flat_map wordsOf lines ++ wordsOf cur).
      { destruct cur; simpl nonEmpty; cbv iota.
        - rewrite wordsOf_empty, app_nil_r. reflexivity.
        - apply flat_map_snoc. }
      rewrite E, W. reflexivity.
Qed.

End Wrap.

(** ** The font-fit loop and the drawing calls *)

Section Render.

Variables (measureText : Font -> string -> num) (textToRender : string).
Variables (availW availH : num).

Lemma fitStep_calls (size : num) (st : FitState) :
  calls (ctxOf (fst (fitStep measureText textToRender availW availH size st)))
  = calls (ctxOf st).
Proof.
  unfold fitStep. cbv zeta.
  match goal with |- context [if ?t then _ else _] => destruct t end; reflexivity.
Qed.

Lemma fitStep_broke (size : num) (st : FitState) :
  snd (fitStep measureText textToRender availW availH size st)
  = blockFits measureText textToRender availW availH size.
Proof.
  unfold fitStep, blockFits. cbv zeta. cbn [font setFont].
  match goal with |- context [if ?t then _ else _] => destruct t end; reflexivity.
Qed.

Lemma fitStep_kept (size : num) (st : FitState) :
  snd (fitStep measureText textToRender availW availH size st) = false ->
  wrappedLines (fst (fitStep measureText textToRender availW availH size st))
  = wrappedLines st.
Proof.
  unfold fitStep. cbv zeta.
  match goal with |- context [if ?t then _ else _] => destruct t end;
    simpl; [discriminate|reflexivity].
Qed.

Lemma fitLoop_calls (fuel : nat) (size : num) (st st' : FitState) :
  fitLoop fuel measureText textToRender availW availH size st = Some st' ->
  calls (ctxOf st') = calls (ctxOf st).
Proof.
  revert size st. induction fuel as [|k IH]; intros size st F; cbn [fitLoop] in F.
  - discriminate.
  - destruct (size >=? MIN_RENDER_FONT_SIZE)%num; [|now injection F as <-].
    pose proof (fitStep_calls size st) as C.
    destruct (fitStep measureText textToRender availW availH size st)
      as [st1 broke]. simpl in C.
    destruct broke.
    + injection F as <-. exact C.
    + apply IH in F. congruence.
Qed.

(** When no size of the range fits, the loop leaves [wrappedLines] as it
    found it. *)
Lemma fitLoop_nofit (fuel : nat) (size : num) (st st' : FitState) :
  (forall k, (k < fuel)%nat ->
             (sizeAt size k >=? MIN_RENDER_FONT_SIZE)%num = true ->
             blockFits measureText textToRender availW availH (sizeAt size k)
             = false) ->
  fitLoop fuel measureText textToRender availW availH size st = Some st' ->
  wrappedLines st' = wrappedLines st.
Proof.
  revert size st. induction fuel as [|k IH]; intros size st NF F; cbn [fitLoop] in F.
  - discriminate.
  - destruct (size >=? MIN_RENDER_FONT_SIZE)%num eqn:G; [|now injection F as <-].
    pose proof (fitStep_broke size st) as B.
    pose proof (fitStep_kept size st) as K.
    pose proof (NF 0%nat (Nat.lt_0_succ k) G) as N0.
    change (sizeAt size 0) with size in N0.
    rewrite N0 in B.
    destruct (fitStep measureText textToRender availW availH size st)
      as [st1 broke]. simpl in B, K. subst broke.
    apply IH in F.
    + rewrite F. now apply K.
    + intros j Hj. specialize (NF (S j)). unfold sizeAt in *.
      rewrite Nat.iter_succ_r in NF. apply NF. lia.
Qed.

Lemma noSizeFits_spec (start : num) :
  noSizeFits measureText textToRender availW availH start = true ->
  forall k, (k < fitFuel start)%nat ->
            (sizeAt start k >=? MIN_RENDER_FONT_SIZE)%num = true ->
            blockFits measureText textToRender availW availH (sizeAt start k)
            = false.
Proof.
  unfold noSizeFits, triedSizes. rewrite forallb_forall. intros H k Hk G.
  specialize (H (sizeAt start k)). rewrite G in H. simpl in H.
  apply negb_true_iff. apply H. apply in_map. apply in_seq. lia.
Qed.





End Render.


Lemma textCalls_app (xs ys : list DrawCall) :
  textCalls (xs ++ ys) = textCalls xs ++ textCalls ys.
Proof. apply filter_app. Qed.



Lemma drawLines_nothing (r : AnalysisResult) (W H ah : num) (st : FitState) :
  wrappedLines st = [] -> drawLines r W H ah st = ctxOf st.
Proof. intro E. unfold drawLines. rewrite E. reflexivity. Qed.

(** The scrim block adds one [fillRect] call, or none. *)
Lemma drawScrim_calls (r : AnalysisResult) (ctx : Canvas) :
  calls (drawScrim r ctx)
  = calls ctx ++
    (if needsScrim r then
       [FillRect (Rgba (scrimBaseColor (textColor r))
                       (scrimOpacity (textContrastRatio r)))
                 (rx (rect r)) (ry (rect r)) (rwidth (rect r)) (rheight (rect r))]
     else []).
Proof.
  unfold drawScrim. destruct (needsScrim r); [reflexivity|].
  now rewrite app_nil_r.
Qed.

(** The state the font-fit loop of a call ends in. *)
Lemma render_inv (measureText : Font -> string -> num) (ctx : Canvas)
    (text : string) (r : AnalysisResult) (W H : num) (ctx' : Canvas) :
  renderTextWithDynamicSizing measureText ctx text r W H = Some ctx' ->
  exists st,
    ctx' = drawLines r W H (availableRectHeight r) st
    /\ calls (ctxOf st) = calls (drawScrim r ctx)
    /\ (noSizeFits measureText text (availableRectWidth r)
                   (availableRectHeight r) (startFontSize r) = true
        -> wrappedLines st = []).
Proof.
  unfold renderTextWithDynamicSizing. cbv zeta.
  destruct (_ && _).
  - destruct (fitLoop _ _ _ _ _ _ _) as [st|] eqn:F; [|discriminate].
    intro E. injection E as <-. exists st. split; [reflexivity|]. split.
    + apply fitLoop_calls in F. exact F.
    + intro NF. eapply fitLoop_nofit in F; [exact F|].
      apply noSizeFits_spec. exact NF.
  - intro E. injection E as <-. eexists. split; [reflexivity|]. split; reflexivity.
Qed.


(* ------------------------------------------------------------------ *)
(** * The claims *)

(** C1.  For the 100x100 image of uniform black pixels, a 10x10 grid, target
    area 12, no border exclusion and the black/white text rule,
    [analyzeImageCore] returns a result with busyness 0, text colour
    "white", background (0,0,0) and contrast ratio 21; the rectangle is the
    first generated shape, the 3x4 "square", at the first scanned position,
    row 0 and column 0, so that its pixel origin is (0,0). *)
Theorem analyzeImageCore_uniform_black (alpha : Z) :
  let stats := repeat (mkCellStat (mkColor (Fin 0) (Fin 0) (Fin 0)) (Fin 0)) 100 in
  let shapes := generateShapesToTest 12 10 10 in
  analyzeImageCore
    (mkParams (uniformImage 100 100 0 0 0 alpha) (mkGrid 10 10) 12 false 0)
  = Ret (mkCore
           (Some (mkResult (mkRect (Fin 0) (Fin 0) (Fin 40) (Fin 30))
                           "white" (Fin 12)
                           (mkColor (Fin 0) (Fin 0) (Fin 0))
                           "square" (mkGrid 3 4) (Fin 0) (Fin 21)))
           (Some (mkHover stats (mkGrid 10 10) (Fin 10) (Fin 10) 100 100)),
         [])
  /\ hd_error shapes = Some (mkShape "square" 3 4)
  /\ hd_error (testedPairs shapes (mkGrid 10 10) 0)
     = Some (mkShape "square" 3 4, (0, 0))
  /\ exists best,
       searchShapes shapes stats (mkGrid 10 10) (Fin 10) (Fin 10) 0
       = Ret (Some best)
       /\ shape best = mkShape "square" 3 4
       /\ rStart best = 0 /\ cStart best = 0.
Proof.
  cbv zeta. split; [|split; [|split]].
  - change (analyzeImageCore
              (mkParams (uniformImage 100 100 0 0 0 alpha) (mkGrid 10 10) 12 false 0))
      with (placeText
              (mkParams (uniformImage 100 100 0 0 0 alpha) (mkGrid 10 10) 12 false 0)
              (Zn 100 / Zn 10)%num (Zn 100 / Zn 10)%num
              (computeCellStats (uniformImage 100 100 0 0 0 alpha) (mkGrid 10 10)
                                (Zn 100 / Zn 10)%num (Zn 100 / Zn 10)%num)).
    rewrite black_image_stats. vm_compute. reflexivity.
  - vm_compute. reflexivity.
  - vm_compute. reflexivity.
  - exists (mkFound (Fin 0) (Fin 0) (Fin 40) (Fin 30)
                    (mkColor (Fin 0) (Fin 0) (Fin 0)) 0 0 (Fin 0)
                    (mkShape "square" 3 4)).
    split; [vm_compute; reflexivity|repeat split].
Qed.

(** C2.  Whenever the search returns a rectangle - under any arithmetic of
    the sums and quotients, the exact one or that of the doubles - it is the
    first pair of least average busyness among all tested (shape, position)
    pairs, shapes in generation order and positions row by row.  The average
    of a pair is that of the statistics of the cells it covers: their
    busyness added up in row order and divided by their number.  The
    returned average is the one of the returned pair, every pair scanned
    before it covers no cell or has an average that is not below or equal to
    it, and every pair scanned after it covers no cell or has an average
    that is not below it. *)
Theorem search_keeps_first_minimum (add mul div : num -> num -> num)
    (floor : num -> num) (shapes : list ShapeToFind)
    (cellStats : list CellStat) (g : GridConfig) (cw ch : num) (b : Z)
    (best : FoundRectInfo) :
  searchShapesWith add mul div floor shapes cellStats g cw ch b
  = Ret (Some best) ->
  exists before after cells,
    testedPairs shapes g b
    = before ++ (shape best, (rStart best, cStart best)) :: after
    /\ coveredStats cellStats g (shape best, (rStart best, cStart best))
       = Some cells
    /\ cells <> []
    /\ avgBusyness best = meanBusyness add div cells
    /\ Forall (notBetter true add div cellStats g (avgBusyness best)) before
    /\ Forall (notBetter false add div cellStats g (avgBusyness best)) after.
Proof.
  intro F.
  destruct (searchShapesWith_firstMinimum add mul div floor cellStats g cw ch
              b shapes best F) as (before & after & E & V & SB & WA).
  destruct (candidateAvgWith_mean _ _ _ _ _ _ V) as (cells & A & NE & M).
  exists before, after, cells.
  split; [exact E|]. split; [exact A|]. split; [exact NE|]. split; [exact M|].
  split; (eapply Forall_impl; [|eassumption]); intros sp L;
    exact (loses_notBetter _ _ _ _ _ _ _ L).
Qed.

Lemma search_keeps_first_minimum_witness :
  searchShapesWith Num.add Num.mul Num.div Num.floor demoShapes demoStats
                   demoGrid (Zn 10) (Zn 10) 0 = Ret (Some demoBest)
  /\ exists before after cells,
       testedPairs demoShapes demoGrid 0
       = before ++ (shape demoBest, (rStart demoBest, cStart demoBest)) :: after
       /\ coveredStats demoStats demoGrid
            (shape demoBest, (rStart demoBest, cStart demoBest)) = Some cells
       /\ cells <> []
       /\ avgBusyness demoBest = meanBusyness Num.add Num.div cells
       /\ Forall (notBetter true Num.add Num.div demoStats demoGrid
                            (avgBusyness demoBest)) before
       /\ Forall (notBetter false Num.add Num.div demoStats demoGrid
                            (avgBusyness demoBest)) after.
Proof.
  split.
  - vm_compute. reflexivity.
  - apply (search_keeps_first_minimum Num.add Num.mul Num.div Num.floor
             demoShapes demoStats demoGrid (Zn 10) (Zn 10) 0).
    vm_compute. reflexivity.
Defined.

(** C6.  Any rectangle the search returns - for one shape or over all
    shapes - keeps the border: borderExclusion <= rStart,
    rStart + shape.rows <= rows - borderExclusion, and the same for
    columns. *)
Theorem found_rectangle_keeps_border (shapes : list ShapeToFind)
    (s : ShapeToFind) (cellStats : list CellStat) (g : GridConfig)
    (cw ch : num) (b : Z) (best : FoundRectInfo) :
  searchShapes shapes cellStats g cw ch b = Ret (Some best)
  \/ findBestRectForGivenShape s cellStats g cw ch b = Ret (Some best) ->
  b <= rStart best
  /\ rStart best + srows (shape best) <= rows g - b
  /\ b <= cStart best
  /\ cStart best + scols (shape best) <= cols g - b.
Proof.
  intros [F|F].
  - exact (searchShapes_inside cellStats g cw ch b shapes best F).
  - exact (proj2 (findBestRectForGivenShape_inside cellStats g cw ch b s best F)).
Qed.

Lemma found_rectangle_keeps_border_witness :
  searchShapes demoShapes demoStats demoGrid (Zn 10) (Zn 10) 0 = Ret (Some demoBest)
  /\ 0 <= rStart demoBest
  /\ rStart demoBest + srows (shape demoBest) <= rows demoGrid - 0
  /\ 0 <= cStart demoBest
  /\ cStart demoBest + scols (shape demoBest) <= cols demoGrid - 0.
Proof.
  split.
  - vm_compute. reflexivity.
  - apply (found_rectangle_keeps_border demoShapes (mkShape "square" 1 1)
             demoStats demoGrid (Zn 10) (Zn 10) 0).
    left. vm_compute. reflexivity.
Defined.

(** C7.  For a target area of at least 1, every generated shape has
    1 <= rows <= maxRows, 1 <= cols <= maxCols and
    rows * cols >= 0.8 * targetArea, and no two generated shapes have the
    same (rows, cols). *)
Theorem generateShapesToTest_sound (targetArea maxRows maxCols : Z) :
  1 <= targetArea ->
  Forall (fun s =>
            1 <= srows s <= maxRows /\ 1 <= scols s <= maxCols
            /\ (inject_Z targetArea * (8 # 10) <= inject_Z (srows s * scols s))%Q)
         (generateShapesToTest targetArea maxRows maxCols)
  /\ NoDup (map (fun s => (srows s, scols s))
                (generateShapesToTest targetArea maxRows maxCols)).
Proof. intros _. exact (generateShapesToTest_ok targetArea maxRows maxCols). Qed.

Lemma generateShapesToTest_sound_witness :
  1 <= 12
  /\ Forall (fun s =>
               1 <= srows s <= 10 /\ 1 <= scols s <= 10
               /\ (inject_Z 12 * (8 # 10) <= inject_Z (srows s * scols s))%Q)
            (generateShapesToTest 12 10 10)
  /\ NoDup (map (fun s => (srows s, scols s)) (generateShapesToTest 12 10 10)).
Proof.
  split; [lia|]. apply (generateShapesToTest_sound 12 10 10). lia.
Defined.

(** C10.  For a width that is zero or negative [wrapTextCanvas] returns no
    line, whatever the text and the measure. *)
Theorem wrapTextCanvas_degenerate_width (measure : string -> num)
    (text : string) (maxWidth : num) :
  (maxWidth <=? Zn 0)%num = true -> wrapTextCanvas measure text maxWidth = [].
Proof.
  intro H. unfold wrapTextCanvas. rewrite H, orb_true_r. reflexivity.
Qed.

Lemma wrapTextCanvas_degenerate_width_witness :
  (Zn 0 <=? Zn 0)%num = true /\ wrapTextCanvas charCount sampleText (Zn 0) = [].
Proof.
  split; [reflexivity|].
  apply (wrapTextCanvas_degenerate_width charCount sampleText (Zn 0)). reflexivity.
Defined.

(** C3, as stated, fails: with one unit per character and a width of 3, the
    text "aaaa b" wraps to the single line "aaaa"; the word "b" is dropped,
    so joining the lines does not give back the normalised text. *)
Lemma wrapTextCanvas_drops_after_overlong_first_word :
  wrapTextCanvas charCount "aaaa b" (Zn 3) = ["aaaa"%string]
  /\ whitespaceNormalized "aaaa b" = "aaaa b"%string
  /\ join (wrapTextCanvas charCount "aaaa b" (Zn 3)) <> whitespaceNormalized "aaaa b".
Proof.
  split; [reflexivity|]. split; [reflexivity|]. vm_compute. discriminate.
Qed.

(** C3, amended.  For a text that is not blank and a positive width: when
    the first word - or, after leading spaces, the first non-empty word - is
    wider than the width, [wrapTextCanvas] returns that word alone; in every
    other case the non-empty words between spaces of the joined lines are
    exactly those of the text, in order, none dropped and none repeated. *)
Theorem wrapTextCanvas_keeps_words (measure : string -> num) (maxWidth : num)
    (text : string) :
  isBlank text = false -> (Zn 0 <? maxWidth)%num = true ->
  match overlongHead measure maxWidth (split text) with
  | Some w => wrapTextCanvas measure text maxWidth = [w]
  | None =>
      wordsOf (join (wrapTextCanvas measure text maxWidth)) = wordsOf text
  end.
Proof. exact (wrapTextCanvas_words measure maxWidth text). Qed.

Lemma wrapTextCanvas_keeps_words_witness :
  isBlank "aa bbbbbbbb cc dd" = false
  /\ (Zn 0 <? Zn 6)%num = true
  /\ wrapTextCanvas charCount "aa bbbbbbbb cc dd" (Zn 6)
     = ["aa"; "bbbbbbbb"; "cc dd"]%string
  /\ wordsOf (join (wrapTextCanvas charCount "aa bbbbbbbb cc dd" (Zn 6)))
     = wordsOf "aa bbbbbbbb cc dd".
Proof.
  split; [reflexivity|]. split; [reflexivity|]. split; [reflexivity|].
  exact (wrapTextCanvas_keeps_words charCount (Zn 6) "aa bbbbbbbb cc dd"
           eq_refl eq_refl).
Defined.

(** C4, as stated, fails: for the sample text in a 60x40 rectangle, with
    characters half a font size wide, no size from 12 down to 8 fits; the
    wrap at size 8 has three lines, yet the call issues no [fillText]. *)
Lemma render_omits_text_when_nothing_fits :
  isBlank sampleText = false
  /\ (availableRectWidth smallRectResult >? Zn 0)%num = true
  /\ (availableRectHeight smallRectResult >? Zn 0)%num = true
  /\ noSizeFits halfEm sampleText (availableRectWidth smallRectResult)
                (availableRectHeight smallRectResult)
                (startFontSize smallRectResult) = true
  /\ wrapTextCanvas (halfEm (ArialPx (Zn 8))) sampleText
                    (availableRectWidth smallRectResult)
     = ["Your"; "Awesome"; "Text Here"]%string
  /\ exists ctx',
       renderTextWithDynamicSizing halfEm freshCanvas sampleText smallRectResult
                                   (Zn 100) (Zn 100) = Some ctx'
       /\ textCalls (calls ctx') = [].
Proof.
  repeat (split; [vm_compute; reflexivity|]).
  eexists. split; vm_compute; reflexivity.
Qed.

(** C4, amended.  When no font size of the range makes the wrapped block
    fit, [renderTextWithDynamicSizing] draws no text at all: it issues no
    [fillText] call, and the wrap at the smallest size is not used. *)
Theorem render_draws_no_text_when_nothing_fits
    (measureText : Font -> string -> num) (ctx : Canvas) (text : string)
    (r : AnalysisResult) (W H : num) (ctx' : Canvas) :
  renderTextWithDynamicSizing measureText ctx text r W H = Some ctx' ->
  noSizeFits measureText text (availableRectWidth r) (availableRectHeight r)
             (startFontSize r) = true ->
  textCalls (calls ctx') = textCalls (calls ctx).
Proof.
  intros R NF. apply render_inv in R. destruct R as (st & -> & C & E).
  rewrite (drawLines_nothing _ _ _ _ _ (E NF)), C, drawScrim_calls, textCalls_app.
  destruct (needsScrim r); simpl; apply app_nil_r.
Qed.

Lemma render_draws_no_text_when_nothing_fits_witness :
  renderTextWithDynamicSizing halfEm freshCanvas sampleText smallRectResult
                              (Zn 100) (Zn 100)
  = Some (mkCanvas (Plain "white") (ArialPx (Fin 8)) "start" "alphabetic" [])
  /\ noSizeFits halfEm sampleText (availableRectWidth smallRectResult)
                (availableRectHeight smallRectResult)
                (startFontSize smallRectResult) = true
  /\ textCalls (calls (mkCanvas (Plain "white") (ArialPx (Fin 8)) "start"
                                "alphabetic" []))
     = textCalls (calls freshCanvas).
Proof.
  split; [vm_compute; reflexivity|]. split; [vm_compute; reflexivity|].
  apply (render_draws_no_text_when_nothing_fits halfEm freshCanvas sampleText
           smallRectResult (Zn 100) (Zn 100)); vm_compute; reflexivity.
Defined.


(** C9, evaluated where the code departs from it.  For the 4x3 image with
    one light cyan pixel, [analyzeImageCore] chooses the text colour
    "rgb(99, 255, 255)" with a contrast ratio below 4.  That colour is light
    (luminance above 128), but the fixed-offset parse of the renderer reads
    the channels 99, 55, 55, takes the text for dark and draws a white
    scrim. *)
Theorem scrim_colour_misreads_short_channels :
  (exists res hover,
     analyzeImageCore cyanParams = Ret (mkCore (Some res) hover, [])
     /\ textColor res = "rgb(99, 255, 255)"%string
     /\ (textContrastRatio res <? CONTRAST_THRESHOLD_FOR_SCRIM)%num = true
     /\ exists ctx' x y w h,
          renderTextWithDynamicSizing halfEm freshCanvas sampleText res
                                      (Zn 4) (Zn 3) = Some ctx'
          /\ rectCalls (calls ctx')
             = [FillRect (Rgba "255,255,255" (dec 6 10)) x y w h])
  /\ textColorObject "rgb(99, 255, 255)" = mkColor (Zn 99) (Zn 255) (Zn 255)
  /\ (getLuminance (Zn 99) (Zn 255) (Zn 255) <? Zn 128)%num = false
  /\ parseInt (orElse (jsSubstring 4 7 "rgb(99, 255, 255)") "0") = Zn 99
  /\ parseInt (orElse (jsSubstring 9 12 "rgb(99, 255, 255)") "0") = Zn 55
  /\ parseInt (orElse (jsSubstring 14 17 "rgb(99, 255, 255)") "0") = Zn 55
  /\ textIsDark "rgb(99, 255, 255)" = true
  /\ scrimBaseColor "rgb(99, 255, 255)" = "255,255,255"%string.
Proof.
  split.
  - eexists. eexists. split; [vm_compute; reflexivity|].
    split; [reflexivity|]. split; [vm_compute; reflexivity|].
    do 5 eexists. split; vm_compute; reflexivity.
  - repeat split; vm_compute; reflexivity.
Qed.

(** Without room for a single cell the generator returns no shape. *)
Lemma generateShapesToTest_no_room (targetArea : Z) (g : GridConfig) (b : Z) :
  0 <= b -> rows g <= 0 \/ cols g <= 0 ->
  generateShapesToTest targetArea (rows g - 2 * b) (cols g - 2 * b) = [].
Proof.
  intros Hb Hg.
  destruct (generateShapesToTest_ok targetArea (rows g - 2 * b) (cols g - 2 * b))
    as (Ok & _).
  destruct (generateShapesToTest _ _ _) as [|s rest]; [reflexivity|].
  inversion Ok as [|? ? (R & C & _) _]; subst. lia.
Qed.

(** C5, as stated, fails: for a grid without rows the hover data is not
    null; the call reports that no shape could be generated and returns the
    (empty) statistics. *)
Lemma analyzeImageCore_no_rows_keeps_hover_data :
  rows (gridConfig noRowsParams) <= 0
  /\ analyzeImageCore noRowsParams
     = Ret (mkCore None
                   (Some (mkHover [] (mkGrid 0 10) (Fin (1 # 5)) PInf 2 2)),
            [noShapesMessage])
  /\ analyzeImageCore noRowsParams <> Ret (mkCore None None, []).
Proof.
  split; [vm_compute; discriminate|].
  split; [vm_compute; reflexivity|]. vm_compute. discriminate.
Qed.

(** C5, amended.  For a border exclusion that is not negative and a target
    area of at least 1, [analyzeImageCore] does not throw.  With a zero
    width or height it returns a null result and null hover data.  In every
    other case it returns the hover data with the computed statistics, and
    the result is null when the generator yields no shape - which is what
    happens for a grid with no row or no column - or when the search keeps
    no rectangle. *)
Theorem analyzeImageCore_null_outcomes (p : ImageAnalysisCoreParams) :
  0 <= borderExclusionCells p -> 1 <= targetAreaValue p ->
  let img := imageData p in
  let g := gridConfig p in
  let b := borderExclusionCells p in
  let cw := (Zn (imgWidth img) / Zn (cols g))%num in
  let ch := (Zn (imgHeight img) / Zn (rows g))%num in
  let cellStats := computeCellStats img g cw ch in
  let shapes :=
    generateShapesToTest (targetAreaValue p) (rows g - 2 * b) (cols g - 2 * b) in
  exists core msgs,
    analyzeImageCore p = Ret (core, msgs)
    /\ (imgWidth img = 0 \/ imgHeight img = 0 -> core = mkCore None None)
    /\ (imgWidth img <> 0 /\ imgHeight img <> 0 ->
        analysisDataForHover core
        = Some (mkHover cellStats g cw ch (imgWidth img) (imgHeight img))
        /\ (rows g <= 0 \/ cols g <= 0 -> shapes = [])
        /\ (shapes = [] -> analysisResultData core = None)
        /\ (searchShapes shapes cellStats g cw ch b = Ret None ->
            analysisResultData core = None)).
Proof.
  intros Hb _. cbv zeta. unfold analyzeImageCore. cbv zeta.
  destruct ((imgWidth (imageData p) =? 0) || (imgHeight (imageData p) =? 0)) eqn:Z.
  - exists (mkCore None None), []. split; [reflexivity|]. split; [reflexivity|].
    intros (Hw & Hh). apply orb_true_iff in Z.
    destruct Z as [Z|Z]; apply Z.eqb_eq in Z; contradiction.
  - apply orb_false_iff in Z. destruct Z as (Zw & Zh).
    apply Z.eqb_neq in Zw, Zh.
    assert (NoRoom := generateShapesToTest_no_room (targetAreaValue p)
                        (gridConfig p) (borderExclusionCells p) Hb).
    unfold placeText. cbv zeta.
    set (cw := (Zn (imgWidth (imageData p)) / Zn (cols (gridConfig p)))%num) in *.
    set (ch := (Zn (imgHeight (imageData p)) / Zn (rows (gridConfig p)))%num) in *.
    set (cellStats := computeCellStats (imageData p) (gridConfig p) cw ch) in *.
    set (shapes := generateShapesToTest _ _ _) in *.
    assert (Cov : coversGrid (gridConfig p) cellStats) by apply gridStats_covers.
    destruct (List.length shapes =? 0)%nat eqn:L.
    + eexists. eexists. split; [reflexivity|].
      split; [intros [E|E]; contradiction|]. intros _. simpl.
      repeat split; auto.
    + apply Nat.eqb_neq in L.
      destruct (searchShapes_returns cellStats (gridConfig p) Cov cw ch
                  (borderExclusionCells p) Hb shapes) as (res & E).
      rewrite E. cbn [bind].
      destruct res as [best|].
      * destruct (chooseTextColor_returns cellStats (gridConfig p) Cov
                    (borderExclusionCells p) Hb
                    (useAverageCellColorForText p) best
                    (searchShapes_inside _ _ _ _ _ _ _ E)) as (color & EC).
        rewrite EC. cbn [bind].
        eexists. eexists. split; [reflexivity|].
        split; [intros [X|X]; contradiction|]. intros _. simpl.
        split; [reflexivity|]. split; [exact NoRoom|]. split.
        -- intro S0. rewrite S0 in L. now elim L.
        -- discriminate.
      * eexists. eexists. split; [reflexivity|].
        split; [intros [X|X]; contradiction|]. intros _. simpl.
        repeat split; auto.
Qed.

Lemma analyzeImageCore_null_outcomes_witness :
  0 <= borderExclusionCells noRowsParams
  /\ 1 <= targetAreaValue noRowsParams
  /\ exists core msgs,
       analyzeImageCore noRowsParams = Ret (core, msgs)
       /\ analysisResultData core = None.
Proof.
  split; [vm_compute; discriminate|]. split; [vm_compute; discriminate|].
  destruct (analyzeImageCore_null_outcomes noRowsParams)
    as (core & msgs & E & _ & Rest).
  - vm_compute. discriminate.
  - vm_compute. discriminate.
  - exists core, msgs. split; [exact E|].
    destruct Rest as (_ & NoRoom & Empty & _).
    + split; vm_compute; discriminate.
    + apply Empty. apply NoRoom. left. vm_compute. discriminate.
Defined.

(* ------------------------------------------------------------------ *)
(** * Further properties of the code *)

(** ** Numbers in lowest terms *)

Lemma Qred_twice (q : Q) : Qred (Qred q) = Qred q.
Proof. apply Qred_involutive. Qed.

Lemma Fin_canonical_eq (x y : Q) :
  Qred x = x -> Qred y = y -> (x == y)%Q -> Fin x = Fin y.
Proof.
  intros Cx Cy E. rewrite <- Cx, <- Cy. f_equal. now apply Qred_complete.
Qed.

Lemma Qred_inject_Z (z : Z) : Qred (inject_Z z) = inject_Z z.
Proof. apply Qred_identity. simpl. apply Z.gcd_1_r. Qed.

Lemma canonical_Zn (z : Z) : canonical (Zn z).
Proof. apply Qred_inject_Z. Qed.

Lemma canonical_add (a b : num) : canonical (a + b)%num.
Proof. destruct a, b; try exact I; exact (Qred_twice _). Qed.

Lemma canonical_neg (a : num) : canonical (Num.neg a).
Proof. destruct a; try exact I; exact (Qred_twice _). Qed.

Lemma canonical_sub (a b : num) : canonical (a - b)%num.
Proof. apply canonical_add. Qed.

Lemma canonical_signed (s : Q) (a : num) :
  canonical a -> canonical (Num.signed s a).
Proof.
  intro C. unfold Num.signed. destruct (s ?= 0)%Q; [exact I|destruct a|exact C];
    try exact I. exact (Qred_twice _).
Qed.

Lemma canonical_mul (a b : num) : canonical (a * b)%num.
Proof.
  destruct a, b; try exact I; try exact (Qred_twice _);
    apply canonical_signed; exact I.
Qed.

Lemma canonical_div (a b : num) : canonical (a / b)%num.
Proof.
  destruct a as [x| | |], b as [y| | |]; try exact I; try reflexivity.
  - unfold Num.div. destruct (Qeq_bool y 0); [|exact (Qred_twice _)].
    apply canonical_signed. exact I.
  - unfold Num.div. destruct (Qltb y 0); exact I.
  - unfold Num.div. destruct (Qltb y 0); exact I.
Qed.

Lemma canonical_floor (a : num) : canonical a -> canonical (Num.floor a).
Proof. destruct a; simpl; auto. intros _. apply Qred_inject_Z. Qed.

(** On numbers in lowest terms the larger and the smaller of two do not
    depend on the order of the arguments. *)
Lemma max_comm (a b : num) :
  canonical a -> canonical b -> Num.max a b = Num.max b a.
Proof.
  destruct a as [x| | |], b as [y| | |]; simpl; try reflexivity.
  intros Cx Cy. unfold Qltb.
  destruct (Qcompare_spec x y) as [E|L|G].
  - rewrite (proj1 (Qeq_alt y x) (Qeq_sym _ _ E)).
    now apply Fin_canonical_eq.
  - rewrite (proj1 (Qgt_alt y x) L). reflexivity.
  - rewrite (proj1 (Qlt_alt y x) G). reflexivity.
Qed.

Lemma min_comm (a b : num) :
  canonical a -> canonical b -> Num.min a b = Num.min b a.
Proof.
  destruct a as [x| | |], b as [y| | |]; simpl; try reflexivity.
  intros Cx Cy. unfold Qltb.
  destruct (Qcompare_spec y x) as [E|L|G].
  - rewrite (proj1 (Qeq_alt x y) (Qeq_sym _ _ E)).
    now apply Fin_canonical_eq.
  - rewrite (proj1 (Qgt_alt x y) L). reflexivity.
  - rewrite (proj1 (Qlt_alt x y) G). reflexivity.
Qed.

(** ** Colour and contrast *)

Lemma canonical_getLuminance (r g b : num) : canonical (getLuminance r g b).
Proof. apply canonical_add. Qed.

(** X1.  The contrast ratio does not depend on the order of the two
    colours. *)
Theorem calculateContrastRatio_sym (color1 color2 : Color) :
  calculateContrastRatio color1 color2 = calculateContrastRatio color2 color1.
Proof.
  unfold calculateContrastRatio. cbv zeta.
  rewrite (max_comm _ _ (canonical_getLuminance _ _ _)
                        (canonical_getLuminance _ _ _)).
  rewrite (min_comm _ _ (canonical_getLuminance _ _ _)
                        (canonical_getLuminance _ _ _)).
  reflexivity.
Qed.

(** The luminance of a colour with finite channels. *)
Lemma getLuminance_Fin (r g b : Q) :
  exists l,
    getLuminance (Fin r) (Fin g) (Fin b) = Fin l
    /\ (l == (299 # 1000) * r + (587 # 1000) * g + (114 # 1000) * b)%Q.
Proof.
  eexists. split; [reflexivity|].
  repeat rewrite Qred_correct. reflexivity.
Qed.

Lemma getLuminance_nonneg (c : Color) :
  colourNonneg c ->
  exists l, getLuminance (cr c) (cg c) (cb c) = Fin l /\ (0 <= l)%Q.
Proof.
  destruct c as [[r| | |] [g| | |] [b| | |]]; unfold colourNonneg; simpl;
    try tauto.
  intros (Hr & Hg & Hb).
  destruct (getLuminance_Fin r g b) as (l & E & V).
  exists l. split; [exact E|]. rewrite V. nra.
Qed.

(** The ratio of two finite luminances above the offset 12.75. *)
Lemma ratio_Fin (hi lo : Q) :
  (0 <= lo)%Q ->
  ((Fin hi + dec 5 100 * Zn 255) / (Fin lo + dec 5 100 * Zn 255))%num
  = Fin (Qred ((hi + (51 # 4)) / (lo + (51 # 4)))).
Proof.
  intro L.
  replace (dec 5 100 * Zn 255)%num with (Fin (51 # 4)) by reflexivity.
  change (Fin hi + Fin (51 # 4))%num with (Fin (Qred (hi + (51 # 4)))).
  change (Fin lo + Fin (51 # 4))%num with (Fin (Qred (lo + (51 # 4)))).
  unfold Num.div.
  destruct (Qeq_bool (Qred (lo + (51 # 4))) 0) eqn:Z.
  - apply Qeq_bool_eq in Z. rewrite Qred_correct in Z. lra.
  - f_equal. apply Qred_complete. rewrite !Qred_correct. reflexivity.
Qed.

Lemma contrast_of_luminances (color1 color2 : Color) (l1 l2 : Q) :
  getLuminance (cr color1) (cg color1) (cb color1) = Fin l1 ->
  getLuminance (cr color2) (cg color2) (cb color2) = Fin l2 ->
  (0 <= l1)%Q -> (0 <= l2)%Q ->
  calculateContrastRatio color1 color2
  = Fin (Qred ((Qmax l1 l2 + (51 # 4)) / (Qmin l1 l2 + (51 # 4)))).
Proof.
  intros E1 E2 P1 P2. unfold calculateContrastRatio. cbv zeta.
  rewrite E1, E2. cbn [Num.max Num.min Num.ltb]. unfold Qltb.
  destruct (Qcompare_spec l1 l2) as [E|L|G].
  - rewrite (proj1 (Qeq_alt l2 l1) (Qeq_sym _ _ E)).
    rewrite ratio_Fin by assumption. f_equal. apply Qred_complete.
    rewrite (Q.max_l l1 l2), (Q.min_l l1 l2); [reflexivity| |]; rewrite E;
      apply Qle_refl.
  - rewrite (proj1 (Qgt_alt l2 l1) L).
    rewrite ratio_Fin by assumption. f_equal. apply Qred_complete.
    rewrite (Q.max_r l1 l2), (Q.min_l l1 l2); [reflexivity| |];
      apply Qlt_le_weak; exact L.
  - rewrite (proj1 (Qlt_alt l2 l1) G).
    rewrite ratio_Fin by assumption. f_equal. apply Qred_complete.
    rewrite (Q.max_l l1 l2), (Q.min_r l1 l2); [reflexivity| |];
      apply Qlt_le_weak; exact G.
Qed.

(** X2.  For colours whose channels are finite and not negative the contrast
    ratio is a finite number of at least 1. *)
Theorem calculateContrastRatio_at_least_one (color1 color2 : Color) :
  colourNonneg color1 -> colourNonneg color2 ->
  exists q, calculateContrastRatio color1 color2 = Fin q /\ (1 <= q)%Q.
Proof.
  intros N1 N2.
  destruct (getLuminance_nonneg color1 N1) as (l1 & E1 & P1).
  destruct (getLuminance_nonneg color2 N2) as (l2 & E2 & P2).
  eexists. split; [exact (contrast_of_luminances _ _ l1 l2 E1 E2 P1 P2)|].
  rewrite Qred_correct.
  assert (Lo : (0 <= Qmin l1 l2)%Q) by (apply Q.min_glb; assumption).
  assert (Hi : (Qmin l1 l2 <= Qmax l1 l2)%Q).
  { apply Qle_trans with l1; [apply Q.le_min_l|apply Q.le_max_l]. }
  apply Qle_shift_div_l; lra.
Qed.

Lemma calculateContrastRatio_at_least_one_witness :
  colourNonneg (mkColor (Zn 255) (Zn 255) (Zn 255))
  /\ colourNonneg (mkColor (Zn 0) (Zn 0) (Zn 0))
  /\ exists q,
       calculateContrastRatio (mkColor (Zn 255) (Zn 255) (Zn 255))
                              (mkColor (Zn 0) (Zn 0) (Zn 0)) = Fin q
       /\ (1 <= q)%Q.
Proof.
  assert (W : colourNonneg (mkColor (Zn 255) (Zn 255) (Zn 255))).
  { repeat split; simpl; discriminate. }
  assert (B : colourNonneg (mkColor (Zn 0) (Zn 0) (Zn 0))).
  { repeat split; simpl; discriminate. }
  split; [exact W|]. split; [exact B|].
  exact (calculateContrastRatio_at_least_one _ _ W B).
Defined.

(** X3.  A colour with finite channels that are not negative has contrast
    ratio exactly 1 with itself. *)
Theorem calculateContrastRatio_self (color : Color) :
  colourNonneg color -> calculateContrastRatio color color = Fin 1.
Proof.
  intro N. destruct (getLuminance_nonneg color N) as (l & E & P).
  rewrite (contrast_of_luminances _ _ l l E E P P).
  change (Fin 1) with (Fin (Qred 1)). f_equal. apply Qred_complete.
  rewrite Q.max_id, Q.min_id. field. lra.
Qed.

Lemma calculateContrastRatio_self_witness :
  colourNonneg (mkColor (Zn 12) (Zn 200) (Zn 7))
  /\ calculateContrastRatio (mkColor (Zn 12) (Zn 200) (Zn 7))
                            (mkColor (Zn 12) (Zn 200) (Zn 7)) = Fin 1.
Proof.
  assert (W : colourNonneg (mkColor (Zn 12) (Zn 200) (Zn 7))).
  { repeat split; simpl; discriminate. }
  split; [exact W|]. exact (calculateContrastRatio_self _ W).
Defined.

(** The ratio the black-or-white rule leaves. *)
Lemma blackOrWhite_ratio (rectBgColor : Color) :
  colourNonneg rectBgColor ->
  exists q,
    calculateContrastRatio (textColorObject (blackOrWhite rectBgColor)) rectBgColor
    = Fin q
    /\ (19 # 10 <= q)%Q.
Proof.
  intro N. destruct (getLuminance_nonneg rectBgColor N) as (l & E & P).
  unfold blackOrWhite. rewrite E. unfold Num.gtb.
  change (Zn 128 <? Fin l)%num with (Qltb (inject_Z 128) l).
  destruct (Qltb (inject_Z 128) l) eqn:C.
  - apply Qltb_lt in C. change (inject_Z 128) with (128 # 1)%Q in C.
    change (textColorObject "black") with (mkColor (Zn 0) (Zn 0) (Zn 0)).
    eexists. split.
    + apply (contrast_of_luminances _ _ 0 l); [reflexivity|exact E|lra|exact P].
    + rewrite Qred_correct, (Q.max_r 0 l), (Q.min_l 0 l) by exact P.
      apply Qle_shift_div_l; lra.
  - apply Qltb_ge in C. change (inject_Z 128) with (128 # 1)%Q in C.
    change (textColorObject "white") with (mkColor (Zn 255) (Zn 255) (Zn 255)).
    eexists. split.
    + apply (contrast_of_luminances _ _ 255 l); [reflexivity|exact E|lra|exact P].
    + rewrite Qred_correct, (Q.max_l 255 l), (Q.min_r 255 l) by lra.
      apply Qle_shift_div_l; lra.
Qed.

(** X4.  The black-or-white rule always leaves a contrast ratio of at least
    1.9 between the text colour it picks and the background. *)
Theorem blackOrWhite_contrast (rectBgColor : Color) :
  colourNonneg rectBgColor ->
  exists q,
    calculateContrastRatio (textColorObject (blackOrWhite rectBgColor)) rectBgColor
    = Fin q
    /\ (19 # 10 <= q)%Q.
Proof. exact (blackOrWhite_ratio rectBgColor). Qed.

Lemma blackOrWhite_contrast_witness :
  colourNonneg (mkColor (Zn 128) (Zn 128) (Zn 128))
  /\ exists q,
       calculateContrastRatio
         (textColorObject (blackOrWhite (mkColor (Zn 128) (Zn 128) (Zn 128))))
         (mkColor (Zn 128) (Zn 128) (Zn 128)) = Fin q
       /\ (19 # 10 <= q)%Q.
Proof.
  assert (W : colourNonneg (mkColor (Zn 128) (Zn 128) (Zn 128))).
  { repeat split; simpl; discriminate. }
  split; [exact W|]. exact (blackOrWhite_contrast _ W).
Defined.

(** ** Names and order of the generated shapes *)

Lemma aspect_name_total (r c : Z) :
  (Qmax 1 (inject_Z (Z.min r c) * (25 # 100)) < inject_Z (Z.abs (r - c)))%Q ->
  (inject_Z c <= inject_Z r * (125 # 100))%Q ->
  (inject_Z r <= inject_Z c * (125 # 100))%Q -> False.
Proof.
  intros S L P.
  pose proof (Q.le_max_r 1 (inject_Z (Z.min r c) * (25 # 100))) as M.
  destruct (Z_le_gt_dec r c) as [Hle|Hgt].
  - rewrite Z.min_l in * by lia. rewrite Z.abs_neq in S by lia.
    replace (- (r - c)) with (c + - r) in S by lia.
    rewrite inject_Z_plus, inject_Z_opp in S. lra.
  - rewrite Z.min_r in * by lia. rewrite Z.abs_eq in S by lia.
    unfold Z.sub in S. rewrite inject_Z_plus, inject_Z_opp in S. lra.
Qed.

Lemma addShape_named (targetArea maxRows maxCols : Z) (m : ShapeMap)
    (prefix : string) (r c : Z) :
  Forall namedByAspect (values m) ->
  Forall namedByAspect (values (addShape targetArea maxRows maxCols m prefix r c)).
Proof.
  intro N. unfold addShape.
  destruct (_ || _); [exact N|].
  destruct (negb _); [|exact N].
  unfold values. rewrite map_app. apply Forall_app. split; [exact N|].
  constructor; [|constructor]. unfold namedByAspect. cbn [snd sname srows scols].
  destruct (Qleb _ _) eqn:S.
  - left. split; [reflexivity|]. now apply Qleb_le.
  - destruct (Qltb (inject_Z r * _) _) eqn:L.
    + right; left. split; [reflexivity|]. now apply Qltb_lt.
    + destruct (Qltb (inject_Z c * _) _) eqn:P.
      * right; right. split; [reflexivity|]. now apply Qltb_lt.
      * exfalso. apply Qleb_gt in S. apply Qltb_ge in L. apply Qltb_ge in P.
        exact (aspect_name_total r c S L P).
Qed.

Lemma generateShapesToTest_named (targetArea maxRows maxCols : Z) :
  Forall namedByAspect (generateShapesToTest targetArea maxRows maxCols).
Proof.
  unfold generateShapesToTest. cbv zeta.
  repeat first
    [ apply addShape_named
    | match goal with
      | |- Forall _ (values (if ?b then _ else _)) => destruct b
      end
    | constructor ].
Qed.

(** X5.  For a target area of at least 1 and below 2^40, every generated
    shape is named by its aspect: "square" when the sides differ by at most
    max(1, a quarter of the shorter side), "landscape" when cols > 1.25 rows,
    "portrait" when rows > 1.25 cols.  The fourth name of the code,
    "near-square", is never given. *)
Theorem generateShapesToTest_names (targetArea maxRows maxCols : Z) :
  1 <= targetArea < 2 ^ 40 ->
  Forall (fun s => namedByAspect s /\ sname s <> "near-square"%string)
         (generateShapesToTest targetArea maxRows maxCols).
Proof.
  intros _. eapply Forall_impl;
    [|exact (generateShapesToTest_named targetArea maxRows maxCols)].
  intros s A. split; [exact A|].
  destruct A as [(E & _)|[(E & _)|(E & _)]]; rewrite E; discriminate.
Qed.

Lemma generateShapesToTest_names_witness :
  1 <= 12 < 2 ^ 40
  /\ Forall (fun s => namedByAspect s /\ sname s <> "near-square"%string)
            (generateShapesToTest 12 10 10).
Proof.
  split; [lia|]. apply (generateShapesToTest_names 12 10 10). lia.
Defined.





(** ** Cell boundaries *)

(** In exact arithmetic the boundary is the integer quotient. *)
Lemma cellEdge_div (size n i : Z) : 1 <= n -> cellEdge size n i = i * size / n.
Proof.
  intro N. unfold cellEdge.
  assert (NZ : Qeq_bool (inject_Z n) 0 = false).
  { destruct (Qeq_bool (inject_Z n) 0) eqn:E; [|reflexivity].
    apply Qeq_bool_eq in E. change 0%Q with (inject_Z 0) in E.
    apply (proj1 (inject_Z_injective n 0)) in E. lia. }
  unfold Zn, Num.div. rewrite NZ. cbn [Num.mul Num.floor].
  unfold Zn. cbn [floorZ]. rewrite Qfloor_Z, Zdiv_Qdiv. apply Qfloor_comp.
  rewrite !Qred_correct, inject_Z_mult. unfold Qdiv. ring.
Qed.

(** The boundaries as the exact quotients give them. *)
Lemma cellEdge_steps (size n i : Z) :
  1 <= n -> 0 <= size -> 0 <= i < n ->
  cellEdge size n 0 = 0
  /\ cellEdge size n n = size
  /\ 0 <= cellEdge size n i
  /\ cellEdge size n i <= cellEdge size n (i + 1) <= size
  /\ size / n <= cellEdge size n (i + 1) - cellEdge size n i <= size / n + 1.
Proof.
  intros N S I. rewrite !cellEdge_div by exact N.
  assert (E0 : 0 * size / n = 0) by (now rewrite Z.mul_0_l, Z.div_0_l by lia).
  assert (En : n * size / n = size)
    by (rewrite Z.mul_comm; apply Z.div_mul; lia).
  pose proof (Z.div_mod (i * size) n ltac:(lia)) as D1.
  pose proof (Z.mod_pos_bound (i * size) n ltac:(lia)) as M1.
  pose proof (Z.div_mod ((i + 1) * size) n ltac:(lia)) as D2.
  pose proof (Z.mod_pos_bound ((i + 1) * size) n ltac:(lia)) as M2.
  pose proof (Z.div_mod size n ltac:(lia)) as D3.
  pose proof (Z.mod_pos_bound size n ltac:(lia)) as M3.
  repeat split; try assumption; nia.
Qed.

(** X7.  The cell boundaries tile the image side, for sides and cell
    counts below 2^20: the first boundary is 0, they never decrease and never
    pass the side, every cell is floor(size/n) or one pixel more wide, and the
    last boundary is the side or one pixel before it.  When the side is a
    multiple of the cell count the boundaries are the exact multiples of the
    cell size, and the last is the side. *)
Theorem cellEdge_tiling (size n i : Z) :
  1 <= n < 2 ^ 20 -> 0 <= size < 2 ^ 20 -> 0 <= i < n ->
  cellEdge size n 0 = 0
  /\ size - 1 <= cellEdge size n n <= size
  /\ 0 <= cellEdge size n i
  /\ cellEdge size n i <= cellEdge size n (i + 1) <= size
  /\ size / n <= cellEdge size n (i + 1) - cellEdge size n i <= size / n + 1
  /\ ((n | size) ->
      cellEdge size n i = i * (size / n) /\ cellEdge size n n = size).
Proof.
  intros (N & _) (S & _) I.
  destruct (cellEdge_steps size n i N S I) as (E0 & En & P & M & Wd).
  split; [exact E0|]. split; [lia|]. split; [exact P|]. split; [exact M|].
  split; [exact Wd|].
  intros (k & ->). split; [|exact En].
  rewrite cellEdge_div by exact N. rewrite Z.div_mul by lia.
  replace (i * (k * n)) with (i * k * n) by ring. apply Z.div_mul. lia.
Qed.

Lemma cellEdge_tiling_witness :
  1 <= 4 < 2 ^ 20 /\ 0 <= 100 < 2 ^ 20 /\ 0 <= 1 < 4
  /\ cellEdge 100 4 0 = 0
  /\ 100 - 1 <= cellEdge 100 4 4 <= 100
  /\ 0 <= cellEdge 100 4 1
  /\ cellEdge 100 4 1 <= cellEdge 100 4 (1 + 1) <= 100
  /\ 100 / 4 <= cellEdge 100 4 (1 + 1) - cellEdge 100 4 1 <= 100 / 4 + 1
  /\ ((4 | 100) ->
      cellEdge 100 4 1 = 1 * (100 / 4) /\ cellEdge 100 4 4 = 100).
Proof.
  split; [lia|]. split; [lia|]. split; [lia|].
  apply (cellEdge_tiling 100 4 1); lia.
Defined.

(** ** The statistics of one cell *)

Lemma fold_left_nested {A B C : Type} (F : A -> B * C -> A) (xs : B -> list C)
    (ys : list B) (a : A) :
  fold_left (fun acc y => fold_left (fun acc x => F acc (y, x)) (xs y) acc) ys a
  = fold_left F (flat_map (fun y => map (fun x => (y, x)) (xs y)) ys) a.
Proof.
  revert a. induction ys as [|y ys IH]; intro a; [reflexivity|].
  cbn [fold_left flat_map]. rewrite fold_left_app, IH. f_equal.
  generalize (xs y) a. clear. intros l. induction l as [|x l IHl]; intro a;
    [reflexivity|]. cbn [map fold_left]. apply IHl.
Qed.

(** The statistics of a cell are those of its pixel list. *)
Lemma cellStat_pixels (look : Z -> num) (w : Z) (cw ch : num) (r c : Z) :
  cellStat look w cw ch r c
  = finishCell (fold_left (addPixel look w) (cellPixels cw ch r c)
                          (mkAcc (Zn 0) (Zn 0) (Zn 0) [] 0)).
Proof.
  unfold cellPixels. cbv zeta. rewrite <- fold_left_nested. reflexivity.
Qed.

(** Inside the grid the pixels of a cell are pixels of the image. *)
Lemma cellPixels_in_image (w h : Z) (g : GridConfig) (r c y x : Z) :
  1 <= rows g -> 1 <= cols g -> 0 <= w -> 0 <= h ->
  0 <= r < rows g -> 0 <= c < cols g ->
  In (y, x) (cellPixels (Zn w / Zn (cols g)) (Zn h / Zn (rows g)) r c) ->
  0 <= x < w /\ 0 <= y < h.
Proof.
  intros R C W H Hr Hc I. unfold cellPixels in I. cbv zeta in I.
  change (floorZ (Num.floor (Zn c * (Zn w / Zn (cols g)))))
    with (cellEdge w (cols g) c) in I.
  change (floorZ (Num.floor (Zn (c + 1) * (Zn w / Zn (cols g)))))
    with (cellEdge w (cols g) (c + 1)) in I.
  change (floorZ (Num.floor (Zn r * (Zn h / Zn (rows g)))))
    with (cellEdge h (rows g) r) in I.
  change (floorZ (Num.floor (Zn (r + 1) * (Zn h / Zn (rows g)))))
    with (cellEdge h (rows g) (r + 1)) in I.
  apply in_flat_map in I. destruct I as (y' & Hy & Hx).
  apply in_map_iff in Hx. destruct Hx as (x' & E & Hx).
  injection E as -> ->.
  apply upto_In in Hy. apply upto_In in Hx.
  pose proof (cellEdge_steps w (cols g) c C W Hc) as (_ & _ & X0 & X1 & _).
  pose proof (cellEdge_steps h (rows g) r R H Hr) as (_ & _ & Y0 & Y1 & _).
  lia.
Qed.

Lemma sample_in_range (img : ImageData) (i : Z) :
  wellFormed img -> 0 <= i < 4 * (imgWidth img * imgHeight img) ->
  exists v, sample (data img) i = Zn v /\ 0 <= v <= 255.
Proof.
  intros (_ & _ & L & B) I. unfold sample.
  destruct (Z_lt_le_dec i 0); zbool; [lia|].
  destruct (nth_error (data img) (Z.to_nat i)) as [v|] eqn:E.
  - exists v. split; [reflexivity|].
    rewrite Forall_forall in B. apply B. eapply nth_error_In. exact E.
  - apply nth_error_None in E. lia.
Qed.

Section FiniteArithmetic.

Lemma within_Zn (lo hi v : Z) :
  lo <= v <= hi -> within (inject_Z lo) (inject_Z hi) (Zn v).
Proof. intros (L & H). split; rewrite <- Zle_Qle; assumption. Qed.

Lemma within_add (l1 h1 l2 h2 : Q) (a b : num) :
  within l1 h1 a -> within l2 h2 b -> within (l1 + l2) (h1 + h2) (a + b)%num.
Proof.
  destruct a as [x| | |], b as [y| | |]; try (simpl; tauto).
  intros (A1 & A2) (B1 & B2).
  change (Fin x + Fin y)%num with (Fin (Qred (x + y))).
  unfold within. rewrite Qred_correct. lra.
Qed.

Lemma within_weaken (l h l' h' : Q) (a : num) :
  within l h a -> (l' <= l)%Q -> (h <= h')%Q -> within l' h' a.
Proof. destruct a; simpl; try tauto. intros (A & B) L H. lra. Qed.

Lemma within_nonneg (h : Q) (a : num) : within 0 h a -> nonneg a.
Proof. destruct a; simpl; tauto. Qed.

Lemma Zn_nonzero (n : Z) : 1 <= n -> Qeq_bool (inject_Z n) 0 = false.
Proof.
  intro N. destruct (Qeq_bool (inject_Z n) 0) eqn:E; [|reflexivity].
  apply Qeq_bool_eq in E. apply (proj1 (inject_Z_injective n 0)) in E. lia.
Qed.

Lemma Zn_positive (n : Z) : 1 <= n -> (0 < inject_Z n)%Q.
Proof. intro N. change 0%Q with (inject_Z 0). rewrite <- Zlt_Qlt. lia. Qed.

Lemma div_Fin (x : Q) (n : Z) :
  1 <= n -> (Fin x / Zn n)%num = Fin (Qred (x / inject_Z n)).
Proof. intro N. unfold Zn, Num.div. now rewrite Zn_nonzero. Qed.

Lemma within_div (h : Q) (a : num) (n : Z) :
  1 <= n -> within 0 (h * inject_Z n) a -> within 0 h (a / Zn n)%num.
Proof.
  intros N. destruct a as [x| | |]; try (simpl; tauto). intros (A & B).
  pose proof (Zn_positive n N) as P.
  rewrite div_Fin by exact N. unfold within. rewrite Qred_correct. split.
  - apply Qle_shift_div_l; lra.
  - apply Qle_shift_div_r; lra.
Qed.

Lemma nonneg_div (a : num) (n : Z) :
  1 <= n -> nonneg a -> nonneg (a / Zn n)%num.
Proof.
  intros N. destruct a as [x| | |]; try (simpl; tauto). intro A.
  pose proof (Zn_positive n N) as P.
  rewrite div_Fin by exact N. unfold nonneg in *. rewrite Qred_correct.
  apply Qle_shift_div_l; lra.
Qed.

Lemma getLuminance_bytes (r g b : num) :
  within 0 255 r -> within 0 255 g -> within 0 255 b ->
  within 0 255 (getLuminance r g b).
Proof.
  destruct r as [x| | |], g as [y| | |], b as [z| | |]; try (simpl; tauto).
  intros (A1 & A2) (B1 & B2) (C1 & C2).
  destruct (getLuminance_Fin x y z) as (l & E & V).
  rewrite E. unfold within. rewrite V. lra.
Qed.

(** Sums of squared deviations of finite numbers are finite and not
    negative. *)
Lemma squares_nonneg (ls : list num) (avg acc : num) :
  Forall (within 0 255) ls -> within 0 255 avg -> nonneg acc ->
  nonneg (reduce (fun a l => a + (l - avg) * (l - avg))%num ls acc).
Proof.
  unfold reduce. intros F A. revert acc.
  induction F as [|l ls Hl F IH]; intros acc N; [exact N|].
  cbn [fold_left]. apply IH.
  destruct l as [x| | |], avg as [m| | |], acc as [s| | |];
    try (simpl in *; tauto).
  change (0 <= Qred (s + Qred (Qred (x + Qred (- m)) * Qred (x + Qred (- m)))))%Q.
  unfold nonneg in N. rewrite !Qred_correct.
  assert (Sq : (0 <= (x + - m) * (x + - m))%Q).
  { destruct (Qlt_le_dec (x + - m) 0) as [Neg|Pos].
    - setoid_replace ((x + - m) * (x + - m))%Q
        with ((- (x + - m)) * (- (x + - m)))%Q by ring.
      apply Qmult_le_0_compat; lra.
    - apply Qmult_le_0_compat; exact Pos. }
  lra.
Qed.

Lemma sum_within (ls : list num) (acc : num) (n : Z) :
  Forall (within 0 255) ls -> within 0 (255 * inject_Z n) acc ->
  within 0 (255 * inject_Z (n + Z.of_nat (List.length ls)))
         (reduce (fun a l => a + l)%num ls acc).
Proof.
  unfold reduce. intro F. revert acc n.
  induction F as [|l ls Hl F IH]; intros acc n A; cbn [fold_left List.length].
  - now rewrite Z.add_0_r.
  - replace (n + Z.of_nat (S (List.length ls)))
      with ((n + 1) + Z.of_nat (List.length ls)) by lia.
    apply IH.
    eapply within_weaken; [exact (within_add _ _ _ _ _ _ A Hl)| |].
    + lra.
    + rewrite inject_Z_plus. change (inject_Z 1) with 1%Q. lra.
Qed.

End FiniteArithmetic.

(** What the pixel loops have accumulated after [n] pixels of byte
    samples. *)
Lemma addPixel_bytes (look : Z -> num) (w : Z) (ps : list (Z * Z))
    (acc : CellAcc) (n : Z) :
  (forall p k, In p ps -> 0 <= k <= 2 ->
               within 0 255 (look ((fst p * w + snd p) * 4 + k))) ->
  0 <= n -> pCount acc = n ->
  within 0 (255 * inject_Z n) (sumR acc) ->
  within 0 (255 * inject_Z n) (sumG acc) ->
  within 0 (255 * inject_Z n) (sumB acc) ->
  Forall (within 0 255) (luminances acc) ->
  Z.of_nat (List.length (luminances acc)) = n ->
  let acc' := fold_left (addPixel look w) ps acc in
  let n' := n + Z.of_nat (List.length ps) in
  pCount acc' = n'
  /\ within 0 (255 * inject_Z n') (sumR acc')
  /\ within 0 (255 * inject_Z n') (sumG acc')
  /\ within 0 (255 * inject_Z n') (sumB acc')
  /\ Forall (within 0 255) (luminances acc')
  /\ Z.of_nat (List.length (luminances acc')) = n'.
Proof.
  revert acc n. induction ps as [|p ps IH]; intros acc n B N PC SR SG SB LU LL.
  - cbv zeta. cbn [fold_left List.length]. rewrite Z.add_0_r. tauto.
  - cbv zeta. cbn [fold_left List.length].
    replace (n + Z.of_nat (S (List.length ps)))
      with ((n + 1) + Z.of_nat (List.length ps)) by lia.
    assert (B0 := B p 0 (or_introl eq_refl) ltac:(lia)).
    assert (B1 := B p 1 (or_introl eq_refl) ltac:(lia)).
    assert (B2 := B p 2 (or_introl eq_refl) ltac:(lia)).
    rewrite Z.add_0_r in B0.
    assert (Step : forall s v, within 0 (255 * inject_Z n) s -> within 0 255 v ->
                               within 0 (255 * inject_Z (n + 1)) (s + v)%num).
    { intros s v Hs Hv.
      eapply within_weaken; [exact (within_add _ _ _ _ _ _ Hs Hv)| |].
      - lra.
      - rewrite inject_Z_plus. change (inject_Z 1) with 1%Q. lra. }
    apply IH.
    + intros q k Hq Hk. apply B; [now right|exact Hk].
    + lia.
    + unfold addPixel. cbn [pCount]. lia.
    + unfold addPixel. cbn [sumR]. now apply Step.
    + unfold addPixel. cbn [sumG]. now apply Step.
    + unfold addPixel. cbn [sumB]. now apply Step.
    + unfold addPixel. cbn [luminances]. apply Forall_app. split; [exact LU|].
      constructor; [|constructor]. now apply getLuminance_bytes.
    + unfold addPixel. cbn [luminances]. rewrite length_app. simpl List.length. lia.
Qed.

Lemma finishCell_bytes (acc : CellAcc) (n : Z) :
  0 <= n -> pCount acc = n ->
  within 0 (255 * inject_Z n) (sumR acc) ->
  within 0 (255 * inject_Z n) (sumG acc) ->
  within 0 (255 * inject_Z n) (sumB acc) ->
  Forall (within 0 255) (luminances acc) ->
  Z.of_nat (List.length (luminances acc)) = n ->
  (n = 0 /\ finishCell acc = emptyCellStat)
  \/ (1 <= n /\ properCellStat (finishCell acc)).
Proof.
  intros N PC SR SG SB LU LL. unfold finishCell. rewrite PC.
  destruct (Z.eq_dec n 0) as [->|NZ].
  - left. split; reflexivity.
  - right. assert (N1 : 1 <= n) by lia. split; [exact N1|].
    replace (n =? 0) with false by (symmetry; apply Z.eqb_neq; exact NZ).
    cbv zeta. split.
    + repeat split; cbn [avgColor cr cg cb]; apply within_div; assumption.
    + cbn [busyness]. apply nonneg_div; [exact N1|].
      apply squares_nonneg; [exact LU| |exact (Qle_refl 0)].
      apply within_div; [exact N1|].
      pose proof (sum_within (luminances acc) (Zn 0) 0 LU) as S.
      rewrite LL in S. apply S. split; exact (Qle_refl 0).
Qed.

(** Every statistic of a proper image is the sentinel or proper. *)
Lemma computeCellStats_stats (img : ImageData) (g : GridConfig) :
  wellFormed img -> 1 <= rows g -> 1 <= cols g ->
  Forall (fun st => st = emptyCellStat \/ properCellStat st)
         (computeCellStats img g (Zn (imgWidth img) / Zn (cols g))%num
                           (Zn (imgHeight img) / Zn (rows g))%num).
Proof.
  intros WF R C. pose proof WF as (W & H & _ & _).
  unfold computeCellStats. rewrite gridStats_flat.
  apply Forall_forall. intros st I.
  apply in_flat_map in I. destruct I as (r & Hr & I).
  apply in_map_iff in I. destruct I as (c & <- & Hc).
  apply upto_In in Hr. apply upto_In in Hc.
  rewrite cellStat_pixels.
  set (ps := cellPixels _ _ r c).
  set (a0 := mkAcc (Zn 0) (Zn 0) (Zn 0) [] 0).
  assert (Z0 : within 0 (255 * inject_Z 0) (Zn 0)) by (split; exact (Qle_refl 0)).
  assert (A := addPixel_bytes (sample (data img)) (imgWidth img) ps a0 0).
  cbv zeta in A.
  destruct A as (PC & SR & SG & SB & LU & LL);
    [ | lia | reflexivity | exact Z0 | exact Z0 | exact Z0 | constructor
      | reflexivity | ].
  - intros [y x] k Hp Hk. cbn [fst snd].
    apply (cellPixels_in_image _ _ g r c y x R C W H) in Hp; [|lia|lia].
    destruct (sample_in_range img ((y * imgWidth img + x) * 4 + k) WF)
      as (v & E & V); [nia|].
    rewrite E. now apply (within_Zn 0 255).
  - destruct (finishCell_bytes (fold_left (addPixel (sample (data img))
                                                    (imgWidth img)) ps a0)
                (0 + Z.of_nat (List.length ps))) as [(_ & E)|(_ & P)];
      try assumption; try lia.
    + now left.
    + now right.
Qed.

(** X8.  For an image as the canvas provides it (four bytes per pixel) and
    a grid of at least one row and one column, every cell statistic is
    either the sentinel of a cell without pixels - colour (0,0,0), busyness
    Infinity - or has colour channels within 0..255 and a finite busyness
    that is not negative.  No statistic is NaN. *)
Theorem computeCellStats_proper (img : ImageData) (g : GridConfig) :
  wellFormed img -> 1 <= rows g -> 1 <= cols g ->
  Forall (fun st => st = emptyCellStat \/ properCellStat st)
         (computeCellStats img g (Zn (imgWidth img) / Zn (cols g))%num
                           (Zn (imgHeight img) / Zn (rows g))%num).
Proof. exact (computeCellStats_stats img g). Qed.

Lemma computeCellStats_proper_witness :
  wellFormed cyanImage /\ 1 <= rows (mkGrid 3 4) /\ 1 <= cols (mkGrid 3 4)
  /\ Forall (fun st => st = emptyCellStat \/ properCellStat st)
            (computeCellStats cyanImage (mkGrid 3 4)
               (Zn (imgWidth cyanImage) / Zn (cols (mkGrid 3 4)))%num
               (Zn (imgHeight cyanImage) / Zn (rows (mkGrid 3 4)))%num).
Proof.
  assert (WF : wellFormed cyanImage).
  { unfold wellFormed. cbn [imgWidth imgHeight cyanImage data].
    split; [lia|]. split; [lia|]. split; [reflexivity|].
    repeat (constructor; [lia|]). constructor. }
  split; [exact WF|]. split; [simpl; lia|]. split; [simpl; lia|].
  apply (computeCellStats_proper cyanImage (mkGrid 3 4) WF); simpl; lia.
Defined.

(** ** Images of one colour *)

Lemma add_Zn (a b : Z) : (Zn a + Zn b)%num = Zn (a + b).
Proof.
  unfold Zn. change (Fin (inject_Z a) + Fin (inject_Z b))%num
    with (Fin (Qred (inject_Z a + inject_Z b))).
  now rewrite <- inject_Z_plus, Qred_inject_Z.
Qed.

Lemma div_Zn_exact (n v : Z) : 1 <= n -> (Zn (n * v) / Zn n)%num = Zn v.
Proof.
  intro N. unfold Zn at 1. rewrite div_Fin by exact N. unfold Zn. f_equal.
  rewrite <- (Qred_inject_Z v). apply Qred_complete.
  rewrite inject_Z_mult. pose proof (Zn_positive n N). field. lra.
Qed.

Lemma sub_self (l : Q) : (Fin l - Fin l)%num = Fin 0.
Proof.
  change (Fin l - Fin l)%num with (Fin (Qred (l + Qred (- l)))).
  change (Fin 0) with (Fin (Qred 0)). f_equal. apply Qred_complete.
  rewrite Qred_correct. ring.
Qed.

(** The sum of [k] copies of a finite number. *)
Lemma sum_repeat (l : Q) (k : nat) (a : Q) :
  exists s,
    reduce (fun acc x => acc + x)%num (repeat (Fin l) k) (Fin a) = Fin s
    /\ (s == a + inject_Z (Z.of_nat k) * l)%Q.
Proof.
  unfold reduce. revert a. induction k as [|k IH]; intro a.
  - exists a. split; [reflexivity|]. simpl. ring.
  - cbn [repeat fold_left].
    change (Fin a + Fin l)%num with (Fin (Qred (a + l))).
    destruct (IH (Qred (a + l))) as (s & E & V). exists s. split; [exact E|].
    rewrite V, Qred_correct, Nat2Z.inj_succ. unfold Z.succ.
    rewrite inject_Z_plus. change (inject_Z 1) with 1%Q. ring.
Qed.

(** Deviations from the common value add up to zero. *)
Lemma squares_repeat (l : Q) (k : nat) :
  reduce (fun acc x => acc + (x - Fin l) * (x - Fin l))%num
         (repeat (Fin l) k) (Zn 0)
  = Zn 0.
Proof.
  unfold reduce. induction k as [|k IH]; [reflexivity|].
  cbn [repeat fold_left]. rewrite sub_self. exact IH.
Qed.

(** The accumulator after the pixels [ps], all of colour (r, g, b). *)
Lemma addPixel_uniform (look : Z -> num) (w r g b : Z) (ps : list (Z * Z))
    (n : nat) :
  (forall p, In p ps ->
             look ((fst p * w + snd p) * 4) = Zn r
             /\ look ((fst p * w + snd p) * 4 + 1) = Zn g
             /\ look ((fst p * w + snd p) * 4 + 2) = Zn b) ->
  fold_left (addPixel look w) ps
            (mkAcc (Zn (Z.of_nat n * r)) (Zn (Z.of_nat n * g))
                   (Zn (Z.of_nat n * b))
                   (repeat (getLuminance (Zn r) (Zn g) (Zn b)) n)
                   (Z.of_nat n))
  = let m := (n + List.length ps)%nat in
    mkAcc (Zn (Z.of_nat m * r)) (Zn (Z.of_nat m * g)) (Zn (Z.of_nat m * b))
          (repeat (getLuminance (Zn r) (Zn g) (Zn b)) m) (Z.of_nat m).
Proof.
  revert n. induction ps as [|p ps IH]; intros n U; cbv zeta.
  - cbn [fold_left List.length]. now rewrite Nat.add_0_r.
  - cbn [fold_left List.length].
    destruct (U p (or_introl eq_refl)) as (ER & EG & EB).
    unfold addPixel at 2. cbv zeta. cbn [sumR sumG sumB luminances pCount].
    rewrite ER, EG, EB, !add_Zn.
    replace (Z.of_nat n * r + r) with (Z.of_nat (S n) * r) by lia.
    replace (Z.of_nat n * g + g) with (Z.of_nat (S n) * g) by lia.
    replace (Z.of_nat n * b + b) with (Z.of_nat (S n) * b) by lia.
    replace (Z.of_nat n + 1) with (Z.of_nat (S n)) by lia.
    replace (repeat (getLuminance (Zn r) (Zn g) (Zn b)) n
             ++ [getLuminance (Zn r) (Zn g) (Zn b)])
      with (repeat (getLuminance (Zn r) (Zn g) (Zn b)) (S n))
      by (rewrite <- repeat_cons; reflexivity).
    rewrite (IH (S n)) by (intros q Hq; apply U; now right).
    cbv zeta. replace (S n + List.length ps)%nat
      with (n + S (List.length ps))%nat by lia.
    reflexivity.
Qed.

Lemma finishCell_uniform (r g b : Z) (m : nat) :
  (1 <= m)%nat ->
  finishCell
    (mkAcc (Zn (Z.of_nat m * r)) (Zn (Z.of_nat m * g)) (Zn (Z.of_nat m * b))
           (repeat (getLuminance (Zn r) (Zn g) (Zn b)) m) (Z.of_nat m))
  = mkCellStat (mkColor (Zn r) (Zn g) (Zn b)) (Fin 0).
Proof.
  intro M. assert (N : 1 <= Z.of_nat m) by lia.
  unfold finishCell. cbn [pCount sumR sumG sumB luminances].
  replace (Z.of_nat m =? 0) with false by (symmetry; apply Z.eqb_neq; lia).
  cbv zeta. rewrite !div_Zn_exact by exact N.
  destruct (getLuminance_Fin (inject_Z r) (inject_Z g) (inject_Z b))
    as (l & E & _).
  change (getLuminance (Fin (inject_Z r)) (Fin (inject_Z g)) (Fin (inject_Z b)))
    with (getLuminance (Zn r) (Zn g) (Zn b)) in E.
  pose proof (canonical_getLuminance (Zn r) (Zn g) (Zn b)) as CL.
  rewrite E in *. unfold canonical in CL.
  destruct (sum_repeat l m 0) as (s & ES & VS).
  change (Zn 0) with (Fin 0). rewrite ES.
  assert (Avg : (Fin s / Zn (Z.of_nat m))%num = Fin l).
  { rewrite div_Fin by exact N.
    transitivity (Fin (Qred l)); [|now rewrite CL]. f_equal.
    apply Qred_complete. rewrite VS.
    pose proof (Zn_positive _ N). field. lra. }
  rewrite Avg. change (Fin 0) with (Zn 0) at 1. rewrite squares_repeat.
  f_equal. change (Zn 0) with (Fin 0). rewrite div_Fin by exact N.
  transitivity (Fin (Qred 0)); [|reflexivity].
  apply (f_equal Fin). apply Qred_complete.
  pose proof (Zn_positive _ N). field. lra.
Qed.

(** The statistics of an image of one colour under exact arithmetic. *)
Lemma uniform_image_cells (w h r g b a : Z) (grid : GridConfig) :
  0 <= w -> 0 <= h -> 1 <= rows grid -> 1 <= cols grid ->
  Forall (fun st =>
            st = emptyCellStat
            \/ st = mkCellStat (mkColor (Zn r) (Zn g) (Zn b)) (Fin 0))
         (computeCellStats (uniformImage w h r g b a) grid
                           (Zn w / Zn (cols grid))%num
                           (Zn h / Zn (rows grid))%num).
Proof.
  intros W H R C. unfold computeCellStats, uniformImage. cbn [data imgWidth].
  rewrite gridStats_flat. apply Forall_forall. intros st I.
  apply in_flat_map in I. destruct I as (row & Hr & I).
  apply in_map_iff in I. destruct I as (col & <- & Hc).
  apply upto_In in Hr. apply upto_In in Hc.
  rewrite cellStat_pixels.
  set (ps := cellPixels _ _ row col).
  pose proof (addPixel_uniform
                (sample (pixels (Z.to_nat (w * h)) r g b a)) w r g b ps 0) as A.
  cbv zeta in A. cbn [repeat Z.of_nat Z.mul Nat.add] in A.
  rewrite A.
  - destruct (List.length ps) as [|k] eqn:L.
    + left. reflexivity.
    + right. apply finishCell_uniform. lia.
  - intros [y x] Hp. cbn [fst snd].
    apply (cellPixels_in_image w h grid row col y x R C W H) in Hp; [|lia|lia].
    rewrite !sample_pixels. unfold uniformLook.
    rewrite Z2Nat.id by nia.
    assert (M0 : ((y * w + x) * 4) mod 4 = 0) by apply Z_mod_mult.
    assert (M1 : ((y * w + x) * 4 + 1) mod 4 = 1)
      by (rewrite Z.add_comm, Z_mod_plus_full; reflexivity).
    assert (M2 : ((y * w + x) * 4 + 2) mod 4 = 2)
      by (rewrite Z.add_comm, Z_mod_plus_full; reflexivity).
    rewrite M0, M1, M2.
    assert (B : 0 <= (y * w + x) * 4 /\ (y * w + x) * 4 + 2 < 4 * (w * h)) by nia.
    repeat split; zbool; reflexivity.
Qed.

(** X9.  For an image whose pixels all have one colour, with sides and
    grid counts below 2^20, every cell that covers a pixel has exactly that
    colour as its average and a finite busyness that is not negative; the
    other cells carry the sentinel.  When the colour is black the busyness
    is 0. *)
Theorem uniform_image_stats (w h r g b a : Z) (grid : GridConfig) :
  0 <= w < 2 ^ 20 -> 0 <= h < 2 ^ 20 ->
  1 <= rows grid < 2 ^ 20 -> 1 <= cols grid < 2 ^ 20 ->
  0 <= r <= 255 -> 0 <= g <= 255 -> 0 <= b <= 255 ->
  Forall (fun st =>
            st = emptyCellStat
            \/ (avgColor st = mkColor (Zn r) (Zn g) (Zn b)
                /\ nonneg (busyness st)
                /\ (r = 0 -> g = 0 -> b = 0 -> busyness st = Zn 0)))
         (computeCellStats (uniformImage w h r g b a) grid
                           (Zn w / Zn (cols grid))%num
                           (Zn h / Zn (rows grid))%num).
Proof.
  intros (W & _) (H & _) (R & _) (C & _) _ _ _.
  eapply Forall_impl; [|exact (uniform_image_cells w h r g b a grid W H R C)].
  intros st [E|E]; [left; exact E|right]. rewrite E. cbn [avgColor busyness].
  split; [reflexivity|]. split; [exact (Qle_refl 0)|]. intros _ _ _. reflexivity.
Qed.

Lemma uniform_image_stats_witness :
  0 <= 7 < 2 ^ 20 /\ 0 <= 5 < 2 ^ 20
  /\ 1 <= rows (mkGrid 3 4) < 2 ^ 20 /\ 1 <= cols (mkGrid 3 4) < 2 ^ 20
  /\ 0 <= 10 <= 255 /\ 0 <= 200 <= 255 /\ 0 <= 30 <= 255
  /\ Forall (fun st =>
               st = emptyCellStat
               \/ (avgColor st = mkColor (Zn 10) (Zn 200) (Zn 30)
                   /\ nonneg (busyness st)
                   /\ (10 = 0 -> 200 = 0 -> 30 = 0 -> busyness st = Zn 0)))
            (computeCellStats (uniformImage 7 5 10 200 30 255) (mkGrid 3 4)
                              (Zn 7 / Zn (cols (mkGrid 3 4)))%num
                              (Zn 5 / Zn (rows (mkGrid 3 4)))%num).
Proof.
  split; [lia|]. split; [lia|]. split; [simpl; lia|]. split; [simpl; lia|].
  split; [lia|]. split; [lia|]. split; [lia|].
  apply (uniform_image_stats 7 5 10 200 30 255 (mkGrid 3 4));
    try (simpl; lia); lia.
Defined.

(** ** What the search returns *)

Lemma forM_preserves {A S : Type} (P : S -> Prop) (xs : list A)
    (body : A -> S -> outcome S) (s s' : S) :
  (forall a t t', In a xs -> P t -> body a t = Ret t' -> P t') ->
  P s -> forM xs s body = Ret s' -> P s'.
Proof.
  revert s. induction xs as [|a xs IH]; intros s Step Ps F; simpl in F.
  - now injection F as <-.
  - destruct (body a s) as [t|] eqn:B; simpl in F; [|discriminate].
    apply (IH t); [|eapply Step; [now left|exact Ps|exact B]|exact F].
    intros a' u u' I. apply Step. now right.
Qed.

(** A loop that reads one statistic per index and folds it in. *)
Lemma forM_statAt {S : Type} (cellStats : list CellStat) (F : S -> CellStat -> S)
    (idxs : list Z) (acc acc' : S) :
  forM idxs acc (fun i acc => st <- statAt cellStats i ;; Ret (F acc st)) = Ret acc' ->
  exists sts,
    Forall2 (fun i st => statAt cellStats i = Ret st) idxs sts
    /\ acc' = fold_left F sts acc.
Proof.
  revert acc. induction idxs as [|i idxs IH]; intros acc E; simpl in E.
  - injection E as <-. exists []. split; [constructor|reflexivity].
  - destruct (statAt cellStats i) as [st|] eqn:SA; simpl in E; [|discriminate].
    destruct (IH _ E) as (sts & F2 & ->).
    exists (st :: sts). split; [constructor; assumption|reflexivity].
Qed.

(** The offset loops fold the statistics of the covered cells. *)
Lemma sumRect_fold (s : ShapeToFind) (cellStats : list CellStat)
    (g : GridConfig) (r c : Z) (sums : RectSums) :
  sumRect s cellStats g r c = Ret sums ->
  exists sts,
    Forall2 (fun i st => statAt cellStats i = Ret st) (coveredCells s g r c) sts
    /\ sums = fold_left addStat sts sumsInit.
Proof.
  unfold sumRect. rewrite forM_nested. unfold coveredCells.
  assert (M : flat_map (fun rOffset =>
                 map (fun cOffset => (r + rOffset) * cols g + (c + cOffset))
                     (upto 0 (scols s))) (upto 0 (srows s))
              = map (fun p => (r + fst p) * cols g + (c + snd p))
                    (flat_map (fun a => map (fun b => (a, b)) (upto 0 (scols s)))
                              (upto 0 (srows s)))).
  { induction (upto 0 (srows s)) as [|ro ros IH]; [reflexivity|].
    cbn [flat_map]. rewrite map_app, map_map, IH. reflexivity. }
  rewrite M. intro E.
  rewrite <- (forM_map (fun p => (r + fst p) * cols g + (c + snd p)) _ sumsInit
                (fun i acc => st <- statAt cellStats i ;; Ret (addStat acc st)))
    in E.
  exact (forM_statAt cellStats addStat _ _ _ E).
Qed.

Lemma addStat_count (sts : list CellStat) (acc : RectSums) :
  pixelCount (fold_left addStat sts acc)
  = pixelCount acc + Z.of_nat (List.length sts).
Proof.
  revert acc. induction sts as [|st sts IH]; intro acc; cbn [fold_left List.length].
  - lia.
  - rewrite IH. unfold addStat. cbn [pixelCount]. lia.
Qed.

Section Built.

Variables (cellStats : list CellStat) (g : GridConfig) (cw ch : num).

Lemma tryPosition_built (s : ShapeToFind) (r c : Z) (st st' : SearchState) :
  keptBuilt cellStats g cw ch (fst st) ->
  tryPosition s cellStats g cw ch r c st = Ret st' ->
  keptBuilt cellStats g cw ch (fst st').
Proof.
  intros K T. unfold tryPosition in T.
  destruct (sumRect s cellStats g r c) as [sums|] eqn:SR; simpl in T; [|discriminate].
  destruct (pixelCount sums =? 0) eqn:PC; [now injection T as <-|].
  destruct (_ <? _)%num; injection T as <-; [|exact K].
  cbn [fst keptBuilt]. destruct (sumRect_fold _ _ _ _ _ _ SR) as (sts & F2 & ->).
  exists sts. cbn [shape rStart cStart]. split; [exact F2|]. split.
  - intros ->. discriminate.
  - reflexivity.
Qed.

Lemma findBestRectForGivenShape_built (s : ShapeToFind) (b : Z)
    (res : option FoundRectInfo) :
  findBestRectForGivenShape s cellStats g cw ch b = Ret res -> keptBuilt cellStats g cw ch res.
Proof.
  unfold findBestRectForGivenShape. destruct (_ || _).
  - intro E. now injection E as <-.
  - intro F. destruct (forM _ _ _) as [st'|] eqn:L; simpl in F; [|discriminate].
    injection F as <-.
    apply (forM_preserves (fun st => keptBuilt cellStats g cw ch (fst st))) in L; [exact L| |exact I].
    intros r t t' _ Kt Inner.
    apply (forM_preserves (fun st => keptBuilt cellStats g cw ch (fst st))) in Inner;
      [exact Inner| |exact Kt].
    intros c u u' _ Ku T. exact (tryPosition_built s r c u u' Ku T).
Qed.

Lemma searchShapes_built (shapes : list ShapeToFind) (b : Z)
    (best : FoundRectInfo) :
  searchShapes shapes cellStats g cw ch b = Ret (Some best) ->
  builtFromCells cellStats g cw ch best.
Proof.
  unfold searchShapes. intro F.
  apply (forM_preserves (keptBuilt cellStats g cw ch)) in F; [exact F| |exact I].
  intros s kept kept' _ K B.
  destruct (findBestRectForGivenShape s cellStats g cw ch b) as [res|] eqn:FB;
    simpl in B; [|discriminate].
  injection B as <-. apply findBestRectForGivenShape_built in FB.
  destruct res as [r|], kept as [k|]; simpl; auto.
  destruct (_ <? _)%num; assumption.
Qed.

End Built.

Lemma searchShapes_finite (cellStats : list CellStat) (g : GridConfig)
    (cw ch : num) (shapes : list ShapeToFind) (b : Z) (best : FoundRectInfo) :
  searchShapes shapes cellStats g cw ch b = Ret (Some best) ->
  (avgBusyness best <? PInf)%num = true.
Proof.
  intro F. apply (shapes_loop_inv cellStats g cw ch b shapes [] None) in F.
  - simpl in F. tauto.
  - simpl. constructor.
Qed.

Lemma nonneg_add (a b : num) : nonneg a -> nonneg b -> nonneg (a + b)%num.
Proof.
  destruct a as [x| | |], b as [y| | |]; try (simpl; tauto).
  intros A B. change (Fin x + Fin y)%num with (Fin (Qred (x + y))).
  unfold nonneg in *. rewrite Qred_correct. lra.
Qed.

Lemma statAt_In (cellStats : list CellStat) (i : Z) (st : CellStat) :
  statAt cellStats i = Ret st -> In st cellStats.
Proof.
  unfold statAt. destruct (i <? 0); [discriminate|].
  destruct (nth_error cellStats (Z.to_nat i)) as [s|] eqn:N; [|discriminate].
  intro E. injection E as <-. exact (nth_error_In _ _ N).
Qed.

Lemma covered_stats (cellStats : list CellStat) (P : CellStat -> Prop)
    (idxs : list Z) (sts : list CellStat) :
  Forall P cellStats ->
  Forall2 (fun i st => statAt cellStats i = Ret st) idxs sts ->
  Forall P sts.
Proof.
  intros A F2. induction F2 as [|i st idxs sts S _ IH]; constructor; [|exact IH].
  rewrite Forall_forall in A. exact (A _ (statAt_In _ _ _ S)).
Qed.

(** Once the busyness sum is infinite it stays so. *)
Lemma busyness_sum_stays_infinite (sts : list CellStat) (acc : RectSums) :
  Forall (fun st => st = emptyCellStat \/ properCellStat st) sts ->
  currentRectBusynessSum acc = PInf ->
  currentRectBusynessSum (fold_left addStat sts acc) = PInf.
Proof.
  intro A. revert acc. induction A as [|st sts H _ IH]; intros acc E;
    cbn [fold_left]; [exact E|].
  apply IH. unfold addStat. cbn [currentRectBusynessSum]. rewrite E.
  destruct H as [->|(_ & B)]; [reflexivity|].
  destruct (busyness st); simpl in B; [reflexivity|tauto..].
Qed.

(** A sentinel cell makes the sum infinite. *)
Lemma busyness_sum_cases (sts : list CellStat) (acc : RectSums) :
  Forall (fun st => st = emptyCellStat \/ properCellStat st) sts ->
  nonneg (currentRectBusynessSum acc) ->
  currentRectBusynessSum (fold_left addStat sts acc) = PInf
  \/ Forall properCellStat sts.
Proof.
  intro A. revert acc. induction A as [|st sts [->|P] A IH]; intros acc N;
    cbn [fold_left].
  - right. constructor.
  - left. apply busyness_sum_stays_infinite; [exact A|].
    unfold addStat. cbn [currentRectBusynessSum emptyCellStat busyness].
    destruct (currentRectBusynessSum acc); simpl in N; [reflexivity|tauto..].
  - destruct (IH (addStat acc st)) as [I|F].
    + unfold addStat. cbn [currentRectBusynessSum].
      apply nonneg_add; [exact N|exact (proj2 P)].
    + left. exact I.
    + right. constructor; assumption.
Qed.

(** The sums over proper cells: the count, a finite busyness sum and
    colour sums within the byte range times the count. *)
Lemma addStat_proper (sts : list CellStat) (acc : RectSums) (n : Z) :
  Forall properCellStat sts ->
  0 <= n -> pixelCount acc = n ->
  nonneg (currentRectBusynessSum acc) ->
  within 0 (255 * inject_Z n) (rectSumR acc) ->
  within 0 (255 * inject_Z n) (rectSumG acc) ->
  within 0 (255 * inject_Z n) (rectSumB acc) ->
  let sums := fold_left addStat sts acc in
  let n' := n + Z.of_nat (List.length sts) in
  pixelCount sums = n'
  /\ nonneg (currentRectBusynessSum sums)
  /\ within 0 (255 * inject_Z n') (rectSumR sums)
  /\ within 0 (255 * inject_Z n') (rectSumG sums)
  /\ within 0 (255 * inject_Z n') (rectSumB sums).
Proof.
  intro A. revert acc n.
  induction A as [|st sts ((R & G & B) & U) A IH]; intros acc n N C NS WR WG WB;
    cbn [fold_left List.length].
  - cbv zeta. rewrite Z.add_0_r. auto.
  - cbv zeta.
    replace (n + Z.of_nat (S (List.length sts)))
      with ((n + 1) + Z.of_nat (List.length sts)) by lia.
    assert (W : forall a c, within 0 (255 * inject_Z n) a -> within 0 255 c ->
                            within 0 (255 * inject_Z (n + 1)) (a + c)%num).
    { intros a c Wa Wc.
      apply (within_weaken _ _ _ _ _ (within_add _ _ _ _ _ _ Wa Wc)).
      - lra.
      - rewrite inject_Z_plus. change (inject_Z 1) with 1%Q. lra. }
    apply IH; unfold addStat;
      cbn [pixelCount currentRectBusynessSum rectSumR rectSumG rectSumB].
    + lia.
    + lia.
    + apply nonneg_add; assumption.
    + apply W; assumption.
    + apply W; assumption.
    + apply W; assumption.
Qed.

(** The kept rectangle covers proper cells only and its sums are those of
    [addStat_proper]. *)
Lemma searchShapes_covers_proper (cellStats : list CellStat) (g : GridConfig)
    (cw ch : num) (shapes : list ShapeToFind) (b : Z) (best : FoundRectInfo) :
  properStats cellStats ->
  searchShapes shapes cellStats g cw ch b = Ret (Some best) ->
  exists sts,
    Forall2 (fun i st => statAt cellStats i = Ret st)
            (coveredCells (shape best) g (rStart best) (cStart best)) sts
    /\ Forall properCellStat sts
    /\ 1 <= Z.of_nat (List.length sts)
    /\ best = foundAt (shape best) cw ch (rStart best) (cStart best)
                      (fold_left addStat sts sumsInit).
Proof.
  intros A F.
  pose proof (searchShapes_finite _ _ _ _ _ _ _ F) as Fin.
  destruct (searchShapes_built _ _ _ _ _ _ _ F) as (sts & F2 & NE & E).
  exists sts. split; [exact F2|].
  assert (L : 1 <= Z.of_nat (List.length sts)).
  { destruct sts; [congruence|]. cbn [List.length]. lia. }
  pose proof (covered_stats _ _ _ _ A F2) as A'.
  destruct (busyness_sum_cases sts sumsInit A') as [I|P].
  - exact (Qle_refl 0).
  - exfalso. rewrite E in Fin. unfold foundAt in Fin. cbn [avgBusyness] in Fin.
    rewrite I, addStat_count in Fin. cbn [sumsInit pixelCount] in Fin.
    rewrite Z.add_0_l in Fin.
    assert (D : (PInf / Zn (Z.of_nat (List.length sts)))%num = PInf).
    { unfold Zn, Num.div. pose proof (Zn_positive _ L) as Pos.
      destruct (Qltb _ 0) eqn:Q; [|reflexivity].
      apply Qltb_lt in Q. lra. }
    rewrite D in Fin. discriminate.
  - auto.
Qed.

Lemma demoStats_proper : properStats demoStats.
Proof.
  unfold properStats, demoStats. cbn [map].
  repeat (apply Forall_cons; [right; vm_compute; intuition discriminate|]).
  apply Forall_nil.
Qed.

(** X10.  Over statistics as [computeCellStats] yields them, the rectangle
    the search returns covers no cell without pixels: every covered index
    is in range and holds a proper statistic, and the average busyness of
    the rectangle is finite and not negative. *)
Theorem search_avoids_cells_without_pixels (shapes : list ShapeToFind)
    (cellStats : list CellStat) (g : GridConfig) (cw ch : num) (b : Z)
    (best : FoundRectInfo) :
  properStats cellStats ->
  searchShapes shapes cellStats g cw ch b = Ret (Some best) ->
  nonneg (avgBusyness best)
  /\ Forall (fun i => exists st, statAt cellStats i = Ret st /\ properCellStat st)
            (coveredCells (shape best) g (rStart best) (cStart best)).
Proof.
  intros A F.
  destruct (searchShapes_covers_proper _ _ _ _ _ _ _ A F) as (sts & F2 & P & L & E).
  split.
  - destruct (addStat_proper sts sumsInit 0 P) as (C & N & _);
      try reflexivity; try lia; try exact (Qle_refl 0);
      try (split; exact (Qle_refl 0)).
    rewrite E. unfold foundAt. cbn [avgBusyness].
    apply nonneg_div; [|exact N]. rewrite C. lia.
  - clear E L. induction F2 as [|i st idxs sts' S _ IH]; constructor.
    + exists st. split; [exact S|]. now inversion P.
    + apply IH. now inversion P.
Qed.

Lemma search_avoids_cells_without_pixels_witness :
  properStats demoStats
  /\ searchShapes demoShapes demoStats demoGrid (Zn 10) (Zn 10) 0
     = Ret (Some demoBest)
  /\ nonneg (avgBusyness demoBest)
  /\ Forall (fun i => exists st, statAt demoStats i = Ret st /\ properCellStat st)
            (coveredCells (shape demoBest) demoGrid (rStart demoBest)
                          (cStart demoBest)).
Proof.
  split; [exact demoStats_proper|]. split; [vm_compute; reflexivity|].
  apply (search_avoids_cells_without_pixels demoShapes demoStats demoGrid
           (Zn 10) (Zn 10) 0 demoBest).
  - exact demoStats_proper.
  - vm_compute. reflexivity.
Defined.

(** X11.  Over such statistics the average colour of the returned
    rectangle has its three channels within 0..255. *)
Theorem found_rectangle_colour_in_bytes (shapes : list ShapeToFind)
    (cellStats : list CellStat) (g : GridConfig) (cw ch : num) (b : Z)
    (best : FoundRectInfo) :
  properStats cellStats ->
  searchShapes shapes cellStats g cw ch b = Ret (Some best) ->
  colourInBytes (favgColor best).
Proof.
  intros A F.
  destruct (searchShapes_covers_proper _ _ _ _ _ _ _ A F) as (sts & F2 & P & L & E).
  destruct (addStat_proper sts sumsInit 0 P) as (C & _ & R & G & B);
    try reflexivity; try lia; try exact (Qle_refl 0);
    try (split; exact (Qle_refl 0)).
  rewrite E. unfold foundAt. cbn [favgColor]. rewrite C, Z.add_0_l in *.
  repeat split; cbn [cr cg cb]; apply within_div; assumption.
Qed.

Lemma found_rectangle_colour_in_bytes_witness :
  properStats demoStats
  /\ searchShapes demoShapes demoStats demoGrid (Zn 10) (Zn 10) 0
     = Ret (Some demoBest)
  /\ colourInBytes (favgColor demoBest).
Proof.
  split; [exact demoStats_proper|]. split; [vm_compute; reflexivity|].
  apply (found_rectangle_colour_in_bytes demoShapes demoStats demoGrid
           (Zn 10) (Zn 10) 0 demoBest).
  - exact demoStats_proper.
  - vm_compute. reflexivity.
Defined.

(** ** The pixel rectangle and the font size of the result *)

Lemma floor_cellEdge (size n i : Z) :
  1 <= n ->
  Num.floor (Zn i * (Zn size / Zn n)) = Zn (i * size / n).
Proof.
  intro N. rewrite <- (cellEdge_div size n i N). unfold cellEdge.
  assert (E : exists q, (Zn i * (Zn size / Zn n))%num = Fin q).
  { unfold Zn at 2. rewrite div_Fin by exact N. eexists. reflexivity. }
  destruct E as (q & ->). cbn [Num.floor]. unfold Zn. cbn [floorZ].
  rewrite Qfloor_Z. reflexivity.
Qed.

Lemma coveredCells_nonempty (s : ShapeToFind) (g : GridConfig) (r c : Z) :
  coveredCells s g r c <> [] -> 1 <= srows s /\ 1 <= scols s.
Proof.
  intro NE. unfold coveredCells in NE.
  destruct (Z_lt_le_dec (srows s) 1) as [R|R].
  - exfalso. apply NE. unfold upto.
    replace (Z.to_nat (srows s - 0)) with 0%nat by lia. reflexivity.
  - split; [exact R|].
    destruct (Z_lt_le_dec (scols s) 1) as [C|C]; [|exact C].
    exfalso. apply NE. clear NE. unfold upto at 1.
    replace (Z.to_nat (scols s - 0)) with 0%nat by lia. cbn [Zseq map].
    induction (upto 0 (srows s)) as [|a l IH]; [reflexivity|exact IH].
Qed.

Lemma built_shape_positive (cellStats : list CellStat) (g : GridConfig)
    (cw ch : num) (best : FoundRectInfo) :
  builtFromCells cellStats g cw ch best ->
  1 <= srows (shape best) /\ 1 <= scols (shape best).
Proof.
  intros (sts & F2 & NE & _).
  apply (coveredCells_nonempty _ g (rStart best) (cStart best)).
  intro E. rewrite E in F2. inversion F2. congruence.
Qed.

(** What [placeText] returns with a result: the rectangle of the search
    and the colour chosen for it. *)
Lemma placeText_result (p : ImageAnalysisCoreParams) (cw ch : num)
    (cellStats : list CellStat) (res : AnalysisResult)
    (hover : option AnalysisDataForHover) (msgs : list string) :
  placeText p cw ch cellStats = Ret (mkCore (Some res) hover, msgs) ->
  exists best color,
    searchShapes
      (generateShapesToTest (targetAreaValue p)
         (rows (gridConfig p) - 2 * borderExclusionCells p)
         (cols (gridConfig p) - 2 * borderExclusionCells p))
      cellStats (gridConfig p) cw ch (borderExclusionCells p) = Ret (Some best)
    /\ chooseTextColor (useAverageCellColorForText p) best cellStats (gridConfig p)
       = Ret color
    /\ res = mkResult
               (mkRect (fx best) (fy best) (fwidth best) (fheight best))
               color
               (Num.max (Zn 12)
                  (Num.min (fheight best / Zn (srows (shape best)) * dec 6 10)
                     (Num.min (fheight best * dec 3 10)
                              (fwidth best * dec 2 10))))%num
               (favgColor best) (sname (shape best))
               (mkGrid (srows (shape best)) (scols (shape best)))
               (avgBusyness best)
               (calculateContrastRatio (textColorObject color) (favgColor best)).
Proof.
  unfold placeText. cbv zeta. destruct (_ =? _)%nat; [discriminate|].
  destruct (searchShapes _ _ _ _ _ _) as [[best|]|] eqn:S; simpl;
    [|discriminate..].
  destruct (chooseTextColor _ _ _ _) as [color|] eqn:C; simpl; [|discriminate].
  intro E. injection E as <- _ _. exists best, color. auto.
Qed.

Lemma analyzeImageCore_result (p : ImageAnalysisCoreParams)
    (res : AnalysisResult) (hover : option AnalysisDataForHover)
    (msgs : list string) :
  analyzeImageCore p = Ret (mkCore (Some res) hover, msgs) ->
  placeText p (Zn (imgWidth (imageData p)) / Zn (cols (gridConfig p)))%num
            (Zn (imgHeight (imageData p)) / Zn (rows (gridConfig p)))%num
            (computeCellStats (imageData p) (gridConfig p)
               (Zn (imgWidth (imageData p)) / Zn (cols (gridConfig p)))%num
               (Zn (imgHeight (imageData p)) / Zn (rows (gridConfig p)))%num)
  = Ret (mkCore (Some res) hover, msgs).
Proof.
  unfold analyzeImageCore. cbv zeta. destruct (_ || _); [discriminate|].
  intro E. exact E.
Qed.

(** The pixel rectangle of the kept record, in whole pixels. *)
Lemma found_geometry (shapes : list ShapeToFind) (cellStats : list CellStat)
    (g : GridConfig) (w h b : Z) (best : FoundRectInfo) :
  0 <= b ->
  searchShapes shapes cellStats g (Zn w / Zn (cols g))%num
               (Zn h / Zn (rows g))%num b = Ret (Some best) ->
  (1 <= srows (shape best) <= rows g /\ 1 <= scols (shape best) <= cols g)
  /\ (0 <= rStart best /\ rStart best + srows (shape best) <= rows g)
  /\ (0 <= cStart best /\ cStart best + scols (shape best) <= cols g)
  /\ fx best = Zn (cStart best * w / cols g)
  /\ fy best = Zn (rStart best * h / rows g)
  /\ fwidth best = Zn (scols (shape best) * w / cols g)
  /\ fheight best = Zn (srows (shape best) * h / rows g).
Proof.
  intros B F.
  pose proof (searchShapes_inside _ _ _ _ _ _ _ F) as (R0 & R1 & C0 & C1).
  pose proof (searchShapes_built _ _ _ _ _ _ _ F) as Built.
  destruct (built_shape_positive _ _ _ _ _ Built) as (SR & SC).
  destruct Built as (sts & _ & _ & E).
  assert (NR : 1 <= rows g) by lia. assert (NC : 1 <= cols g) by lia.
  repeat split; try lia; rewrite E; unfold foundAt;
    cbn [fx fy fwidth fheight shape rStart cStart];
    apply floor_cellEdge; assumption.
Qed.

(** X12.  The pixel rectangle of a result lies inside the image, for
    image sides and grid counts below 2^20: its corner and its sides are
    whole pixel counts that are not negative, the rectangle ends no later
    than the image does, and it is at least as wide and as high as its cells
    times the whole-pixel cell size. *)
Theorem analyzeImageCore_rect_inside_image (p : ImageAnalysisCoreParams)
    (res : AnalysisResult) (hover : option AnalysisDataForHover)
    (msgs : list string) :
  0 <= imgWidth (imageData p) < 2 ^ 20 ->
  0 <= imgHeight (imageData p) < 2 ^ 20 ->
  rows (gridConfig p) < 2 ^ 20 -> cols (gridConfig p) < 2 ^ 20 ->
  0 <= borderExclusionCells p ->
  analyzeImageCore p = Ret (mkCore (Some res) hover, msgs) ->
  exists x y wd ht,
    rect res = mkRect (Zn x) (Zn y) (Zn wd) (Zn ht)
    /\ 0 <= x /\ 0 <= wd /\ x + wd <= imgWidth (imageData p)
    /\ 0 <= y /\ 0 <= ht /\ y + ht <= imgHeight (imageData p)
    /\ cols (actualCells res)
       * (imgWidth (imageData p) / cols (gridConfig p)) <= wd
    /\ rows (actualCells res)
       * (imgHeight (imageData p) / rows (gridConfig p)) <= ht.
Proof.
  intros (W & _) (H & _) _ _ B A. apply analyzeImageCore_result in A.
  destruct (placeText_result _ _ _ _ _ _ _ A) as (best & color & F & _ & ->).
  destruct (found_geometry _ _ _ _ _ _ _ B F)
    as ((SR & SC) & (R0 & R1) & (C0 & C1) & -> & -> & -> & ->).
  set (w := imgWidth (imageData p)) in *. set (h := imgHeight (imageData p)) in *.
  set (nr := rows (gridConfig p)) in *. set (nc := cols (gridConfig p)) in *.
  set (r := rStart best) in *. set (c := cStart best) in *.
  set (sr := srows (shape best)) in *. set (sc := scols (shape best)) in *.
  exists (c * w / nc), (r * h / nr), (sc * w / nc), (sr * h / nr).
  cbn [rect actualCells rows cols].
  assert (D : forall a b' n t, 1 <= n -> 0 <= a -> 0 <= b' -> 0 <= t ->
                a + b' <= n ->
                0 <= a * t / n /\ 0 <= b' * t / n
                /\ a * t / n + b' * t / n <= t
                /\ b' * (t / n) <= b' * t / n).
  { intros a b' n t N A0 B0 T0 S.
    pose proof (Z.div_mod (a * t) n ltac:(lia)).
    pose proof (Z.mod_pos_bound (a * t) n ltac:(lia)).
    pose proof (Z.div_mod (b' * t) n ltac:(lia)).
    pose proof (Z.mod_pos_bound (b' * t) n ltac:(lia)).
    pose proof (Z.div_mod t n ltac:(lia)).
    pose proof (Z.mod_pos_bound t n ltac:(lia)).
    assert (0 <= a * t / n) by (apply Z.div_pos; nia).
    assert (0 <= b' * t / n) by (apply Z.div_pos; nia).
    assert (0 <= t / n) by (apply Z.div_pos; lia).
    repeat split; try assumption; nia. }
  destruct (D c sc nc w) as (X0 & X1 & X2 & X3); try lia.
  destruct (D r sr nr h) as (Y0 & Y1 & Y2 & Y3); try lia.
  repeat split; try reflexivity; try lia.
Qed.

Lemma analyzeImageCore_rect_inside_image_witness :
  0 <= imgWidth (imageData cyanParams) < 2 ^ 20
  /\ 0 <= imgHeight (imageData cyanParams) < 2 ^ 20
  /\ rows (gridConfig cyanParams) < 2 ^ 20
  /\ cols (gridConfig cyanParams) < 2 ^ 20
  /\ 0 <= borderExclusionCells cyanParams
  /\ exists res hover msgs,
       analyzeImageCore cyanParams = Ret (mkCore (Some res) hover, msgs)
       /\ exists x y wd ht,
            rect res = mkRect (Zn x) (Zn y) (Zn wd) (Zn ht)
            /\ 0 <= x /\ 0 <= wd /\ x + wd <= imgWidth (imageData cyanParams)
            /\ 0 <= y /\ 0 <= ht /\ y + ht <= imgHeight (imageData cyanParams)
            /\ cols (actualCells res)
               * (imgWidth (imageData cyanParams) / cols (gridConfig cyanParams))
               <= wd
            /\ rows (actualCells res)
               * (imgHeight (imageData cyanParams) / rows (gridConfig cyanParams))
               <= ht.
Proof.
  split; [simpl; lia|]. split; [simpl; lia|]. split; [simpl; lia|].
  split; [simpl; lia|]. split; [simpl; lia|].
  eexists _, _, _. split; [vm_compute; reflexivity|].
  eapply (analyzeImageCore_rect_inside_image cyanParams);
    [simpl; lia|simpl; lia|simpl; lia|simpl; lia|simpl; lia
    |vm_compute; reflexivity].
Defined.

Lemma min_Fin (a b : Q) :
  exists m, Num.min (Fin a) (Fin b) = Fin m /\ (m <= a)%Q /\ (m <= b)%Q.
Proof.
  unfold Num.min, Num.ltb. destruct (Qltb b a) eqn:E.
  - apply Qltb_lt in E. exists b. repeat split; lra.
  - apply Qltb_ge in E. exists a. repeat split; lra.
Qed.

Lemma max_Fin (a b : Q) :
  exists m, Num.max (Fin a) (Fin b) = Fin m /\ (a <= m)%Q /\ (m = a \/ m = b).
Proof.
  unfold Num.max, Num.ltb. destruct (Qltb a b) eqn:E.
  - apply Qltb_lt in E. exists b. repeat split; [lra|now right].
  - exists a. repeat split; [lra|now left].
Qed.

(** X13.  The suggested font size of a result is a finite number of at
    least 12; when it is above 12 it is at most 0.2 of the width and 0.3 of
    the height of the rectangle. *)
Theorem analyzeImageCore_font_size (p : ImageAnalysisCoreParams)
    (res : AnalysisResult) (hover : option AnalysisDataForHover)
    (msgs : list string) :
  0 <= borderExclusionCells p ->
  analyzeImageCore p = Ret (mkCore (Some res) hover, msgs) ->
  exists f wd ht,
    fontSize res = Fin f
    /\ rwidth (rect res) = Zn wd /\ rheight (rect res) = Zn ht
    /\ (12 <= f)%Q
    /\ (f = 12%Q
        \/ ((f <= inject_Z wd * (2 # 10))%Q /\ (f <= inject_Z ht * (3 # 10))%Q)).
Proof.
  intros B A. apply analyzeImageCore_result in A.
  destruct (placeText_result _ _ _ _ _ _ _ A) as (best & color & F & _ & ->).
  destruct (found_geometry _ _ _ _ _ _ _ B F)
    as ((SR & SC) & _ & _ & _ & _ & EW & EH).
  cbn [fontSize rect rwidth rheight]. rewrite EW, EH.
  set (wd := scols (shape best) * imgWidth (imageData p) / cols (gridConfig p)).
  set (ht := srows (shape best) * imgHeight (imageData p) / rows (gridConfig p)).
  assert (E1 : exists q1, (Zn ht / Zn (srows (shape best)) * dec 6 10)%num = Fin q1).
  { unfold Zn at 1. rewrite div_Fin by lia. eexists. reflexivity. }
  destruct E1 as (q1 & ->).
  assert (E2 : exists q2, (Zn ht * dec 3 10)%num = Fin q2
                          /\ (q2 == inject_Z ht * (3 # 10))%Q).
  { eexists. split; [reflexivity|]. rewrite Qred_correct.
    apply Qmult_comp; [reflexivity|]. rewrite Qred_correct. reflexivity. }
  destruct E2 as (q2 & -> & Q2).
  assert (E3 : exists q3, (Zn wd * dec 2 10)%num = Fin q3
                          /\ (q3 == inject_Z wd * (2 # 10))%Q).
  { eexists. split; [reflexivity|]. rewrite Qred_correct.
    apply Qmult_comp; [reflexivity|]. rewrite Qred_correct. reflexivity. }
  destruct E3 as (q3 & -> & Q3).
  destruct (min_Fin q2 q3) as (m1 & -> & M1 & M1').
  destruct (min_Fin q1 m1) as (m2 & -> & _ & M2).
  change (Zn 12) with (Fin (inject_Z 12)).
  destruct (max_Fin (inject_Z 12) m2) as (f & -> & L & [->| ->]).
  - exists (inject_Z 12), wd, ht. repeat split; [exact L|now left].
  - exists m2, wd, ht. repeat split; [exact L|]. right. split; lra.
Qed.

Lemma analyzeImageCore_font_size_witness :
  0 <= borderExclusionCells cyanParams
  /\ exists res hover msgs,
       analyzeImageCore cyanParams = Ret (mkCore (Some res) hover, msgs)
       /\ exists f wd ht,
            fontSize res = Fin f
            /\ rwidth (rect res) = Zn wd /\ rheight (rect res) = Zn ht
            /\ (12 <= f)%Q
            /\ (f = 12%Q
                \/ ((f <= inject_Z wd * (2 # 10))%Q
                    /\ (f <= inject_Z ht * (3 # 10))%Q)).
Proof.
  split; [simpl; lia|].
  eexists _, _, _. split; [vm_compute; reflexivity|].
  eapply (analyzeImageCore_font_size cyanParams);
    [simpl; lia|vm_compute; reflexivity].
Defined.

(** ** The text colour: printing and parsing *)

Lemma digit_char (c : ascii) :
  is_digit c = true ->
  In c ["0"; "1"; "2"; "3"; "4"; "5"; "6"; "7"; "8"; "9"]%char.
Proof.
  destruct c as [[] [] [] [] [] [] [] []]; intro H; vm_compute in H;
    try discriminate H; simpl; tauto.
Qed.

(** A digit reads as its value below ten. *)
Lemma digit_value (c : ascii) :
  is_digit c = true ->
  exists d, digitValue c = Some d /\ 0 <= d < 10.
Proof.
  intro H. apply digit_char in H. simpl in H.
  repeat (destruct H as [<-|H];
          [eexists; split; [reflexivity|vm_compute; intuition discriminate]|]).
  destruct H.
Qed.

Lemma readDigits_digits (s : string) (acc : Z) (seen : bool) :
  Forall (fun c => is_digit c = true) (list_ascii_of_string s) ->
  0 <= acc -> seen = true \/ s <> EmptyString ->
  exists v, readDigits 10 s acc seen = Some v /\ 0 <= v.
Proof.
  revert acc seen. induction s as [|c s IH]; intros acc seen A N S.
  - destruct S as [->|S]; [|congruence]. exists acc. split; [reflexivity|exact N].
  - cbn [list_ascii_of_string] in A. inversion A as [|? ? D A']; subst.
    destruct (digit_value c D) as (d & E & R). cbn [readDigits]. rewrite E.
    replace (d <? 10) with true by (symmetry; apply Z.ltb_lt; lia).
    apply IH; [exact A'|lia|now left].
Qed.

(** [parseInt] of a group [(\d+)] is an integer that is not negative. *)
Lemma parseInt_digits (s : string) :
  s <> EmptyString ->
  Forall (fun c => is_digit c = true) (list_ascii_of_string s) ->
  exists v, parseInt s = Zn v /\ 0 <= v
            /\ readDigits 10 s 0 false = Some v.
Proof.
  intros NE A.
  destruct (readDigits_digits s 0 false A ltac:(lia) (or_intror NE)) as (v & R & V).
  exists v. split; [|split; assumption].
  assert (E : parseInt s = match readDigits 10 s 0 false with
                           | Some v => Zn (1 * v)
                           | None => NaN
                           end).
  { destruct s as [|c1 s]; [congruence|].
    cbn [list_ascii_of_string] in A. inversion A as [|? ? D1 A1]; subst.
    apply digit_char in D1. simpl in D1.
    destruct D1 as [<-|D1].
    - destruct s as [|c2 s]; [reflexivity|].
      cbn [list_ascii_of_string] in A1. inversion A1 as [|? ? D2 A2]; subst.
      apply digit_char in D2. simpl in D2.
      repeat (destruct D2 as [<-|D2]; [reflexivity|]). destruct D2.
    - repeat (destruct D1 as [<-|D1]; [reflexivity|]). destruct D1. }
  rewrite E, R, Z.mul_1_l. reflexivity.
Qed.

Lemma span_fst_all (p : ascii -> bool) (s : string) :
  Forall (fun c => p c = true) (list_ascii_of_string (fst (span p s))).
Proof.
  induction s as [|c s IH]; cbn [span]; [constructor|].
  destruct (p c) eqn:P; [|constructor].
  destruct (span p s) as (a, b). cbn [fst list_ascii_of_string] in *.
  constructor; assumption.
Qed.

Lemma digits1_group (s d rest : string) :
  digits1 s = Some (d, rest) ->
  d <> EmptyString
  /\ Forall (fun c => is_digit c = true) (list_ascii_of_string d).
Proof.
  unfold digits1. pose proof (span_fst_all is_digit s) as A.
  destruct (span is_digit s) as (a, b). cbn [fst] in A.
  destruct a as [|c a]; [discriminate|].
  intro E. injection E as <- _. split; [discriminate|exact A].
Qed.

Lemma matchRgbAt_groups (s m1 m2 m3 : string) :
  matchRgbAt s = Some (m1, m2, m3) ->
  Forall (fun m => m <> EmptyString
                   /\ Forall (fun c => is_digit c = true) (list_ascii_of_string m))
         [m1; m2; m3].
Proof.
  unfold matchRgbAt.
  destruct (expect "rgb(" s) as [s1|]; [|discriminate].
  destruct (digits1 s1) as [[d1 s2]|] eqn:D1; [|discriminate].
  destruct (expect "," s2) as [s3|]; [|discriminate].
  destruct (digits1 (snd (span is_space s3))) as [[d2 s4]|] eqn:D2; [|discriminate].
  destruct (expect "," s4) as [s5|]; [|discriminate].
  destruct (digits1 (snd (span is_space s5))) as [[d3 s6]|] eqn:D3; [|discriminate].
  destruct (expect ")" s6); [|discriminate].
  intro E. injection E as <- <- <-.
  repeat constructor;
    first [exact (proj1 (digits1_group _ _ _ D1)) | exact (proj2 (digits1_group _ _ _ D1))
          |exact (proj1 (digits1_group _ _ _ D2)) | exact (proj2 (digits1_group _ _ _ D2))
          |exact (proj1 (digits1_group _ _ _ D3)) | exact (proj2 (digits1_group _ _ _ D3))].
Qed.

Lemma matchRgb_groups (s m1 m2 m3 : string) :
  matchRgb s = Some (m1, m2, m3) ->
  Forall (fun m => m <> EmptyString
                   /\ Forall (fun c => is_digit c = true) (list_ascii_of_string m))
         [m1; m2; m3].
Proof.
  induction s as [|c s IH]; cbn [matchRgb].
  - destruct (matchRgbAt "") as [m|] eqn:M; [|discriminate].
    intro E. injection E as ->. exact (matchRgbAt_groups _ _ _ _ M).
  - destruct (matchRgbAt (String c s)) as [m|] eqn:M; [|exact IH].
    intro E. injection E as ->. exact (matchRgbAt_groups _ _ _ _ M).
Qed.

(** The channels of the colour object read from a string. *)
Lemma textColorObject_integers (chosenTextColor : string) :
  exists r g b,
    textColorObject chosenTextColor = mkColor (Zn r) (Zn g) (Zn b)
    /\ 0 <= r /\ 0 <= g /\ 0 <= b.
Proof.
  unfold textColorObject.
  destruct (String.eqb chosenTextColor "black");
    [exists 0, 0, 0; repeat split; lia|].
  destruct (String.eqb chosenTextColor "white");
    [exists 255, 255, 255; repeat split; lia|].
  destruct (matchRgb chosenTextColor) as [[[m1 m2] m3]|] eqn:M;
    [|exists 0, 0, 0; repeat split; lia].
  pose proof (matchRgb_groups _ _ _ _ M) as G.
  inversion G as [|? ? (N1 & A1) G1]; subst.
  inversion G1 as [|? ? (N2 & A2) G2]; subst.
  inversion G2 as [|? ? (N3 & A3) _]; subst.
  destruct (parseInt_digits m1 N1 A1) as (r & -> & R & _).
  destruct (parseInt_digits m2 N2 A2) as (g & -> & Gg & _).
  destruct (parseInt_digits m3 N3 A3) as (b & -> & B & _).
  exists r, g, b. auto.
Qed.

(** X14.  Whatever the chosen colour string is, the colour object read
    from it has three integer channels that are not negative: the two
    names, the groups of digits of an rgb string, or the black default. *)
Theorem textColorObject_channels (chosenTextColor : string) :
  exists r g b,
    textColorObject chosenTextColor = mkColor (Zn r) (Zn g) (Zn b)
    /\ 0 <= r /\ 0 <= g /\ 0 <= b.
Proof. exact (textColorObject_integers chosenTextColor). Qed.

Lemma readDigits_step (c : ascii) (d : Z) (s : string) (acc : Z) (seen : bool) :
  digitValue c = Some d -> d < 10 ->
  readDigits 10 (String c s) acc seen = readDigits 10 s (acc * 10 + d) true.
Proof.
  intros E L. cbn [readDigits]. rewrite E.
  replace (d <? 10) with true by (symmetry; apply Z.ltb_lt; lia). reflexivity.
Qed.

(** Reading back the digits the decimal printer writes. *)
Lemma readDigits_uint_acc (u : Decimal.uint) (p : positive) :
  readDigits 10 (NilEmpty.string_of_uint u) (Z.pos p) true
  = Some (Z.pos (Pos.of_uint_acc u p)).
Proof.
  revert p. induction u as [|u IH|u IH|u IH|u IH|u IH|u IH|u IH|u IH|u IH|u IH];
    intro p; cbn [NilEmpty.string_of_uint Pos.of_uint_acc]; [reflexivity|..].
  - rewrite (readDigits_step _ 0) by (reflexivity || lia).
    replace (Z.pos p * 10 + 0) with (Z.pos (10 * p)) by lia. apply IH.
  - rewrite (readDigits_step _ 1) by (reflexivity || lia).
    replace (Z.pos p * 10 + 1) with (Z.pos (1 + 10 * p)) by lia. apply IH.
  - rewrite (readDigits_step _ 2) by (reflexivity || lia).
    replace (Z.pos p * 10 + 2) with (Z.pos (2 + 10 * p)) by lia. apply IH.
  - rewrite (readDigits_step _ 3) by (reflexivity || lia).
    replace (Z.pos p * 10 + 3) with (Z.pos (3 + 10 * p)) by lia. apply IH.
  - rewrite (readDigits_step _ 4) by (reflexivity || lia).
    replace (Z.pos p * 10 + 4) with (Z.pos (4 + 10 * p)) by lia. apply IH.
  - rewrite (readDigits_step _ 5) by (reflexivity || lia).
    replace (Z.pos p * 10 + 5) with (Z.pos (5 + 10 * p)) by lia. apply IH.
  - rewrite (readDigits_step _ 6) by (reflexivity || lia).
    replace (Z.pos p * 10 + 6) with (Z.pos (6 + 10 * p)) by lia. apply IH.
  - rewrite (readDigits_step _ 7) by (reflexivity || lia).
    replace (Z.pos p * 10 + 7) with (Z.pos (7 + 10 * p)) by lia. apply IH.
  - rewrite (readDigits_step _ 8) by (reflexivity || lia).
    replace (Z.pos p * 10 + 8) with (Z.pos (8 + 10 * p)) by lia. apply IH.
  - rewrite (readDigits_step _ 9) by (reflexivity || lia).
    replace (Z.pos p * 10 + 9) with (Z.pos (9 + 10 * p)) by lia. apply IH.
Qed.

Lemma readDigits_uint (u : Decimal.uint) (seen : bool) :
  seen = true \/ u <> Decimal.Nil ->
  readDigits 10 (NilEmpty.string_of_uint u) 0 seen = Some (Z.of_N (Pos.of_uint u)).
Proof.
  revert seen. induction u as [|u IH|u IH|u IH|u IH|u IH|u IH|u IH|u IH|u IH|u IH];
    intros seen S; cbn [NilEmpty.string_of_uint Pos.of_uint].
  - destruct S as [->|S]; [reflexivity|congruence].
  - rewrite (readDigits_step _ 0) by (reflexivity || lia). apply IH. now left.
  - rewrite (readDigits_step _ 1) by (reflexivity || lia). apply readDigits_uint_acc.
  - rewrite (readDigits_step _ 2) by (reflexivity || lia). apply readDigits_uint_acc.
  - rewrite (readDigits_step _ 3) by (reflexivity || lia). apply readDigits_uint_acc.
  - rewrite (readDigits_step _ 4) by (reflexivity || lia). apply readDigits_uint_acc.
  - rewrite (readDigits_step _ 5) by (reflexivity || lia). apply readDigits_uint_acc.
  - rewrite (readDigits_step _ 6) by (reflexivity || lia). apply readDigits_uint_acc.
  - rewrite (readDigits_step _ 7) by (reflexivity || lia). apply readDigits_uint_acc.
  - rewrite (readDigits_step _ 8) by (reflexivity || lia). apply readDigits_uint_acc.
  - rewrite (readDigits_step _ 9) by (reflexivity || lia). apply readDigits_uint_acc.
Qed.

Lemma string_of_uint_digits (u : Decimal.uint) :
  Forall (fun c => is_digit c = true)
         (list_ascii_of_string (NilEmpty.string_of_uint u)).
Proof.
  induction u; cbn [NilEmpty.string_of_uint list_ascii_of_string];
    constructor; try reflexivity; assumption.
Qed.

(** The decimal string of an integer that is not negative: digits only, at
    least one, and they read back as the integer. *)
Lemma Zstr_digits (z : Z) :
  0 <= z ->
  Zstr z <> EmptyString
  /\ Forall (fun c => is_digit c = true) (list_ascii_of_string (Zstr z))
  /\ parseInt (Zstr z) = Zn z.
Proof.
  intro N.
  assert (A : Zstr z <> EmptyString
              /\ Forall (fun c => is_digit c = true) (list_ascii_of_string (Zstr z))
              /\ readDigits 10 (Zstr z) 0 false = Some z).
  { destruct z as [|p|p]; [| |lia].
    - split; [discriminate|]. split; [|reflexivity].
      repeat constructor.
    - unfold Zstr, Z.to_int, NilZero.string_of_int, NilZero.string_of_uint.
      pose proof (DecimalPos.Unsigned.to_uint_nonnil p) as NN.
      pose proof (DecimalPos.Unsigned.of_to p) as OT.
      destruct (Pos.to_uint p) as [|u|u|u|u|u|u|u|u|u|u] eqn:U; [congruence|..];
        (split; [discriminate|]);
        (split; [apply string_of_uint_digits|]);
        (rewrite readDigits_uint by (right; discriminate));
        rewrite OT; reflexivity. }
  destruct A as (NE & D & R). split; [exact NE|]. split; [exact D|].
  destruct (parseInt_digits _ NE D) as (v & -> & _ & R'). congruence.
Qed.

Lemma span_app (p : ascii -> bool) (d rest : string) :
  Forall (fun c => p c = true) (list_ascii_of_string d) ->
  match rest with EmptyString => True | String c _ => p c = false end ->
  span p (d ++ rest) = (d, rest).
Proof.
  intros A R. induction d as [|c d IH].
  - cbn [append]. destruct rest as [|c rest]; [reflexivity|].
    cbn [span]. rewrite R. reflexivity.
  - cbn [list_ascii_of_string] in A. inversion A as [|? ? P A']; subst.
    cbn [append span]. rewrite P, (IH A'). reflexivity.
Qed.

Lemma digit_not_space (c : ascii) : is_digit c = true -> is_space c = false.
Proof.
  intro H. apply digit_char in H. simpl in H.
  repeat (destruct H as [<-|H]; [reflexivity|]). destruct H.
Qed.

Lemma digits1_app (d rest : string) :
  d <> EmptyString ->
  Forall (fun c => is_digit c = true) (list_ascii_of_string d) ->
  match rest with EmptyString => True | String c _ => is_digit c = false end ->
  digits1 (d ++ rest) = Some (d, rest).
Proof.
  intros NE A R. unfold digits1. rewrite (span_app _ _ _ A R).
  destruct d; [congruence|reflexivity].
Qed.

(** White space before a group of digits is skipped up to the group. *)
Lemma skip_space_before_digits (d rest : string) :
  d <> EmptyString ->
  Forall (fun c => is_digit c = true) (list_ascii_of_string d) ->
  snd (span is_space (String " " (d ++ rest))) = (d ++ rest)%string.
Proof.
  intros NE A. destruct d as [|c d]; [congruence|].
  cbn [list_ascii_of_string] in A. inversion A as [|? ? D _]; subst.
  cbn [append]. change (span is_space (String " " (String c (d ++ rest))))
    with (let (a, b) := span is_space (String c (d ++ rest)) in (String " " a, b)).
  cbn [span]. rewrite (digit_not_space c D). reflexivity.
Qed.

(** The pattern matches the string the template builds, with the three
    printed numbers as its groups. *)
Lemma matchRgbAt_template (d1 d2 d3 : string) :
  Forall (fun m => m <> EmptyString
                   /\ Forall (fun c => is_digit c = true) (list_ascii_of_string m))
         [d1; d2; d3] ->
  matchRgbAt ("rgb(" ++ d1 ++ ", " ++ d2 ++ ", " ++ d3 ++ ")") = Some (d1, d2, d3).
Proof.
  intro G.
  inversion G as [|? ? (N1 & A1) G1]; subst.
  inversion G1 as [|? ? (N2 & A2) G2]; subst.
  inversion G2 as [|? ? (N3 & A3) _]; subst.
  unfold matchRgbAt.
  change (expect "rgb(" ("rgb(" ++ d1 ++ ", " ++ d2 ++ ", " ++ d3 ++ ")"))
    with (Some (d1 ++ String "," (String " " (d2 ++ ", " ++ d3 ++ ")")))%string).
  cbv iota beta. rewrite (digits1_app d1 _ N1 A1) by reflexivity.
  change (expect "," (String "," (String " " (d2 ++ ", " ++ d3 ++ ")"))))
    with (Some (String " " (d2 ++ String "," (String " " (d3 ++ ")"))))%string).
  cbv iota beta. rewrite (skip_space_before_digits d2 _ N2 A2).
  rewrite (digits1_app d2 _ N2 A2) by reflexivity.
  change (expect "," (String "," (String " " (d3 ++ ")"))))
    with (Some (String " " (d3 ++ ")"))%string).
  cbv iota beta. rewrite (skip_space_before_digits d3 _ N3 A3).
  rewrite (digits1_app d3 _ N3 A3) by reflexivity.
  reflexivity.
Qed.

Lemma textColorObject_template (r g b : Z) :
  0 <= r -> 0 <= g -> 0 <= b ->
  textColorObject ("rgb(" ++ Zstr r ++ ", " ++ Zstr g ++ ", " ++ Zstr b ++ ")")
  = mkColor (Zn r) (Zn g) (Zn b).
Proof.
  intros R G B.
  destruct (Zstr_digits r R) as (N1 & A1 & P1).
  destruct (Zstr_digits g G) as (N2 & A2 & P2).
  destruct (Zstr_digits b B) as (N3 & A3 & P3).
  unfold textColorObject.
  change (String.eqb ("rgb(" ++ Zstr r ++ ", " ++ Zstr g ++ ", " ++ Zstr b ++ ")")
                     "black") with false.
  change (String.eqb ("rgb(" ++ Zstr r ++ ", " ++ Zstr g ++ ", " ++ Zstr b ++ ")")
                     "white") with false.
  cbv iota.
  assert (M : matchRgb ("rgb(" ++ Zstr r ++ ", " ++ Zstr g ++ ", " ++ Zstr b ++ ")")
              = Some (Zstr r, Zstr g, Zstr b)).
  { change ("rgb(" ++ Zstr r ++ ", " ++ Zstr g ++ ", " ++ Zstr b ++ ")")%string
      with (String "r" ("gb(" ++ Zstr r ++ ", " ++ Zstr g ++ ", " ++ Zstr b ++ ")"))
      at 1.
    cbn [matchRgb].
    change (String "r" ("gb(" ++ Zstr r ++ ", " ++ Zstr g ++ ", " ++ Zstr b ++ ")"))
      with ("rgb(" ++ Zstr r ++ ", " ++ Zstr g ++ ", " ++ Zstr b ++ ")")%string.
    rewrite matchRgbAt_template; [reflexivity|].
    repeat constructor; assumption. }
  rewrite M, P1, P2, P3. reflexivity.
Qed.

(** A rounded channel that is not negative prints as a decimal string. *)
Lemma round_prints (a : num) :
  nonneg a ->
  exists z, 0 <= z /\ Num.round a = Zn z /\ Num.to_string (Num.round a) = Zstr z.
Proof.
  destruct a as [q| | |]; try (simpl; tauto). intro N. unfold nonneg in N.
  exists (Qfloor (q + (1 # 2))). split; [|split].
  - change 0 with (Qfloor 0). apply Qfloor_resp_le. lra.
  - reflexivity.
  - cbn [Num.round]. unfold Zn, Num.to_string. rewrite Qfloor_Z. reflexivity.
Qed.

(** X15.  The rgb string the template builds from a colour whose channels
    lie within 0..255 reads back as the rounded colour: the pattern matches
    and [parseInt] returns the three rounded channels. *)
Theorem rgb_text_colour_round_trip (c : Color) :
  colourInBytes c ->
  textColorObject
    ("rgb(" ++ Num.to_string (Num.round (cr c))
     ++ ", " ++ Num.to_string (Num.round (cg c))
     ++ ", " ++ Num.to_string (Num.round (cb c)) ++ ")")
  = mkColor (Num.round (cr c)) (Num.round (cg c)) (Num.round (cb c)).
Proof.
  intros (R & G & B).
  destruct (round_prints _ (within_nonneg _ _ R)) as (r & R0 & -> & ->).
  destruct (round_prints _ (within_nonneg _ _ G)) as (g & G0 & -> & ->).
  destruct (round_prints _ (within_nonneg _ _ B)) as (b & B0 & -> & ->).
  apply textColorObject_template; assumption.
Qed.

Lemma rgb_text_colour_round_trip_witness :
  colourInBytes (mkColor (dec 1275 10) (Zn 0) (dec 2549 10))
  /\ textColorObject "rgb(128, 0, 255)" = mkColor (Zn 128) (Zn 0) (Zn 255).
Proof.
  split; [vm_compute; intuition discriminate|].
  apply (rgb_text_colour_round_trip (mkColor (dec 1275 10) (Zn 0) (dec 2549 10))).
  vm_compute; intuition discriminate.
Defined.

(** ** The cell colour chosen for the text *)












(** ** The result as a whole *)



(** ** The layout of the statistics *)

Lemma Zseq_nth (n k : nat) (lo : Z) :
  (k < n)%nat -> nth_error (Zseq lo n) k = Some (lo + Z.of_nat k).
Proof.
  revert lo k. induction n as [|n IH]; intros lo k L; [lia|].
  destruct k as [|k]; cbn [Zseq nth_error].
  - f_equal. lia.
  - rewrite IH by lia. f_equal. lia.
Qed.

Lemma rows_nth {A : Type} (f : Z -> Z -> A) (nr nc k j : nat) (lo : Z) :
  (k < nr)%nat -> (j < nc)%nat ->
  nth_error (flat_map (fun r => map (f r) (Zseq 0 nc)) (Zseq lo nr)) (k * nc + j)
  = Some (f (lo + Z.of_nat k) (Z.of_nat j)).
Proof.
  revert lo k. induction nr as [|nr IH]; intros lo k K J; [lia|].
  cbn [Zseq flat_map]. destruct k as [|k].
  - rewrite nth_error_app1 by (rewrite length_map, Zseq_length; lia).
    cbn [Nat.mul Nat.add]. rewrite nth_error_map, Zseq_nth by exact J.
    cbn [option_map]. f_equal. f_equal. lia.
  - rewrite nth_error_app2 by (rewrite length_map, Zseq_length; lia).
    rewrite length_map, Zseq_length.
    replace (S k * nc + j - nc)%nat with (k * nc + j)%nat by lia.
    rewrite IH by lia. f_equal. f_equal. lia.
Qed.

(** X18.  The statistics are laid out row by row: there is one entry per
    cell, index [r * cols + c] holds the statistic of cell [(r, c)], and
    an index outside [0, rows * cols) reads nothing - the loops that use
    it throw. *)
Theorem computeCellStats_layout (img : ImageData) (g : GridConfig)
    (cw ch : num) :
  0 <= rows g -> 0 <= cols g ->
  Z.of_nat (List.length (computeCellStats img g cw ch)) = rows g * cols g
  /\ (forall r c, 0 <= r < rows g -> 0 <= c < cols g ->
        statAt (computeCellStats img g cw ch) (r * cols g + c)
        = Ret (cellStat (sample (data img)) (imgWidth img) cw ch r c))
  /\ (forall i, i < 0 \/ rows g * cols g <= i ->
        statAt (computeCellStats img g cw ch) i = Throw).
Proof.
  intros R C.
  assert (Len : Z.of_nat (List.length (computeCellStats img g cw ch))
                = rows g * cols g).
  { pose proof (gridStats_covers (sample (data img)) (imgWidth img) g cw ch) as L.
    unfold coversGrid in L. unfold computeCellStats. rewrite L. lia. }
  split; [exact Len|]. split.
  - intros r c Hr Hc. unfold statAt.
    replace (r * cols g + c <? 0) with false by (symmetry; apply Z.ltb_ge; nia).
    replace (Z.to_nat (r * cols g + c))
      with (Z.to_nat r * Z.to_nat (cols g) + Z.to_nat c)%nat by nia.
    unfold computeCellStats. rewrite gridStats_flat. unfold upto.
    rewrite !Z.sub_0_r.
    rewrite (rows_nth (cellStat (sample (data img)) (imgWidth img) cw ch))
      by lia.
    rewrite !Z2Nat.id by lia. reflexivity.
  - intros i [N|G]; unfold statAt.
    + replace (i <? 0) with true by (symmetry; apply Z.ltb_lt; lia). reflexivity.
    + destruct (i <? 0); [reflexivity|].
      destruct (nth_error _ _) eqn:E; [|reflexivity].
      exfalso. assert (nth_error (computeCellStats img g cw ch) (Z.to_nat i) <> None)
        as NN by congruence.
      apply nth_error_Some in NN. nia.
Qed.

Lemma computeCellStats_layout_witness :
  0 <= rows (mkGrid 3 4) /\ 0 <= cols (mkGrid 3 4)
  /\ Z.of_nat (List.length (computeCellStats cyanImage (mkGrid 3 4) (Zn 1) (Zn 1)))
     = rows (mkGrid 3 4) * cols (mkGrid 3 4)
  /\ (forall r c, 0 <= r < rows (mkGrid 3 4) -> 0 <= c < cols (mkGrid 3 4) ->
        statAt (computeCellStats cyanImage (mkGrid 3 4) (Zn 1) (Zn 1))
               (r * cols (mkGrid 3 4) + c)
        = Ret (cellStat (sample (data cyanImage)) (imgWidth cyanImage)
                        (Zn 1) (Zn 1) r c))
  /\ (forall i, i < 0 \/ rows (mkGrid 3 4) * cols (mkGrid 3 4) <= i ->
        statAt (computeCellStats cyanImage (mkGrid 3 4) (Zn 1) (Zn 1)) i = Throw).
Proof.
  split; [simpl; lia|]. split; [simpl; lia|].
  apply (computeCellStats_layout cyanImage (mkGrid 3 4) (Zn 1) (Zn 1));
    simpl; lia.
Defined.

(** ** The lines of [wrapTextCanvas] *)

Lemma Forall_snoc {A : Type} (P : A -> Prop) (l : list A) (a : A) :
  Forall P l -> P a -> Forall P (l ++ [a]).
Proof. intros L H. apply Forall_app. split; [exact L|]. constructor; [exact H|constructor]. Qed.

(** Every line of the loop is a word or was measured below the width. *)
Lemma wrapLoop_lines (measure : string -> num) (maxWidth : num)
    (P : string -> Prop) (words lines : list string) (currentLine : string) :
  (forall w, In w words -> P w) ->
  (forall l, (measure l <? maxWidth)%num = true -> P l) ->
  Forall P lines -> P currentLine ->
  Forall P (fst (wrapLoop measure maxWidth words lines currentLine))
  /\ (nonEmpty (snd (wrapLoop measure maxWidth words lines currentLine)) = true ->
      P (snd (wrapLoop measure maxWidth words lines currentLine))).
Proof.
  intros W Fit. revert lines currentLine.
  induction words as [|word rest IH]; intros lines cur L C; cbn [wrapLoop].
  - cbn [fst snd]. auto.
  - cbv zeta.
    assert (W' : forall w, In w rest -> P w) by (intros w I; apply W; now right).
    assert (Pw : P word) by (apply W; now left).
    destruct (measure _ <? maxWidth)%num eqn:T.
    + apply (IH W'); [exact L|]. apply Fit. exact T.
    + assert (L' : Forall P (if nonEmpty cur then lines ++ [cur] else lines)).
      { destruct (nonEmpty cur); [apply Forall_snoc; assumption|exact L]. }
      destruct (_ && _).
      * cbn [fst snd]. split; [apply Forall_snoc; assumption|discriminate].
      * apply (IH W'); assumption.
Qed.

(** X19.  Every line [wrapTextCanvas] returns is a single word of the
    text, as [split] gives it, or measures strictly below [maxWidth]: a line
    of several words is never as wide as the width. *)
Theorem wrapTextCanvas_lines_fit (measure : string -> num) (text : string)
    (maxWidth : num) :
  Forall (fun l => In l (split text) \/ (measure l <? maxWidth)%num = true)
         (wrapTextCanvas measure text maxWidth).
Proof.
  unfold wrapTextCanvas. destruct (_ || _); [constructor|].
  destruct (split text) as [|first rest] eqn:S; [constructor|].
  destruct (measure first >? maxWidth)%num.
  - constructor; [left; now left|constructor].
  - pose proof (wrapLoop_lines measure maxWidth
                  (fun l => In l (first :: rest)
                            \/ (measure l <? maxWidth)%num = true)
                  rest [] first) as (L & C).
    + intros w I. left. now right.
    + intros l T. now right.
    + constructor.
    + left. now left.
    + destruct (wrapLoop measure maxWidth rest [] first) as (lines, cur).
      cbn [fst snd] in L, C. destruct (nonEmpty cur) eqn:N; [|exact L].
      apply Forall_snoc; [exact L|]. apply C. reflexivity.
Qed.

Lemma wrapLoop_nonEmpty (measure : string -> num) (maxWidth : num)
    (words lines : list string) (currentLine : string) :
  (measure EmptyString >? maxWidth)%num = false ->
  Forall (fun l => nonEmpty l = true) lines ->
  Forall (fun l => nonEmpty l = true)
         (fst (wrapLoop measure maxWidth words lines currentLine)).
Proof.
  intro E. revert lines currentLine.
  induction words as [|word rest IH]; intros lines cur L; cbn [wrapLoop].
  - exact L.
  - cbv zeta. destruct (measure _ <? maxWidth)%num; [apply IH; exact L|].
    assert (L' : Forall (fun l => nonEmpty l = true)
                        (if nonEmpty cur then lines ++ [cur] else lines)).
    { destruct (nonEmpty cur) eqn:N; [apply Forall_snoc; assumption|exact L]. }
    destruct (measure word >? maxWidth)%num eqn:O; cbn [andb]; [|apply IH; exact L'].
    destruct (_ =? _)%nat; [|apply IH; exact L'].
    cbn [fst]. apply Forall_snoc; [exact L'|].
    destruct word; [congruence|reflexivity].
Qed.

(** X20.  With a measure that gives the empty string the width 0, no line
    [wrapTextCanvas] returns is empty. *)
Theorem wrapTextCanvas_no_empty_line (measure : string -> num) (text : string)
    (maxWidth : num) :
  measure EmptyString = Zn 0 ->
  Forall (fun l => l <> EmptyString) (wrapTextCanvas measure text maxWidth).
Proof.
  intro M0. unfold wrapTextCanvas.
  destruct (isBlank text); cbn [orb]; [constructor|].
  destruct (maxWidth <=? Zn 0)%num eqn:Wd; [constructor|].
  assert (E : (measure EmptyString >? maxWidth)%num = false).
  { rewrite M0. unfold Num.gtb.
    destruct maxWidth as [q| | |]; try reflexivity; [|discriminate].
    unfold Zn in *. cbn [Num.ltb Num.leb] in *.
    apply Qleb_gt in Wd. apply Qltb_ge. lra. }
  assert (NE : forall ls, Forall (fun l => nonEmpty l = true) ls ->
                          Forall (fun l => l <> EmptyString) ls).
  { intros ls A. eapply Forall_impl; [|exact A].
    intros l N ->. discriminate. }
  destruct (split text) as [|first rest]; [constructor|].
  destruct (measure first >? maxWidth)%num eqn:O.
  - constructor; [|constructor]. intros ->. congruence.
  - pose proof (wrapLoop_nonEmpty measure maxWidth rest [] first E
                  (Forall_nil _)) as L.
    destruct (wrapLoop measure maxWidth rest [] first) as (lines, cur).
    cbn [fst] in L. apply NE.
    destruct (nonEmpty cur) eqn:N; [apply Forall_snoc; assumption|exact L].
Qed.

Lemma wrapTextCanvas_no_empty_line_witness :
  halfEm (ArialPx (Zn 16)) EmptyString = Zn 0
  /\ Forall (fun l => l <> EmptyString)
            (wrapTextCanvas (halfEm (ArialPx (Zn 16))) "  two   words " (Zn 60)).
Proof.
  split; [vm_compute; reflexivity|].
  apply (wrapTextCanvas_no_empty_line (halfEm (ArialPx (Zn 16)))).
  vm_compute. reflexivity.
Defined.

Lemma split_has_word (text : string) :
  isBlank text = false -> existsb nonEmpty (split text) = true.
Proof.
  induction text as [|c rest IH]; cbn [isBlank split]; [discriminate|].
  destruct (Ascii.eqb c " ") eqn:E.
  - apply Ascii.eqb_eq in E. subst c. intro B. cbn [existsb nonEmpty orb].
    apply IH. exact B.
  - intros _. destruct (split rest); reflexivity.
Qed.

Lemma nonEmpty_append (a b c : string) :
  nonEmpty a = true \/ nonEmpty c = true -> nonEmpty (a ++ b ++ c) = true.
Proof.
  destruct a as [|x a]; [|reflexivity]. intros [H|H]; [discriminate|].
  destruct b as [|y b]; [exact H|reflexivity].
Qed.

(** The loop ends with a line as soon as it holds or meets a word. *)
Lemma wrapLoop_keeps_something (measure : string -> num) (maxWidth : num)
    (words lines : list string) (currentLine : string) :
  lines <> [] \/ nonEmpty currentLine = true \/ existsb nonEmpty words = true ->
  fst (wrapLoop measure maxWidth words lines currentLine) <> []
  \/ nonEmpty (snd (wrapLoop measure maxWidth words lines currentLine)) = true.
Proof.
  revert lines currentLine.
  induction words as [|word rest IH]; intros lines cur H; cbn [wrapLoop].
  - cbn [fst snd]. destruct H as [H|[H|H]]; [now left|now right|discriminate].
  - cbv zeta. cbn [existsb] in H. rewrite orb_true_iff in H.
    destruct (measure _ <? maxWidth)%num.
    + apply IH. destruct H as [H|[H|[H|H]]]; auto.
      * right. left. apply nonEmpty_append. now left.
      * right. left. apply nonEmpty_append. now right.
    + assert (S : forall (l : list string) (a : string), l ++ [a] <> []).
      { intros l a X. destruct l; discriminate. }
      destruct (_ && _).
      * cbn [fst]. left. apply S.
      * apply IH. destruct H as [H|[H|[H|H]]]; auto.
        -- left. destruct (nonEmpty cur); [apply S|exact H].
        -- left. rewrite H. apply S.
Qed.

(** X21.  For a text that is not blank and a width above 0,
    [wrapTextCanvas] returns at least one line. *)
Theorem wrapTextCanvas_some_line (measure : string -> num) (text : string)
    (maxWidth : num) :
  isBlank text = false -> (maxWidth <=? Zn 0)%num = false ->
  wrapTextCanvas measure text maxWidth <> [].
Proof.
  intros B W. unfold wrapTextCanvas. rewrite B, W. cbn [orb].
  pose proof (split_has_word text B) as H.
  destruct (split text) as [|first rest]; [discriminate|].
  destruct (measure first >? maxWidth)%num; [discriminate|].
  pose proof (wrapLoop_keeps_something measure maxWidth rest [] first) as K.
  destruct (wrapLoop measure maxWidth rest [] first) as (lines, cur).
  cbn [fst snd] in K. cbn [existsb] in H. rewrite orb_true_iff in H.
  destruct K as [K|K]; [tauto| |].
  - destruct (nonEmpty cur); [|exact K]. intro X. destruct lines; discriminate.
  - rewrite K. intro X. destruct lines; discriminate.
Qed.

Lemma wrapTextCanvas_some_line_witness :
  isBlank " a wide-word b" = false /\ (Zn 20 <=? Zn 0)%num = false
  /\ wrapTextCanvas (halfEm (ArialPx (Zn 16))) " a wide-word b" (Zn 20) <> [].
Proof.
  split; [vm_compute; reflexivity|]. split; [vm_compute; reflexivity|].
  apply (wrapTextCanvas_some_line (halfEm (ArialPx (Zn 16))));
    vm_compute; reflexivity.
Defined.

(** ** The size the text is drawn at *)











(** X23.  Whatever the alignment is, the anchor of the text lies within the
    padded interior of a rectangle wider than twice the padding, and a text
    block no higher than the padded interior lies inside it from top to
    bottom. *)
Theorem text_block_inside_rectangle (r : AnalysisResult) (W H : num)
    (x y w h b : Q) :
  rect r = mkRect (Fin x) (Fin y) (Fin w) (Fin h) ->
  (20 <= w)%Q -> (0 <= b)%Q -> (b <= h - 20)%Q ->
  exists x0 y0,
    textDrawXOf r W = Fin x0 /\ blockStartYOf r H (Fin b) = Fin y0
    /\ (x + 10 <= x0)%Q /\ (x0 <= x + w - 10)%Q
    /\ (y + 10 <= y0)%Q /\ (y0 + b <= y + h - 10)%Q.
Proof.
  intros E Wd B0 Bh.
  assert (Half : forall a : Q, (a / inject_Z 2 == a * (1 # 2))%Q).
  { intro a. unfold Qdiv. reflexivity. }
  assert (X : exists x0, textDrawXOf r W = Fin x0
                         /\ (x + 10 <= x0)%Q /\ (x0 <= x + w - 10)%Q).
  { unfold textDrawXOf. rewrite E. cbn [rx rwidth].
    destruct (String.eqb (hAlignOf r W) "left");
      [|destruct (String.eqb (hAlignOf r W) "right")];
      (eexists; split; [reflexivity|]); rewrite ?Qred_correct, ?Half;
      change (inject_Z 10) with 10%Q; split; lra. }
  assert (Y : exists y0, blockStartYOf r H (Fin b) = Fin y0
                         /\ (y + 10 <= y0)%Q /\ (y0 + b <= y + h - 10)%Q).
  { unfold blockStartYOf, availableRectHeight. rewrite E. cbn [ry rheight].
    destruct (String.eqb (vAlignOf r H) "top");
      [|destruct (String.eqb (vAlignOf r H) "bottom")];
      (eexists; split; [reflexivity|]); rewrite ?Qred_correct, ?Half;
      change (inject_Z 10) with 10%Q; change (inject_Z 2) with 2%Q;
      split; lra. }
  destruct X as (x0 & EX & X1 & X2). destruct Y as (y0 & EY & Y1 & Y2).
  exists x0, y0. repeat split; assumption.
Qed.

Lemma text_block_inside_rectangle_witness :
  rect roomyResult = mkRect (Fin 10) (Fin 20) (Fin 130) (Fin 70)
  /\ (20 <= 130)%Q /\ (0 <= 216 # 5)%Q /\ ((216 # 5) <= 70 - 20)%Q
  /\ exists x0 y0,
       textDrawXOf roomyResult (Zn 400) = Fin x0
       /\ blockStartYOf roomyResult (Zn 300) (Fin (216 # 5)) = Fin y0
       /\ (10 + 10 <= x0)%Q /\ (x0 <= 10 + 130 - 10)%Q
       /\ (20 + 10 <= y0)%Q /\ (y0 + (216 # 5) <= 20 + 70 - 10)%Q.
Proof.
  split; [reflexivity|].
  split; [vm_compute; discriminate|]. split; [vm_compute; discriminate|].
  split; [vm_compute; discriminate|].
  apply (text_block_inside_rectangle roomyResult (Zn 400) (Zn 300));
    [reflexivity|vm_compute; discriminate..].
Defined.

(** X24.  For a rectangle no wider or no higher than twice the padding the
    call returns whatever the font size is - also for an infinite one - and
    draws the scrim at most: the font is not set, nothing is measured and no
    text is drawn. *)
Theorem render_skips_text_without_interior
    (measureText : Font -> string -> num) (ctx : Canvas) (text : string)
    (r : AnalysisResult) (W H : num) (w h : Q) :
  rwidth (rect r) = Fin w -> rheight (rect r) = Fin h ->
  (w <= 20)%Q \/ (h <= 20)%Q ->
  renderTextWithDynamicSizing measureText ctx text r W H
  = Some (setFillStyle (Plain (textColor r)) (drawScrim r ctx)).
Proof.
  intros Ew Eh D. unfold renderTextWithDynamicSizing. cbv zeta.
  assert (C : (availableRectWidth r >? Zn 0)%num
              && (availableRectHeight r >? Zn 0)%num = false).
  { unfold availableRectWidth, availableRectHeight. rewrite Ew, Eh.
    apply andb_false_iff. unfold Num.gtb.
    destruct D as [D|D]; [left|right]; cbn [Num.ltb Zn]; apply Qltb_ge;
      rewrite !Qred_correct; change (inject_Z 0) with 0%Q;
      change (inject_Z 2 * inject_Z 10)%Q with 20%Q; lra. }
  rewrite C. reflexivity.
Qed.

Lemma render_skips_text_without_interior_witness :
  rwidth (rect (mkResult (mkRect (Zn 0) (Zn 0) (Zn 20) (Zn 300)) "white" PInf
                         (mkColor (Zn 0) (Zn 0) (Zn 0)) "portrait" (mkGrid 3 1)
                         (Zn 0) (Zn 21))) = Fin 20
  /\ rheight (rect (mkResult (mkRect (Zn 0) (Zn 0) (Zn 20) (Zn 300)) "white" PInf
                             (mkColor (Zn 0) (Zn 0) (Zn 0)) "portrait" (mkGrid 3 1)
                             (Zn 0) (Zn 21))) = Fin 300
  /\ ((20 <= 20)%Q \/ (300 <= 20)%Q)
  /\ renderTextWithDynamicSizing halfEm freshCanvas sampleText
       (mkResult (mkRect (Zn 0) (Zn 0) (Zn 20) (Zn 300)) "white" PInf
                 (mkColor (Zn 0) (Zn 0) (Zn 0)) "portrait" (mkGrid 3 1)
                 (Zn 0) (Zn 21))
       (Zn 400) (Zn 300)
     = Some (mkCanvas (Plain "white") (OtherFont "10px sans-serif") "start"
                      "alphabetic" []).
Proof.
  split; [reflexivity|]. split; [reflexivity|].
  split; [left; vm_compute; discriminate|].
  apply (render_skips_text_without_interior halfEm freshCanvas sampleText
           (mkResult (mkRect (Zn 0) (Zn 0) (Zn 20) (Zn 300)) "white" PInf
                     (mkColor (Zn 0) (Zn 0) (Zn 0)) "portrait" (mkGrid 3 1)
                     (Zn 0) (Zn 21))
           (Zn 400) (Zn 300) 20 300);
    [reflexivity|reflexivity|left; vm_compute; discriminate].
Defined.

(** ** The scrim colour for three-digit channels *)

Lemma Zstr_three_digits (z : Z) :
  100 <= z <= 999 ->
  exists a b c, Zstr z = String a (String b (String c EmptyString)).
Proof.
  intro R.
  assert (A : forallb (fun v => (String.length (Zstr v) =? 3)%nat) (Zseq 100 900)
              = true) by (vm_compute; reflexivity).
  rewrite forallb_forall in A.
  assert (L : String.length (Zstr z) = 3%nat).
  { apply Nat.eqb_eq. apply A. apply Zseq_In. lia. }
  destruct (Zstr z) as [|a [|b [|c [|d s]]]]; try discriminate.
  exists a, b, c. reflexivity.
Qed.

(** X25.  For an rgb string whose three channels have three digits each
    the fixed offsets of the renderer read the right numbers: the three
    substrings it cuts out parse to the red, the green and the blue channel
    of the string. *)
Theorem scrim_offsets_read_three_digit_channels (r g b : Z) :
  100 <= r <= 999 -> 100 <= g <= 999 -> 100 <= b <= 999 ->
  let textColor :=
    ("rgb(" ++ Zstr r ++ ", " ++ Zstr g ++ ", " ++ Zstr b ++ ")")%string in
  parseInt (orElse (jsSubstring 4 7 textColor) "0") = Zn r
  /\ parseInt (orElse (jsSubstring 9 12 textColor) "0") = Zn g
  /\ parseInt (orElse (jsSubstring 14 17 textColor) "0") = Zn b.
Proof.
  intros R G B. cbv zeta.
  destruct (Zstr_digits r ltac:(lia)) as (_ & _ & Pr).
  destruct (Zstr_digits g ltac:(lia)) as (_ & _ & Pg).
  destruct (Zstr_digits b ltac:(lia)) as (_ & _ & Pb).
  destruct (Zstr_three_digits r R) as (r1 & r2 & r3 & Er).
  destruct (Zstr_three_digits g G) as (g1 & g2 & g3 & Eg).
  destruct (Zstr_three_digits b B) as (b1 & b2 & b3 & Eb).
  rewrite Er, Eg, Eb in *.
  change (jsSubstring 4 7 _) with (String r1 (String r2 (String r3 EmptyString))).
  change (jsSubstring 9 12 _) with (String g1 (String g2 (String g3 EmptyString))).
  change (jsSubstring 14 17 _) with (String b1 (String b2 (String b3 EmptyString))).
  cbn [orElse]. auto.
Qed.

Lemma scrim_offsets_read_three_digit_channels_witness :
  100 <= 199 <= 999 /\ 100 <= 255 <= 999 /\ 100 <= 128 <= 999
  /\ parseInt (orElse (jsSubstring 4 7 "rgb(199, 255, 128)") "0") = Zn 199
  /\ parseInt (orElse (jsSubstring 9 12 "rgb(199, 255, 128)") "0") = Zn 255
  /\ parseInt (orElse (jsSubstring 14 17 "rgb(199, 255, 128)") "0") = Zn 128.
Proof.
  split; [lia|]. split; [lia|]. split; [lia|].
  apply (scrim_offsets_read_three_digit_channels 199 255 128); lia.
Defined.

(** ** The number inputs *)

Lemma Qltb_inject_Z (a b : Z) : Qltb (inject_Z a) (inject_Z b) = (a <? b).
Proof.
  destruct (a <? b) eqn:E.
  - apply Qltb_lt. rewrite <- Zlt_Qlt. now apply Z.ltb_lt.
  - apply Qltb_ge. rewrite <- Zle_Qle. now apply Z.ltb_ge.
Qed.

Lemma max_Zn (a b : Z) : Num.max (Zn a) (Zn b) = Zn (Z.max a b).
Proof.
  unfold Zn, Num.max, Num.ltb. rewrite Qltb_inject_Z.
  destruct (a <? b) eqn:E; zbool; f_equal; f_equal; lia.
Qed.

Lemma orNum_Zn (v d : Z) : orNum (Zn v) (Zn d) = Zn (if v =? 0 then d else v).
Proof.
  unfold orNum, Zn. destruct (v =? 0) eqn:E.
  - apply Z.eqb_eq in E. subst v. reflexivity.
  - apply Z.eqb_neq in E.
    destruct (Qeq_bool (inject_Z v) 0) eqn:Q; [|reflexivity].
    apply Qeq_bool_eq in Q. change 0%Q with (inject_Z 0) in Q.
    apply (proj1 (inject_Z_injective v 0)) in Q. contradiction.
Qed.

(** [parseInt] gives an integer or [NaN]. *)
Lemma parseInt_cases (s : string) :
  parseInt s = NaN \/ exists v, parseInt s = Zn v.
Proof.
  unfold parseInt.
  destruct (match snd (span is_space s) with
            | String "-"%char r => (-1, r)
            | String "+"%char r => (1, r)
            | _ => (1, snd (span is_space s))
            end) as [sign s2].
  destruct (match s2 with
            | String "0"%char (String "x"%char r) => (16, r)
            | String "0"%char (String "X"%char r) => (16, r)
            | _ => (10, s2)
            end) as [radix s3].
  destruct (readDigits radix s3 0 false) as [v|]; [right|left; reflexivity].
  eexists. reflexivity.
Qed.

(** X26.  For an input of at most 15 characters the stored value is an
    integer of at least the least value of the input (1 for rows, columns
    and target area, 0 for the border); the decimal string of an integer in
    range and below 2^53 is stored as that integer. *)
Theorem numberInput_in_range (least : Z) (value : string) :
  0 <= least <= 1 ->
  ((String.length value <= 15)%nat ->
   exists n, numberInput least value = Zn n /\ least <= n)
  /\ (forall n, least <= n < 2 ^ 53 -> numberInput least (Zstr n) = Zn n).
Proof.
  intro L. split.
  - intros _. unfold numberInput.
    destruct (parseInt_cases value) as [->|(v & ->)].
    + cbn [orNum]. rewrite max_Zn. exists (Z.max least least).
      split; [reflexivity|lia].
    + rewrite orNum_Zn, max_Zn. eexists. split; [reflexivity|lia].
  - intros n (N & _). unfold numberInput.
    destruct (Zstr_digits n ltac:(lia)) as (_ & _ & ->).
    rewrite orNum_Zn, max_Zn. f_equal.
    destruct (n =? 0) eqn:E; zbool; lia.
Qed.

Lemma numberInput_in_range_witness :
  0 <= 1 <= 1 /\ (String.length "-3.5e2" <= 15)%nat
  /\ (exists n, numberInput 1 "-3.5e2" = Zn n /\ 1 <= n)
  /\ numberInput 1 (Zstr 12) = Zn 12.
Proof.
  assert (L : 0 <= 1 <= 1) by lia.
  assert (S15 : (String.length "-3.5e2" <= 15)%nat) by (simpl; lia).
  split; [exact L|]. split; [exact S15|].
  split.
  - exact (proj1 (numberInput_in_range 1 "-3.5e2" L) S15).
  - apply (proj2 (numberInput_in_range 1 "-3.5e2" L) 12). lia.
Defined.

(** ** The canvas size *)

Lemma div_Fin_pos (x y : Q) :
  (0 < y)%Q -> (Fin x / Fin y)%num = Fin (Qred (x / y)).
Proof.
  intro P. unfold Num.div.
  destruct (Qeq_bool y 0) eqn:E; [|reflexivity].
  apply Qeq_bool_eq in E. lra.
Qed.

Lemma Qdiv_mult_cancel (x y : Q) : (0 < y)%Q -> (x / y * y == x)%Q.
Proof. intro P. field. lra. Qed.

(** The draw size in exact arithmetic. *)
Lemma drawSize_scaled (w h : Q) :
  (0 < w)%Q -> (0 < h)%Q ->
  exists dw dh,
    drawSize (Fin w) (Fin h) = (Fin dw, Fin dh)
    /\ (0 < dw)%Q /\ (dw <= 800)%Q /\ (dw <= w)%Q
    /\ (0 < dh)%Q /\ (dh <= 600)%Q /\ (dh <= h)%Q
    /\ (dw * h == dh * w)%Q
    /\ ((w <= 800 /\ h <= 600 /\ dw == w /\ dh == h)
        \/ ((800 < w \/ 600 < h) /\ dw == 800)
        \/ ((800 < w \/ 600 < h) /\ dh == 600))%Q.
Proof.
  intros W H. unfold drawSize, MAX_CANVAS_WIDTH, MAX_CANVAS_HEIGHT. cbv zeta.
  unfold Num.gtb, Zn. cbn [Num.ltb].
  change (inject_Z 800) with 800%Q. change (inject_Z 600) with 600%Q.
  destruct (Qltb 800 w) eqn:C1.
  - apply Qltb_lt in C1. rewrite (div_Fin_pos 800 w W). cbn [Num.mul Num.ltb].
    pose proof (Qdiv_mult_cancel 800 w W) as A.
    destruct (Qltb 600 (Qred (h * Qred (800 / w)))) eqn:C2.
    + apply Qltb_lt in C2.
      assert (P : (0 < Qred (h * Qred (800 / w)))%Q) by lra.
      rewrite (div_Fin_pos 600 _ P). cbn [Num.mul].
      pose proof (Qdiv_mult_cancel 600 _ P) as B.
      eexists _, _. split; [reflexivity|].
      rewrite !Qred_correct in *.
      set (a := (800 / w)%Q) in *. set (b := (600 / (h * a))%Q) in *.
      assert (0 < a)%Q by nra. assert (0 < b)%Q by nra. assert (b < 1)%Q by nra.
      repeat split; try nra; try (right; right; split; [left; exact C1|reflexivity]).
    + apply Qltb_ge in C2.
      eexists _, _. split; [reflexivity|].
      rewrite !Qred_correct in *.
      set (a := (800 / w)%Q) in *.
      assert (0 < a)%Q by nra. assert (a < 1)%Q by nra.
      repeat split; try nra; try (right; left; split; [left; exact C1|reflexivity]).
  - apply Qltb_ge in C1. cbn [Num.ltb].
    destruct (Qltb 600 h) eqn:C2.
    + apply Qltb_lt in C2. rewrite (div_Fin_pos 600 h H). cbn [Num.mul].
      pose proof (Qdiv_mult_cancel 600 h H) as B.
      eexists _, _. split; [reflexivity|].
      rewrite !Qred_correct in *.
      set (b := (600 / h)%Q) in *.
      assert (0 < b)%Q by nra. assert (b < 1)%Q by nra.
      repeat split; try nra; try (right; right; split; [right; exact C2|reflexivity]).
    + apply Qltb_ge in C2.
      exists w, h. split; [reflexivity|].
      repeat split; try lra; try (left; repeat split; try assumption; reflexivity).
Qed.

Lemma canvasDimension_floor (q : Q) :
  (0 <= q)%Q -> (q <= 800)%Q ->
  canvasDimension (Fin q) = Zn (Qfloor q)
  /\ 0 <= Qfloor q <= 800
  /\ (inject_Z (Qfloor q) <= q)%Q /\ (q < inject_Z (Qfloor q) + 1)%Q.
Proof.
  intros P B.
  assert (F0 : 0 <= Qfloor q).
  { change 0 with (Qfloor 0). apply Qfloor_resp_le. exact P. }
  assert (F1 : Qfloor q <= 800).
  { change 800 with (Qfloor 800). apply Qfloor_resp_le. exact B. }
  pose proof (Qfloor_le q) as FL. pose proof (Qlt_floor q) as FU.
  rewrite inject_Z_plus in FU. change (inject_Z 1) with 1%Q in FU.
  repeat split; try assumption.
  cbn [canvasDimension].
  replace (Qltb q 0) with false by (symmetry; apply Qltb_ge; exact P).
  rewrite Z.mod_small by lia. reflexivity.
Qed.

(** X27.  An image of positive width and height below 2^20 gives a canvas
    of whole pixels that fits 800 by 600 and is never larger than the
    image: the image size itself when that fits, and otherwise 800 wide or
    600 high, with the other side cut down to a whole pixel so that the
    aspect ratio of the image is kept to within that pixel. *)
Theorem canvasSize_fits_canvas (w h : Z) :
  0 < w < 2 ^ 20 -> 0 < h < 2 ^ 20 ->
  exists cw ch,
    canvasSize (Zn w) (Zn h) = (Zn cw, Zn ch)
    /\ 0 <= cw <= 800 /\ cw <= w /\ 0 <= ch <= 600 /\ ch <= h
    /\ (w <= 800 -> h <= 600 -> cw = w /\ ch = h)
    /\ (800 < w \/ 600 < h -> cw = 800 \/ ch = 600)
    /\ - h <= cw * h - ch * w <= w.
Proof.
  intros W H.
  assert (PW : (0 < inject_Z w)%Q)
    by (change 0%Q with (inject_Z 0); rewrite <- Zlt_Qlt; lia).
  assert (PH : (0 < inject_Z h)%Q)
    by (change 0%Q with (inject_Z 0); rewrite <- Zlt_Qlt; lia).
  destruct (drawSize_scaled _ _ PW PH)
    as (dw & dh & E & A1 & A2 & A3 & B1 & B2 & B3 & AS & K).
  destruct (canvasDimension_floor dw ltac:(lra) A2) as (Ew & Rw & Lw & Uw).
  destruct (canvasDimension_floor dh ltac:(lra) ltac:(lra))
    as (Eh & Rh' & Lh & Uh).
  assert (Rh : 0 <= Qfloor dh <= 600).
  { split; [lia|]. change 600 with (Qfloor 600). apply Qfloor_resp_le.
    exact B2. }
  exists (Qfloor dw), (Qfloor dh).
  unfold canvasSize. unfold Zn at 1 2. rewrite E, Ew, Eh.
  split; [reflexivity|].
  set (cw := Qfloor dw) in *. set (ch := Qfloor dh) in *.
  assert (CW : cw <= w) by (rewrite Zle_Qle; lra).
  assert (CH : ch <= h) by (rewrite Zle_Qle; lra).
  assert (Fw : (dw == inject_Z w)%Q -> cw = w).
  { intro Q. unfold cw. rewrite Q. apply Qfloor_Z. }
  assert (Fh : (dh == inject_Z h)%Q -> ch = h).
  { intro Q. unfold ch. rewrite Q. apply Qfloor_Z. }
  assert (F8 : (dw == 800)%Q -> cw = 800).
  { intro Q. unfold cw. rewrite Q. reflexivity. }
  assert (F6 : (dh == 600)%Q -> ch = 600).
  { intro Q. unfold ch. rewrite Q. reflexivity. }
  assert (L8 : w <= 800 <-> (inject_Z w <= 800)%Q).
  { rewrite Zle_Qle. reflexivity. }
  assert (L6 : h <= 600 <-> (inject_Z h <= 600)%Q).
  { rewrite Zle_Qle. reflexivity. }
  assert (G8 : 800 < w <-> (800 < inject_Z w)%Q).
  { rewrite Zlt_Qlt. reflexivity. }
  assert (G6 : 600 < h <-> (600 < inject_Z h)%Q).
  { rewrite Zlt_Qlt. reflexivity. }
  split; [exact Rw|]. split; [exact CW|]. split; [exact Rh|].
  split; [exact CH|].
  split; [|split].
  - intros S8 S6. apply L8 in S8. apply L6 in S6.
    destruct K as [(_ & _ & Qw & Qh)|[(G & _)|(G & _)]];
      [split; [exact (Fw Qw)|exact (Fh Qh)]|destruct G; lra..].
  - intros G. rewrite G8, G6 in G.
    destruct K as [(S8 & S6 & _)|[(_ & Q)|(_ & Q)]];
      [destruct G; lra|left; exact (F8 Q)|right; exact (F6 Q)].
  - destruct K as [(_ & _ & Qw & Qh)|[(_ & Q)|(_ & Q)]].
    + rewrite (Fw Qw), (Fh Qh). lia.
    + rewrite (F8 Q).
      assert (ch * w <= 800 * h).
      { rewrite Zle_Qle, !inject_Z_mult. change (inject_Z 800) with 800%Q.
        fold ch in Lh. nra. }
      assert (800 * h <= (ch + 1) * w).
      { rewrite Zle_Qle, !inject_Z_mult, inject_Z_plus.
        change (inject_Z 800) with 800%Q. change (inject_Z 1) with 1%Q.
        fold ch in Uh. nra. }
      lia.
    + rewrite (F6 Q).
      assert (cw * h <= 600 * w).
      { rewrite Zle_Qle, !inject_Z_mult. change (inject_Z 600) with 600%Q.
        fold cw in Lw. nra. }
      assert (600 * w <= (cw + 1) * h).
      { rewrite Zle_Qle, !inject_Z_mult, inject_Z_plus.
        change (inject_Z 600) with 600%Q. change (inject_Z 1) with 1%Q.
        fold cw in Uw. nra. }
      lia.
Qed.

Lemma canvasSize_fits_canvas_witness :
  0 < 900 < 2 ^ 20 /\ 0 < 700 < 2 ^ 20
  /\ canvasSize (Zn 900) (Zn 700) = (Zn 771, Zn 600)
  /\ exists cw ch,
       canvasSize (Zn 900) (Zn 700) = (Zn cw, Zn ch)
       /\ 0 <= cw <= 800 /\ cw <= 900 /\ 0 <= ch <= 600 /\ ch <= 700
       /\ (900 <= 800 -> 700 <= 600 -> cw = 900 /\ ch = 700)
       /\ (800 < 900 \/ 600 < 700 -> cw = 800 \/ ch = 600)
       /\ - 700 <= cw * 700 - ch * 900 <= 900.
Proof.
  split; [lia|]. split; [lia|]. split; [vm_compute; reflexivity|].
  apply (canvasSize_fits_canvas 900 700); lia.
Defined.

(** ** The hovered cell *)

(** One axis of the hover lookup on a canvas of the analysed size. *)
Lemma hover_axis (x : Q) (size n : Z) :
  1 <= n -> 0 < size -> (0 <= x)%Q -> (x < inject_Z size)%Q ->
  exists c,
    Num.floor (Fin x * (Zn size / Zn size) / (Zn size / Zn n)) = Zn c
    /\ 0 <= c < n
    /\ (inject_Z c * (inject_Z size / inject_Z n) <= x)%Q
    /\ (x < inject_Z (c + 1) * (inject_Z size / inject_Z n))%Q.
Proof.
  intros N S X0 X1.
  assert (PS : (0 < inject_Z size)%Q) by (change 0%Q with (inject_Z 0); now rewrite <- Zlt_Qlt).
  assert (PN : (0 < inject_Z n)%Q) by (apply Zn_positive; exact N).
  unfold Zn. rewrite (div_Fin_pos _ _ PS), (div_Fin_pos _ _ PN).
  cbn [Num.mul].
  assert (PW : (0 < Qred (inject_Z size / inject_Z n))%Q).
  { rewrite Qred_correct. apply Qlt_shift_div_l; lra. }
  rewrite (div_Fin_pos _ _ PW). cbn [Num.floor]. unfold Zn.
  eexists. split; [reflexivity|].
  set (q := Qred (Qred (x * Qred (inject_Z size / inject_Z size))
                  / Qred (inject_Z size / inject_Z n))).
  pose proof (Qfloor_le q) as FL. pose proof (Qlt_floor q) as FU.
  rewrite inject_Z_plus in *. change (inject_Z 1) with 1%Q in *.
  pose proof (Qdiv_mult_cancel (inject_Z size) (inject_Z size) PS) as A.
  pose proof (Qdiv_mult_cancel (inject_Z size) (inject_Z n) PN) as B.
  assert (Eq : (q * (inject_Z size / inject_Z n) == x)%Q).
  { unfold q. rewrite !Qred_correct.
    assert (One : (inject_Z size / inject_Z size == 1)%Q) by (field; lra).
    rewrite One. rewrite Qred_correct in PW. field. split; lra. }
  rewrite Qred_correct in PW.
  set (cw := (inject_Z size / inject_Z n)%Q) in *.
  assert (Q0 : (0 <= q)%Q) by nra.
  assert (Q1 : (q < inject_Z n)%Q) by nra.
  split; [|split; nra].
  split.
  - change 0 with (Qfloor 0). apply Qfloor_resp_le. exact Q0.
  - apply Z.lt_nge. intro G. rewrite Zle_Qle in G. lra.
Qed.

(** One axis of the hover lookup in whole numbers. *)
Lemma hover_axis_whole (x size n : Z) :
  1 <= n -> 0 < size -> 0 <= x < size ->
  exists c,
    Num.floor (Zn x * (Zn size / Zn size) / (Zn size / Zn n)) = Zn c
    /\ 0 <= c < n
    /\ c * size <= x * n <= (c + 1) * size
    /\ ((n | size) -> c = x / (size / n)).
Proof.
  intros N S X.
  assert (X0 : (0 <= inject_Z x)%Q)
    by (change 0%Q with (inject_Z 0); rewrite <- Zle_Qle; lia).
  assert (X1 : (inject_Z x < inject_Z size)%Q) by (rewrite <- Zlt_Qlt; lia).
  destruct (hover_axis (inject_Z x) size n N S X0 X1) as (c & E & R & L & U).
  exists c. split; [exact E|]. split; [exact R|].
  assert (PN : (0 < inject_Z n)%Q) by (apply Zn_positive; exact N).
  pose proof (Qdiv_mult_cancel (inject_Z size) (inject_Z n) PN) as B.
  rewrite inject_Z_plus in U. change (inject_Z 1) with 1%Q in U.
  set (cw := (inject_Z size / inject_Z n)%Q) in *.
  assert (A1 : c * size <= x * n).
  { rewrite Zle_Qle, !inject_Z_mult. nra. }
  assert (A2 : x * n < (c + 1) * size).
  { rewrite Zlt_Qlt, !inject_Z_mult, inject_Z_plus.
    change (inject_Z 1) with 1%Q. nra. }
  split; [lia|].
  intros (k & ->). rewrite Z.div_mul by lia.
  assert (K : 0 < k) by nia.
  apply Z.div_unique with (x - c * k); [left; nia|lia].
Qed.

(** X29.  On a canvas of the analysed size, a pointer at whole
    coordinates inside the canvas always hovers a cell of the grid, and the
    pointer lies in that cell or on its outline; where the columns divide
    the width (the rows the height) evenly, the column (the row) is the
    pointer coordinate divided by the cell size. *)
Theorem hover_picks_containing_cell (stats : list CellStat) (g : GridConfig)
    (w h x y : Z) :
  1 <= rows g < 2 ^ 20 -> 1 <= cols g < 2 ^ 20 ->
  0 < w < 2 ^ 20 -> 0 < h < 2 ^ 20 ->
  0 <= x < w -> 0 <= y < h ->
  exists r c,
    handleCanvasMouseMove (Zn x) (Zn y) (Zn w) (Zn h)
      (mkHover stats g (Zn w / Zn (cols g))%num (Zn h / Zn (rows g))%num w h)
    = Some (Zn r, Zn c)
    /\ 0 <= r < rows g /\ 0 <= c < cols g
    /\ c * w <= x * cols g <= (c + 1) * w
    /\ r * h <= y * rows g <= (r + 1) * h
    /\ ((cols g | w) -> c = x / (w / cols g))
    /\ ((rows g | h) -> r = y / (h / rows g)).
Proof.
  intros (R & _) (C & _) (W & _) (H & _) X Y.
  destruct (hover_axis_whole x w (cols g) C W X) as (c & Ec & Cr & Cb & Cd).
  destruct (hover_axis_whole y h (rows g) R H Y) as (r & Er & Rr & Rb & Rd).
  exists r, c. unfold handleCanvasMouseMove. cbv zeta.
  cbn [canvasWidth canvasHeight cellWidthPx cellHeightPx hGridConfig].
  rewrite Ec, Er. unfold Num.geb, Zn. cbn [Num.leb Num.ltb].
  rewrite !Qltb_inject_Z.
  replace (Qleb (inject_Z 0) (inject_Z r)) with true
    by (symmetry; apply Qleb_le; rewrite <- Zle_Qle; lia).
  replace (Qleb (inject_Z 0) (inject_Z c)) with true
    by (symmetry; apply Qleb_le; rewrite <- Zle_Qle; lia).
  replace (r <? rows g) with true by (symmetry; apply Z.ltb_lt; lia).
  replace (c <? cols g) with true by (symmetry; apply Z.ltb_lt; lia).
  cbn [andb]. repeat split; try lia; assumption.
Qed.

Lemma hover_picks_containing_cell_witness :
  1 <= rows (mkGrid 3 4) < 2 ^ 20 /\ 1 <= cols (mkGrid 3 4) < 2 ^ 20
  /\ 0 < 12 < 2 ^ 20 /\ 0 < 10 < 2 ^ 20 /\ 0 <= 7 < 12 /\ 0 <= 8 < 10
  /\ exists r c,
       handleCanvasMouseMove (Zn 7) (Zn 8) (Zn 12) (Zn 10)
         (mkHover [] (mkGrid 3 4) (Zn 12 / Zn (cols (mkGrid 3 4)))%num
                  (Zn 10 / Zn (rows (mkGrid 3 4)))%num 12 10)
       = Some (Zn r, Zn c)
       /\ 0 <= r < rows (mkGrid 3 4) /\ 0 <= c < cols (mkGrid 3 4)
       /\ c * 12 <= 7 * cols (mkGrid 3 4) <= (c + 1) * 12
       /\ r * 10 <= 8 * rows (mkGrid 3 4) <= (r + 1) * 10
       /\ ((cols (mkGrid 3 4) | 12) -> c = 7 / (12 / cols (mkGrid 3 4)))
       /\ ((rows (mkGrid 3 4) | 10) -> r = 8 / (10 / rows (mkGrid 3 4))).
Proof.
  split; [simpl; lia|]. split; [simpl; lia|]. split; [lia|]. split; [lia|].
  split; [lia|]. split; [lia|].
  apply (hover_picks_containing_cell [] (mkGrid 3 4) 12 10 7 8);
    simpl; lia.
Defined.

(** ** The shape of the result *)

(** X30.  The cells a result reports are a generated shape: at least one
    row and one column, within the grid less the border on both sides, of
    an area of at least 0.8 of the target area, and under the name of their
    own aspect - square, landscape or portrait. *)
Theorem analyzeImageCore_shape_of_result (p : ImageAnalysisCoreParams)
    (res : AnalysisResult) (hover : option AnalysisDataForHover)
    (msgs : list string) :
  analyzeImageCore p = Ret (mkCore (Some res) hover, msgs) ->
  let b := borderExclusionCells p in
  shapeOk (targetAreaValue p) (rows (gridConfig p) - 2 * b)
          (cols (gridConfig p) - 2 * b)
          (mkShape (aspectRatioName res) (rows (actualCells res))
                   (cols (actualCells res)))
  /\ namedByAspect (mkShape (aspectRatioName res) (rows (actualCells res))
                            (cols (actualCells res)))
  /\ In (aspectRatioName res) ["square"; "landscape"; "portrait"]%string.
Proof.
  intros A. cbv zeta. apply analyzeImageCore_result in A.
  destruct (placeText_result _ _ _ _ _ _ _ A) as (best & color & F & _ & ->).
  cbn [aspectRatioName actualCells rows cols].
  apply searchShapes_firstMinimum in F. apply firstMinimum_In in F.
  apply testedPairs_In in F. destruct F as (I & _).
  pose proof (proj1 (generateShapesToTest_ok (targetAreaValue p)
                       (rows (gridConfig p) - 2 * borderExclusionCells p)
                       (cols (gridConfig p) - 2 * borderExclusionCells p))) as Ok.
  pose proof (generateShapesToTest_named (targetAreaValue p)
                (rows (gridConfig p) - 2 * borderExclusionCells p)
                (cols (gridConfig p) - 2 * borderExclusionCells p)) as Nm.
  rewrite Forall_forall in Ok, Nm.
  specialize (Ok _ I). specialize (Nm _ I).
  destruct (shape best) as [name sr sc]. cbn [sname srows scols] in *.
  split; [exact Ok|]. split; [exact Nm|].
  destruct Nm as [(E & _)|[(E & _)|(E & _)]]; cbn [sname] in E; rewrite E;
    simpl; tauto.
Qed.

Lemma analyzeImageCore_shape_of_result_witness :
  exists res hover msgs,
    analyzeImageCore cyanParams = Ret (mkCore (Some res) hover, msgs)
    /\ shapeOk (targetAreaValue cyanParams)
               (rows (gridConfig cyanParams) - 2 * borderExclusionCells cyanParams)
               (cols (gridConfig cyanParams) - 2 * borderExclusionCells cyanParams)
               (mkShape (aspectRatioName res) (rows (actualCells res))
                        (cols (actualCells res)))
    /\ namedByAspect (mkShape (aspectRatioName res) (rows (actualCells res))
                              (cols (actualCells res)))
    /\ In (aspectRatioName res) ["square"; "landscape"; "portrait"]%string.
Proof.
  eexists _, _, _. split; [vm_compute; reflexivity|].
  eapply (analyzeImageCore_shape_of_result cyanParams). vm_compute. reflexivity.
Defined.
